(** * change_mac.py: a shallow embedding and its verified properties

    The program is a single Python script that changes the hardware address
    of a network interface by calling the platform's own tools.  Its
    behaviour is modelled in three layers:

    - the part of the Python runtime the script relies on: strings as
      sequences of code points, [str.strip], [str.splitlines], [int],
      list indexing, and the [re] patterns it uses;
    - the environment: platform name, effective user id, external
      commands, the file system, the log, standard input and output;
    - the script's functions, written in a state-and-exception monad whose
      outcomes are a normal return, an exception, or [sys.exit].

    Conventions of the model:
    - character classes follow CPython 3.11 (Unicode 14.0);
    - a file is its text as text mode presents it; newline translation is
      below this level (the script writes no newline).  Which paths the
      system refuses to open is a matter of the environment, not derived
      from the spelling of a path.  Text is written through the locale's
      codec, which encodes ASCII and whatever else the environment says;
      faults of the device (a full disk, an I/O error) are not modelled;
    - the log is one stream of records; the rendering of an exception
      inside a record is left symbolic;
    - an external command is answered by the environment as a function of
      the commands run before it; commands do not touch the files of the
      script. *)

From Stdlib Require Import ZArith NArith List String Ascii Bool Lia.
From stdpp Require Import base option list gmap pretty.

(** ** Python strings *)

(** A Python [str] is a sequence of Unicode code points. *)
Abbreviation pychar := N.
Abbreviation pystr := (list N).

(** [py "text"] is the [str] literal with the given (ASCII) spelling. *)
Definition py (s : string) : pystr :=
  map N_of_ascii (list_ascii_of_string s).
Arguments py s%_string : simpl never.

Definition LF : pychar := 10%N.
Definition CR : pychar := 13%N.

(** Membership of a code point in a table of inclusive ranges. *)
Definition in_ranges (t : list (N * N)) (c : pychar) : bool :=
  existsb (fun r => (fst r <=? c)%N && (c <=? snd r)%N) t.

(** Code points of category Nd: [str.isdecimal], and the pattern [\d]. *)
Definition decimal_ranges : list (N * N) :=
  [ (48, 57); (1632, 1641); (1776, 1785); (1984, 1993); (2406, 2415); (2534, 2543);
    (2662, 2671); (2790, 2799); (2918, 2927); (3046, 3055); (3174, 3183); (3302, 3311);
    (3430, 3439); (3558, 3567); (3664, 3673); (3792, 3801); (3872, 3881); (4160, 4169);
    (4240, 4249); (6112, 6121); (6160, 6169); (6470, 6479); (6608, 6617); (6784, 6793);
    (6800, 6809); (6992, 7001); (7088, 7097); (7232, 7241); (7248, 7257); (42528, 42537);
    (43216, 43225); (43264, 43273); (43472, 43481); (43504, 43513); (43600, 43609); (44016, 44025);
    (65296, 65305); (66720, 66729); (68912, 68921); (69734, 69743); (69872, 69881); (69942, 69951);
    (70096, 70105); (70384, 70393); (70736, 70745); (70864, 70873); (71248, 71257); (71360, 71369);
    (71472, 71481); (71904, 71913); (72016, 72025); (72784, 72793); (73040, 73049); (73120, 73129);
    (92768, 92777); (92864, 92873); (93008, 93017); (120782, 120831); (123200, 123209); (123632, 123641);
    (125264, 125273); (130032, 130041) ]%N.
Definition space_ranges : list (N * N) :=
  [ (9, 13); (28, 32); (133, 133); (160, 160); (5760, 5760); (8192, 8202);
    (8232, 8233); (8239, 8239); (8287, 8287); (12288, 12288) ]%N.
Definition alnum_ranges : list (N * N) :=
  [ (48, 57); (65, 90); (97, 122); (170, 170); (178, 179); (181, 181);
    (185, 186); (188, 190); (192, 214); (216, 246); (248, 705); (710, 721);
    (736, 740); (748, 748); (750, 750); (880, 884); (886, 887); (890, 893);
    (895, 895); (902, 902); (904, 906); (908, 908); (910, 929); (931, 1013);
    (1015, 1153); (1162, 1327); (1329, 1366); (1369, 1369); (1376, 1416); (1488, 1514);
    (1519, 1522); (1568, 1610); (1632, 1641); (1646, 1647); (1649, 1747); (1749, 1749);
    (1765, 1766); (1774, 1788); (1791, 1791); (1808, 1808); (1810, 1839); (1869, 1957);
    (1969, 1969); (1984, 2026); (2036, 2037); (2042, 2042); (2048, 2069); (2074, 2074);
    (2084, 2084); (2088, 2088); (2112, 2136); (2144, 2154); (2160, 2183); (2185, 2190);
    (2208, 2249); (2308, 2361); (2365, 2365); (2384, 2384); (2392, 2401); (2406, 2415);
    (2417, 2432); (2437, 2444); (2447, 2448); (2451, 2472); (2474, 2480); (2482, 2482);
    (2486, 2489); (2493, 2493); (2510, 2510); (2524, 2525); (2527, 2529); (2534, 2545);
    (2548, 2553); (2556, 2556); (2565, 2570); (2575, 2576); (2579, 2600); (2602, 2608);
    (2610, 2611); (2613, 2614); (2616, 2617); (2649, 2652); (2654, 2654); (2662, 2671);
    (2674, 2676); (2693, 2701); (2703, 2705); (2707, 2728); (2730, 2736); (2738, 2739);
    (2741, 2745); (2749, 2749); (2768, 2768); (2784, 2785); (2790, 2799); (2809, 2809);
    (2821, 2828); (2831, 2832); (2835, 2856); (2858, 2864); (2866, 2867); (2869, 2873);
    (2877, 2877); (2908, 2909); (2911, 2913); (2918, 2927); (2929, 2935); (2947, 2947);
    (2949, 2954); (2958, 2960); (2962, 2965); (2969, 2970); (2972, 2972); (2974, 2975);
    (2979, 2980); (2984, 2986); (2990, 3001); (3024, 3024); (3046, 3058); (3077, 3084);
    (3086, 3088); (3090, 3112); (3114, 3129); (3133, 3133); (3160, 3162); (3165, 3165);
    (3168, 3169); (3174, 3183); (3192, 3198); (3200, 3200); (3205, 3212); (3214, 3216);
    (3218, 3240); (3242, 3251); (3253, 3257); (3261, 3261); (3293, 3294); (3296, 3297);
    (3302, 3311); (3313, 3314); (3332, 3340); (3342, 3344); (3346, 3386); (3389, 3389);
    (3406, 3406); (3412, 3414); (3416, 3425); (3430, 3448); (3450, 3455); (3461, 3478);
    (3482, 3505); (3507, 3515); (3517, 3517); (3520, 3526); (3558, 3567); (3585, 3632);
    (3634, 3635); (3648, 3654); (3664, 3673); (3713, 3714); (3716, 3716); (3718, 3722);
    (3724, 3747); (3749, 3749); (3751, 3760); (3762, 3763); (3773, 3773); (3776, 3780);
    (3782, 3782); (3792, 3801); (3804, 3807); (3840, 3840); (3872, 3891); (3904, 3911);
    (3913, 3948); (3976, 3980); (4096, 4138); (4159, 4169); (4176, 4181); (4186, 4189);
    (4193, 4193); (4197, 4198); (4206, 4208); (4213, 4225); (4238, 4238); (4240, 4249);
    (4256, 4293); (4295, 4295); (4301, 4301); (4304, 4346); (4348, 4680); (4682, 4685);
    (4688, 4694); (4696, 4696); (4698, 4701); (4704, 4744); (4746, 4749); (4752, 4784);
    (4786, 4789); (4792, 4798); (4800, 4800); (4802, 4805); (4808, 4822); (4824, 4880);
    (4882, 4885); (4888, 4954); (4969, 4988); (4992, 5007); (5024, 5109); (5112, 5117);
    (5121, 5740); (5743, 5759); (5761, 5786); (5792, 5866); (5870, 5880); (5888, 5905);
    (5919, 5937); (5952, 5969); (5984, 5996); (5998, 6000); (6016, 6067); (6103, 6103);
    (6108, 6108); (6112, 6121); (6128, 6137); (6160, 6169); (6176, 6264); (6272, 6276);
    (6279, 6312); (6314, 6314); (6320, 6389); (6400, 6430); (6470, 6509); (6512, 6516);
    (6528, 6571); (6576, 6601); (6608, 6618); (6656, 6678); (6688, 6740); (6784, 6793);
    (6800, 6809); (6823, 6823); (6917, 6963); (6981, 6988); (6992, 7001); (7043, 7072);
    (7086, 7141); (7168, 7203); (7232, 7241); (7245, 7293); (7296, 7304); (7312, 7354);
    (7357, 7359); (7401, 7404); (7406, 7411); (7413, 7414); (7418, 7418); (7424, 7615);
    (7680, 7957); (7960, 7965); (7968, 8005); (8008, 8013); (8016, 8023); (8025, 8025);
    (8027, 8027); (8029, 8029); (8031, 8061); (8064, 8116); (8118, 8124); (8126, 8126);
    (8130, 8132); (8134, 8140); (8144, 8147); (8150, 8155); (8160, 8172); (8178, 8180);
    (8182, 8188); (8304, 8305); (8308, 8313); (8319, 8329); (8336, 8348); (8450, 8450);
    (8455, 8455); (8458, 8467); (8469, 8469); (8473, 8477); (8484, 8484); (8486, 8486);
    (8488, 8488); (8490, 8493); (8495, 8505); (8508, 8511); (8517, 8521); (8526, 8526);
    (8528, 8585); (9312, 9371); (9450, 9471); (10102, 10131); (11264, 11492); (11499, 11502);
    (11506, 11507); (11517, 11517); (11520, 11557); (11559, 11559); (11565, 11565); (11568, 11623);
    (11631, 11631); (11648, 11670); (11680, 11686); (11688, 11694); (11696, 11702); (11704, 11710);
    (11712, 11718); (11720, 11726); (11728, 11734); (11736, 11742); (11823, 11823); (12293, 12295);
    (12321, 12329); (12337, 12341); (12344, 12348); (12353, 12438); (12445, 12447); (12449, 12538);
    (12540, 12543); (12549, 12591); (12593, 12686); (12690, 12693); (12704, 12735); (12784, 12799);
    (12832, 12841); (12872, 12879); (12881, 12895); (12928, 12937); (12977, 12991); (13312, 19903);
    (19968, 42124); (42192, 42237); (42240, 42508); (42512, 42539); (42560, 42606); (42623, 42653);
    (42656, 42735); (42775, 42783); (42786, 42888); (42891, 42954); (42960, 42961); (42963, 42963);
    (42965, 42969); (42994, 43009); (43011, 43013); (43015, 43018); (43020, 43042); (43056, 43061);
    (43072, 43123); (43138, 43187); (43216, 43225); (43250, 43255); (43259, 43259); (43261, 43262);
    (43264, 43301); (43312, 43334); (43360, 43388); (43396, 43442); (43471, 43481); (43488, 43492);
    (43494, 43518); (43520, 43560); (43584, 43586); (43588, 43595); (43600, 43609); (43616, 43638);
    (43642, 43642); (43646, 43695); (43697, 43697); (43701, 43702); (43705, 43709); (43712, 43712);
    (43714, 43714); (43739, 43741); (43744, 43754); (43762, 43764); (43777, 43782); (43785, 43790);
    (43793, 43798); (43808, 43814); (43816, 43822); (43824, 43866); (43868, 43881); (43888, 44002);
    (44016, 44025); (44032, 55203); (55216, 55238); (55243, 55291); (63744, 64109); (64112, 64217);
    (64256, 64262); (64275, 64279); (64285, 64285); (64287, 64296); (64298, 64310); (64312, 64316);
    (64318, 64318); (64320, 64321); (64323, 64324); (64326, 64433); (64467, 64829); (64848, 64911);
    (64914, 64967); (65008, 65019); (65136, 65140); (65142, 65276); (65296, 65305); (65313, 65338);
    (65345, 65370); (65382, 65470); (65474, 65479); (65482, 65487); (65490, 65495); (65498, 65500);
    (65536, 65547); (65549, 65574); (65576, 65594); (65596, 65597); (65599, 65613); (65616, 65629);
    (65664, 65786); (65799, 65843); (65856, 65912); (65930, 65931); (66176, 66204); (66208, 66256);
    (66273, 66299); (66304, 66339); (66349, 66378); (66384, 66421); (66432, 66461); (66464, 66499);
    (66504, 66511); (66513, 66517); (66560, 66717); (66720, 66729); (66736, 66771); (66776, 66811);
    (66816, 66855); (66864, 66915); (66928, 66938); (66940, 66954); (66956, 66962); (66964, 66965);
    (66967, 66977); (66979, 66993); (66995, 67001); (67003, 67004); (67072, 67382); (67392, 67413);
    (67424, 67431); (67456, 67461); (67463, 67504); (67506, 67514); (67584, 67589); (67592, 67592);
    (67594, 67637); (67639, 67640); (67644, 67644); (67647, 67669); (67672, 67702); (67705, 67742);
    (67751, 67759); (67808, 67826); (67828, 67829); (67835, 67867); (67872, 67897); (67968, 68023);
    (68028, 68047); (68050, 68096); (68112, 68115); (68117, 68119); (68121, 68149); (68160, 68168);
    (68192, 68222); (68224, 68255); (68288, 68295); (68297, 68324); (68331, 68335); (68352, 68405);
    (68416, 68437); (68440, 68466); (68472, 68497); (68521, 68527); (68608, 68680); (68736, 68786);
    (68800, 68850); (68858, 68899); (68912, 68921); (69216, 69246); (69248, 69289); (69296, 69297);
    (69376, 69415); (69424, 69445); (69457, 69460); (69488, 69505); (69552, 69579); (69600, 69622);
    (69635, 69687); (69714, 69743); (69745, 69746); (69749, 69749); (69763, 69807); (69840, 69864);
    (69872, 69881); (69891, 69926); (69942, 69951); (69956, 69956); (69959, 69959); (69968, 70002);
    (70006, 70006); (70019, 70066); (70081, 70084); (70096, 70106); (70108, 70108); (70113, 70132);
    (70144, 70161); (70163, 70187); (70272, 70278); (70280, 70280); (70282, 70285); (70287, 70301);
    (70303, 70312); (70320, 70366); (70384, 70393); (70405, 70412); (70415, 70416); (70419, 70440);
    (70442, 70448); (70450, 70451); (70453, 70457); (70461, 70461); (70480, 70480); (70493, 70497);
    (70656, 70708); (70727, 70730); (70736, 70745); (70751, 70753); (70784, 70831); (70852, 70853);
    (70855, 70855); (70864, 70873); (71040, 71086); (71128, 71131); (71168, 71215); (71236, 71236);
    (71248, 71257); (71296, 71338); (71352, 71352); (71360, 71369); (71424, 71450); (71472, 71483);
    (71488, 71494); (71680, 71723); (71840, 71922); (71935, 71942); (71945, 71945); (71948, 71955);
    (71957, 71958); (71960, 71983); (71999, 71999); (72001, 72001); (72016, 72025); (72096, 72103);
    (72106, 72144); (72161, 72161); (72163, 72163); (72192, 72192); (72203, 72242); (72250, 72250);
    (72272, 72272); (72284, 72329); (72349, 72349); (72368, 72440); (72704, 72712); (72714, 72750);
    (72768, 72768); (72784, 72812); (72818, 72847); (72960, 72966); (72968, 72969); (72971, 73008);
    (73030, 73030); (73040, 73049); (73056, 73061); (73063, 73064); (73066, 73097); (73112, 73112);
    (73120, 73129); (73440, 73458); (73648, 73648); (73664, 73684); (73728, 74649); (74752, 74862);
    (74880, 75075); (77712, 77808); (77824, 78894); (82944, 83526); (92160, 92728); (92736, 92766);
    (92768, 92777); (92784, 92862); (92864, 92873); (92880, 92909); (92928, 92975); (92992, 92995);
    (93008, 93017); (93019, 93025); (93027, 93047); (93053, 93071); (93760, 93846); (93952, 94026);
    (94032, 94032); (94099, 94111); (94176, 94177); (94179, 94179); (94208, 100343); (100352, 101589);
    (101632, 101640); (110576, 110579); (110581, 110587); (110589, 110590); (110592, 110882); (110928, 110930);
    (110948, 110951); (110960, 111355); (113664, 113770); (113776, 113788); (113792, 113800); (113808, 113817);
    (119520, 119539); (119648, 119672); (119808, 119892); (119894, 119964); (119966, 119967); (119970, 119970);
    (119973, 119974); (119977, 119980); (119982, 119993); (119995, 119995); (119997, 120003); (120005, 120069);
    (120071, 120074); (120077, 120084); (120086, 120092); (120094, 120121); (120123, 120126); (120128, 120132);
    (120134, 120134); (120138, 120144); (120146, 120485); (120488, 120512); (120514, 120538); (120540, 120570);
    (120572, 120596); (120598, 120628); (120630, 120654); (120656, 120686); (120688, 120712); (120714, 120744);
    (120746, 120770); (120772, 120779); (120782, 120831); (122624, 122654); (123136, 123180); (123191, 123197);
    (123200, 123209); (123214, 123214); (123536, 123565); (123584, 123627); (123632, 123641); (124896, 124902);
    (124904, 124907); (124909, 124910); (124912, 124926); (124928, 125124); (125127, 125135); (125184, 125251);
    (125259, 125259); (125264, 125273); (126065, 126123); (126125, 126127); (126129, 126132); (126209, 126253);
    (126255, 126269); (126464, 126467); (126469, 126495); (126497, 126498); (126500, 126500); (126503, 126503);
    (126505, 126514); (126516, 126519); (126521, 126521); (126523, 126523); (126530, 126530); (126535, 126535);
    (126537, 126537); (126539, 126539); (126541, 126543); (126545, 126546); (126548, 126548); (126551, 126551);
    (126553, 126553); (126555, 126555); (126557, 126557); (126559, 126559); (126561, 126562); (126564, 126564);
    (126567, 126570); (126572, 126578); (126580, 126583); (126585, 126588); (126590, 126590); (126592, 126601);
    (126603, 126619); (126625, 126627); (126629, 126633); (126635, 126651); (127232, 127244); (130032, 130041);
    (131072, 173791); (173824, 177976); (177984, 178205); (178208, 183969); (183984, 191456); (194560, 195101);
    (196608, 201546) ]%N.

Definition is_decimal (c : pychar) : bool := in_ranges decimal_ranges c.

(** Every run of decimal digits starts at a zero and counts upwards, so the
    digit value is the offset in its range modulo ten. *)
Definition decimal_value (c : pychar) : option N :=
  match find (fun r => (fst r <=? c)%N && (c <=? snd r)%N) decimal_ranges with
  | Some r => Some ((c - fst r) mod 10)%N
  | None => None
  end.

Definition is_space (c : pychar) : bool := in_ranges space_ranges c.

(** [\w] in a [str] pattern: alphanumeric code points and the underscore. *)
Definition is_word (c : pychar) : bool :=
  in_ranges alnum_ranges c || (c =? 95)%N.

Definition str_eqb (a b : pystr) : bool := bool_decide (a = b).

(** [s.startswith(p)] *)
Fixpoint startswith (s p : pystr) : bool :=
  match p, s with
  | [], _ => true
  | x :: p', y :: s' => (x =? y)%N && startswith s' p'
  | _ :: _, [] => false
  end.

(** [p in s] for strings: [p] occurs as a contiguous run in [s]. *)
Fixpoint contains (s p : pystr) : bool :=
  startswith s p ||
  match s with
  | [] => false
  | _ :: s' => contains s' p
  end.

Fixpoint lstrip (s : pystr) : pystr :=
  match s with
  | c :: s' => if is_space c then lstrip s' else s
  | [] => []
  end.

Definition rstrip (s : pystr) : pystr := rev (lstrip (rev s)).

(** [s.strip()] *)
Definition strip (s : pystr) : pystr := rstrip (lstrip s).

(** [s.replace(a, b)] for single characters [a] and [b]. *)
Definition replace_char (a b : pychar) (s : pystr) : pystr :=
  map (fun c => if (c =? a)%N then b else c) s.

(** Line boundaries recognised by [str.splitlines]. *)
Definition is_linebreak (c : pychar) : bool :=
  existsb (N.eqb c) [10; 11; 12; 13; 28; 29; 30; 133; 8232; 8233]%N.

(** [s.splitlines()]: CR LF counts as one boundary, and a final boundary
    does not open an empty last line. *)
Fixpoint splitlines_aux (cur : pystr) (s : pystr) : list pystr :=
  match s with
  | [] => match cur with [] => [] | _ => [rev cur] end
  | c :: s' =>
      if is_linebreak c then
        match s' with
        | d :: s'' =>
            if (c =? CR)%N && (d =? LF)%N
            then rev cur :: splitlines_aux [] s''
            else rev cur :: splitlines_aux [] s'
        | [] => [rev cur]
        end
      else splitlines_aux (c :: cur) s'
  end.

Definition splitlines (s : pystr) : list pystr := splitlines_aux [] s.

(** [s.lower() == 'y']: besides [y] itself, LATIN CAPITAL LETTER Y is the
    only character whose lowercase form is U+0079. *)
Definition lower_is_y (s : pystr) : bool :=
  match s with
  | [c] => (c =? 121)%N || (c =? 89)%N
  | _ => false
  end.

(** ** [int(s)] on a string

    CPython first maps every non-ASCII white space to a blank and every
    non-ASCII decimal digit to its ASCII digit; any other non-ASCII
    character, and DEL, makes the literal invalid.  The ASCII text must then
    be: white space, an optional sign, digits with single underscores
    between them, white space.  More than [int_max_str_digits] digits are
    refused. *)

Definition int_max_str_digits : nat := 4300.

Definition to_ascii_digit_or_space (c : pychar) : option pychar :=
  if (c <? 127)%N then Some c
  else if is_space c then Some 32%N
  else match decimal_value c with
       | Some d => Some (48 + d)%N
       | None => None
       end.

Definition is_ascii_space (c : pychar) : bool :=
  existsb (N.eqb c) [9; 10; 11; 12; 13; 32]%N.

Definition is_ascii_digit (c : pychar) : bool :=
  (48 <=? c)%N && (c <=? 57)%N.

Fixpoint skip_ascii_space (s : pystr) : pystr :=
  match s with
  | c :: s' => if is_ascii_space c then skip_ascii_space s' else s
  | [] => []
  end.

(** Scans digits and underscores.  [prev_us] tells whether the previous
    character was an underscore (or the scan has not started, where an
    underscore is refused as well).  Returns the value, the number of digits
    and the unread rest. *)
Fixpoint scan_digits (acc : Z) (n : nat) (prev_us : bool) (s : pystr)
  : option (Z * nat * pystr) :=
  match s with
  | c :: s' =>
      if is_ascii_digit c then
        scan_digits (10 * acc + Z.of_N (c - 48)) (S n) false s'
      else if (c =? 95)%N then
        if prev_us then None else scan_digits acc n true s'
      else if prev_us then None else Some (acc, n, s)
  | [] => if prev_us then None else Some (acc, n, [])
  end.

Definition parse_ascii_int (s : pystr) : option Z :=
  let s1 := skip_ascii_space s in
  let '(sign, s2) :=
    match s1 with
    | 43%N :: t => (1%Z, t)
    | 45%N :: t => ((-1)%Z, t)
    | _ => (1%Z, s1)
    end in
  match scan_digits 0 0 true s2 with
  | Some (v, n, rest) =>
      if (n <=? int_max_str_digits) then
        match skip_ascii_space rest with
        | [] => Some (sign * v)%Z
        | _ :: _ => None
        end
      else None
  | None => None
  end.

Fixpoint transform_decimal_and_space (s : pystr) : option pystr :=
  match s with
  | [] => Some []
  | c :: s' =>
      match to_ascii_digit_or_space c with
      | Some a =>
          match transform_decimal_and_space s' with
          | Some t => Some (a :: t)
          | None => None
          end
      | None => None
      end
  end.

(** [int(s)]: [None] stands for [ValueError]. *)
Definition py_int (s : pystr) : option Z :=
  match transform_decimal_and_space s with
  | Some a => parse_ascii_int a
  | None => None
  end.

(** [l[i]] on a list: a negative index counts from the end; [None] stands
    for [IndexError]. *)
Definition py_index {A} (l : list A) (i : Z) : option A :=
  if (0 <=? i)%Z then
    if (i <? Z.of_nat (length l))%Z then nth_error l (Z.to_nat i) else None
  else
    if (- Z.of_nat (length l) <=? i)%Z
    then nth_error l (Z.to_nat (Z.of_nat (length l) + i))
    else None.

(** ** The [re] patterns of the script

    The patterns use literals, character sets, [\d], [\w], [.], [^], [$],
    concatenation, counted repetition [{n}], a greedy [+] on a single
    character and at most one capturing group.  The matcher is the usual
    backtracking one, written with a success continuation, and prefers the
    alternatives in the order [re] tries them. *)

Inductive set_item :=
| Digit                          (* \d *)
| Range (lo hi : pychar)         (* a-f *)
| Single (c : pychar).           (* : or - *)

Inductive atom :=
| Lit (c : pychar)               (* one literal character *)
| Set_of (items : list set_item) (* [...] *)
| Word_char                      (* \w *)
| Any.                           (* . : anything but a newline *)

Inductive regex :=
| Eps
| One (a : atom)
| Many1 (a : atom)               (* a+, greedy *)
| Bol                            (* ^ *)
| Eol                            (* $ *)
| Cat (r1 r2 : regex)
| Rep (n : nat) (r : regex)      (* r{n} *)
| Grp (r : regex).               (* (r), group 1 *)

Definition item_ok (i : set_item) (c : pychar) : bool :=
  match i with
  | Digit => is_decimal c
  | Range lo hi => (lo <=? c)%N && (c <=? hi)%N
  | Single d => (c =? d)%N
  end.

Definition atom_ok (a : atom) (c : pychar) : bool :=
  match a with
  | Lit d => (c =? d)%N
  | Set_of items => existsb (fun i => item_ok i c) items
  | Word_char => is_word c
  | Any => negb (c =? LF)%N
  end.

(** A position in the subject: the character before it (if any), the text
    still to be read, how many characters were read since the match began,
    and the text of group 1 when it has been closed. *)
Record mstate := MState {
  prev : option pychar;
  rest : pystr;
  consumed : nat;
  group1 : option pystr
}.

Definition at_bol (multiline : bool) (st : mstate) : bool :=
  match prev st with
  | None => true
  | Some c => multiline && (c =? LF)%N
  end.

(** [$] holds at the end, before a newline that ends the subject, and with
    [re.MULTILINE] before every newline. *)
Definition at_eol (multiline : bool) (st : mstate) : bool :=
  match rest st with
  | [] => true
  | c :: t => (c =? LF)%N && (multiline || match t with [] => true | _ => false end)
  end.

Definition advance (c : pychar) (t : pystr) (st : mstate) : mstate :=
  MState (Some c) t (S (consumed st)) (group1 st).

Fixpoint many (a : atom) (s : pystr) (st : mstate)
  (k : mstate -> option mstate) : option mstate :=
  match s with
  | c :: t =>
      if atom_ok a c then
        match many a t (advance c t st) k with
        | Some r => Some r
        | None => k st
        end
      else k st
  | [] => k st
  end.

Fixpoint rmatch (multiline : bool) (r : regex) (st : mstate)
  (k : mstate -> option mstate) {struct r} : option mstate :=
  match r with
  | Eps => k st
  | One a =>
      match rest st with
      | c :: t => if atom_ok a c then k (advance c t st) else None
      | [] => None
      end
  | Many1 a =>
      match rest st with
      | c :: t =>
          if atom_ok a c
          then many a t (advance c t st) k
          else None
      | [] => None
      end
  | Bol => if at_bol multiline st then k st else None
  | Eol => if at_eol multiline st then k st else None
  | Cat r1 r2 =>
      rmatch multiline r1 st (fun st' => rmatch multiline r2 st' k)
  | Rep n r' =>
      (fix rep (n : nat) (st : mstate) (k : mstate -> option mstate) :=
         match n with
         | O => k st
         | S m => rmatch multiline r' st (fun st' => rep m st' k)
         end) n st k
  | Grp r' =>
      rmatch multiline r' st (fun st' =>
        k (MState (prev st') (rest st') (consumed st')
             (Some (take (consumed st' - consumed st) (rest st)))))
  end.

(** The literal text [s] as a pattern. *)
Definition lits (s : pystr) : regex :=
  foldr (fun c r => Cat (One (Lit c)) r) Eps s.

Definition start_at (p : option pychar) (s : pystr) : mstate :=
  MState p s 0 None.

(** [re.match(pattern, s)] *)
Definition re_match (multiline : bool) (r : regex) (s : pystr) : option mstate :=
  rmatch multiline r (start_at None s) Some.

(** [re.search(pattern, s)]: the leftmost position where the pattern
    matches. *)
Fixpoint search_from (multiline : bool) (r : regex) (p : option pychar)
  (s : pystr) : option mstate :=
  match rmatch multiline r (start_at p s) Some with
  | Some st => Some st
  | None =>
      match s with
      | c :: t => search_from multiline r (Some c) t
      | [] => None
      end
  end.

Definition re_search (multiline : bool) (r : regex) (s : pystr) : option mstate :=
  search_from multiline r None s.

(** What [re.findall] lists for a match: group 1 if the pattern has one,
    else the matched text. *)
Definition found_text (s : pystr) (st : mstate) : pystr :=
  match group1 st with
  | Some g => g
  | None => take (consumed st) s
  end.

(** [re.findall(pattern, s)] for patterns that match no empty text: the
    matches from left to right, each search resuming where the previous
    match ended.  [skip] counts the characters of the last match still to
    be passed over. *)
Fixpoint findall_from (multiline : bool) (r : regex) (p : option pychar)
  (skip : nat) (s : pystr) : list pystr :=
  match skip with
  | S n =>
      match s with
      | c :: t => findall_from multiline r (Some c) n t
      | [] => []
      end
  | O =>
      match rmatch multiline r (start_at p s) Some with
      | Some st =>
          found_text s st ::
          match s with
          | c :: t => findall_from multiline r (Some c) (consumed st - 1) t
          | [] => []
          end
      | None =>
          match s with
          | c :: t => findall_from multiline r (Some c) 0 t
          | [] => []
          end
      end
  end.

Definition re_findall (multiline : bool) (r : regex) (s : pystr) : list pystr :=
  findall_from multiline r None 0 s.

(** [[\da-fA-F]] with optional further single characters. *)
Definition hex_set (extra : list pychar) : atom :=
  Set_of ([Digit; Range 97 102; Range 65 70] ++ map Single extra)%N.

(** [^([\da-fA-F]{2}:){5}[\da-fA-F]{2}$] *)
Definition mac_pattern : regex :=
  Cat Bol
    (Cat (Rep 5 (Grp (Cat (Rep 2 (One (hex_set []))) (One (Lit 58%N)))))
       (Cat (Rep 2 (One (hex_set []))) Eol)).

(** [ether ([\da-fA-F:]{17})] *)
Definition ether_pattern : regex :=
  Cat (lits (py "ether ")) (Grp (Rep 17 (One (hex_set [58%N])))).

(** [([\da-fA-F-]{17})] *)
Definition getmac_pattern : regex :=
  Grp (Rep 17 (One (hex_set [45%N]))).

(** [^\w+] *)
Definition unix_iface_pattern : regex :=
  Cat Bol (Many1 Word_char).

(** [^Ethernet adapter (.+):] *)
Definition windows_iface_pattern : regex :=
  Cat Bol (Cat (lits (py "Ethernet adapter ")) (Cat (Grp (Many1 Any)) (One (Lit 58%N)))).

(** ** [validate_mac] *)

Definition validate_mac (mac : pystr) : bool :=
  match re_match false mac_pattern mac with
  | Some _ => true
  | None => false
  end.

(** ** The environment *)

(** A command line, as passed to [subprocess]. *)
Abbreviation argv := (list (list N)).

(** The exceptions the script can meet; all derive from [Exception]. *)
Inductive exn :=
| CalledProcessError (cmd : argv) (returncode : Z)
| LaunchError                     (* OSError raised when spawning *)
| FileNotFoundError (path : pystr)
| PermissionError (path : pystr)
| OSError (errno : Z) (path : pystr)   (* or its subclass for [errno] *)
| UnicodeDecodeError
| UnicodeEncodeError
| ValueError
| IndexError
| EOFError.

(** The captured standard output of a command, seen through [.decode()]. *)
Inductive captured :=
| Decodes (text : pystr)
| Undecodable.

Inductive proc_result :=
| Launch_failed
| Exited (returncode : Z) (out : captured).

(** The state of a path.  With no entry nothing is there, and a file can
    be created.  Otherwise the path holds a file with its text, a file
    closed to this user, or a file whose bytes are not text in the locale's
    codec; or the path cannot be used at all: a directory on the way to it
    is missing, or the system refuses it for another reason (a name that is
    too long, a directory in its place, ...) with the given error number. *)
Inductive fnode :=
| Text (s : pystr)
| Locked
| Garbled
| Unreachable
| Refused (errno : Z).

Inductive level := INFO | ERROR.

(** A log record.  [With_exn prefix e] is the record of
    [f"<prefix>{e}"]; the rendering of the exception is left symbolic. *)
Inductive log_message :=
| Plain (s : pystr)
| With_exn (prefix : pystr) (e : exn).

(** [exec] answers a command given the commands run before it; [history]
    lists the commands run so far, oldest first.  [codec] is the table of
    the characters beyond ASCII that the locale's codec can encode. *)
Record world := World {
  sys_platform : pystr;
  geteuid : Z;
  exec : list argv -> argv -> proc_result;
  history : list argv;
  fs : gmap (list N) fnode;
  codec : list (N * N);
  log : list (level * log_message);
  stdin : list pystr;
  stdout : list pystr
}.

Definition set_history (h : list argv) (w : world) : world :=
  World (sys_platform w) (geteuid w) (exec w) h (fs w) (codec w) (log w) (stdin w) (stdout w).
Definition set_fs (m : gmap (list N) fnode) (w : world) : world :=
  World (sys_platform w) (geteuid w) (exec w) (history w) m (codec w) (log w) (stdin w) (stdout w).
Definition set_log (l : list (level * log_message)) (w : world) : world :=
  World (sys_platform w) (geteuid w) (exec w) (history w) (fs w) (codec w) l (stdin w) (stdout w).
Definition set_stdin (l : list pystr) (w : world) : world :=
  World (sys_platform w) (geteuid w) (exec w) (history w) (fs w) (codec w) (log w) l (stdout w).
Definition set_stdout (l : list pystr) (w : world) : world :=
  World (sys_platform w) (geteuid w) (exec w) (history w) (fs w) (codec w) (log w) (stdin w) l.

(** ** The monad of the script

    A computation ends by returning, by raising an exception, or by
    [sys.exit].  [SystemExit] is not an [Exception]: [except Exception]
    lets it through. *)

Inductive outcome (A : Type) :=
| Ret (a : A)
| Raise (e : exn)
| Exit (code : Z).
Arguments Ret {A} a.
Arguments Raise {A} e.
Arguments Exit {A} code.

Definition M (A : Type) : Type := world -> outcome A * world.

Definition ret {A} (a : A) : M A := fun w => (Ret a, w).

Definition bind {A B} (m : M A) (f : A -> M B) : M B :=
  fun w =>
    match m w with
    | (Ret a, w') => f a w'
    | (Raise e, w') => (Raise e, w')
    | (Exit c, w') => (Exit c, w')
    end.

Declare Scope py_scope.
Delimit Scope py_scope with py.
Bind Scope py_scope with M.
Notation "x <- m ;; k" := (bind m (fun x => k))
  (at level 100, m at next level, right associativity) : py_scope.
Notation "m ;; k" := (bind m (fun _ => k))
  (at level 100, right associativity) : py_scope.
Open Scope py_scope.

Definition raise {A} (e : exn) : M A := fun w => (Raise e, w).

(** [sys.exit(code)] *)
Definition sys_exit {A} (code : Z) : M A := fun w => (Exit code, w).

(** [try: body except Exception as e: handler(e)] *)
Definition try_except {A} (body : M A) (handler : exn -> M A) : M A :=
  fun w =>
    match body w with
    | (Raise e, w') => handler e w'
    | r => r
    end.

Definition get_platform : M pystr := fun w => (Ret (sys_platform w), w).
Definition os_geteuid : M Z := fun w => (Ret (geteuid w), w).

Definition logging_info (m : log_message) : M unit :=
  fun w => (Ret tt, set_log (log w ++ [(INFO, m)]) w).
Definition logging_error (m : log_message) : M unit :=
  fun w => (Ret tt, set_log (log w ++ [(ERROR, m)]) w).

(** [print(s)] *)
Definition print (s : pystr) : M unit :=
  fun w => (Ret tt, set_stdout (stdout w ++ [s]) w).

(** [input(prompt)]: shows the prompt and reads a line; end of input
    raises [EOFError]. *)
Definition input (prompt : pystr) : M pystr :=
  fun w =>
    let w1 := set_stdout (stdout w ++ [prompt]) w in
    match stdin w1 with
    | l :: ls => (Ret l, set_stdin ls w1)
    | [] => (Raise EOFError, w1)
    end.

(** Runs a command: the environment answers, and the command joins the
    history. *)
Definition spawn (cmd : argv) : M proc_result :=
  fun w => (Ret (exec w (history w) cmd), set_history (history w ++ [cmd]) w).

(** The exception [check=True] raises for the answer to a command:
    the launch failed, or the exit status is not zero. *)
Definition run_error (cmd : argv) (r : proc_result) : option exn :=
  match r with
  | Launch_failed => Some LaunchError
  | Exited c _ => if (c =? 0)%Z then None else Some (CalledProcessError cmd c)
  end.

(** [subprocess.run(cmd, check=True)] *)
Definition subprocess_run_check (cmd : argv) : M unit :=
  r <- spawn cmd ;;
  match run_error cmd r with
  | Some e => raise e
  | None => ret tt
  end.

(** [subprocess.check_output(cmd)] *)
Definition check_output (cmd : argv) : M captured :=
  r <- spawn cmd ;;
  match r with
  | Launch_failed => raise LaunchError
  | Exited c out => if (c =? 0)%Z then ret out else raise (CalledProcessError cmd c)
  end.

(** [bytes.decode()] *)
Definition decode (out : captured) : M pystr :=
  match out with
  | Decodes s => ret s
  | Undecodable => raise UnicodeDecodeError
  end.

(** [with open(path, 'r') as f: f.read()] *)
Definition read_file (path : pystr) : M pystr :=
  fun w =>
    match fs w !! path with
    | Some (Text s) => (Ret s, w)
    | Some Locked => (Raise (PermissionError path), w)
    | Some Garbled => (Raise UnicodeDecodeError, w)
    | Some Unreachable => (Raise (FileNotFoundError path), w)
    | Some (Refused errno) => (Raise (OSError errno path), w)
    | None => (Raise (FileNotFoundError path), w)
    end.

(** What [open(path, 'w')] raises, by the state of the path; [None] when
    the path opens. *)
Definition open_refusal (path : pystr) (node : option fnode) : option exn :=
  match node with
  | Some Locked => Some (PermissionError path)
  | Some Unreachable => Some (FileNotFoundError path)
  | Some (Refused errno) => Some (OSError errno path)
  | Some (Text _) | Some Garbled | None => None
  end.

(** [open(path, 'w')]: the file is created, or truncated if it exists. *)
Definition open_w (path : pystr) : M unit :=
  fun w =>
    match open_refusal path (fs w !! path) with
    | Some e => (Raise e, w)
    | None => (Ret tt, set_fs (<[path := Text []]> (fs w)) w)
    end.

(** The text the locale's codec can encode. *)
Definition encodable (w : world) (s : pystr) : bool :=
  forallb (fun c => (c <? 128)%N || in_ranges (codec w) c) s.

(** [f.write(s)] on the file just opened at [path]: the text is encoded as
    a whole, so a character the codec lacks leaves the file empty. *)
Definition file_write (path : pystr) (s : pystr) : M unit :=
  fun w =>
    if encodable w s then (Ret tt, set_fs (<[path := Text s]> (fs w)) w)
    else (Raise UnicodeEncodeError, w).

(** [with open(path, 'w') as f: f.write(s)] *)
Definition write_file (path : pystr) (s : pystr) : M unit :=
  open_w path ;; file_write path s.

(** ** The script *)

Definition get_os : M pystr :=
  p <- get_platform ;;
  if startswith p (py "linux") then ret (py "linux")
  else if startswith p (py "darwin") then ret (py "macos")
  else if startswith p (py "win") then ret (py "windows")
  else (logging_error (Plain (py "Unsupported operating system.")) ;;
        sys_exit 1).

Definition get_interfaces : M (list pystr) :=
  os_type <- get_os ;;
  interfaces <-
    (if str_eqb os_type (py "linux") || str_eqb os_type (py "macos") then
       try_except
         (out <- check_output [py "ifconfig"] ;;
          output <- decode out ;;
          ret (re_findall true unix_iface_pattern output))
         (fun e =>
            logging_error (With_exn (py "Error detecting interfaces: ") e) ;;
            sys_exit 1)
     else if str_eqb os_type (py "windows") then
       try_except
         (out <- check_output [py "ipconfig"] ;;
          output <- decode out ;;
          ret (re_findall true windows_iface_pattern output))
         (fun e =>
            logging_error (With_exn (py "Error detecting interfaces: ") e) ;;
            sys_exit 1)
     else ret []) ;;
  match interfaces with
  | [] =>
      logging_error (Plain (py "No network interfaces found.")) ;;
      sys_exit 1
  | _ :: _ => ret interfaces
  end.

(** The loop of [get_current_mac] over the lines of [getmac]: the first
    line that mentions the interface and holds a 17-character token. *)
Fixpoint getmac_lines (interface : pystr) (lines : list pystr) : option pystr :=
  match lines with
  | [] => None
  | line :: more =>
      if contains line interface then
        match re_search false getmac_pattern line with
        | Some st => replace_char 45 58 <$> group1 st
        | None => getmac_lines interface more
        end
      else getmac_lines interface more
  end.

Definition get_current_mac (interface : pystr) : M (option pystr) :=
  os_type <- get_os ;;
  try_except
    (if str_eqb os_type (py "linux") || str_eqb os_type (py "macos") then
       out <- check_output [py "ifconfig"; interface] ;;
       output <- decode out ;;
       match re_search false ether_pattern output with
       | Some st => ret (group1 st)
       | None => ret None
       end
     else if str_eqb os_type (py "windows") then
       out <- check_output [py "getmac"; py "/FO"; py "CSV"; py "/V"] ;;
       output <- decode out ;;
       ret (getmac_lines interface (splitlines output))
     else ret None)
    (fun e =>
       logging_error (With_exn (py "Error getting MAC address: ") e) ;;
       ret None).

Definition change_mac (interface new_mac : pystr) : M unit :=
  os_type <- get_os ;;
  try_except
    ((if str_eqb os_type (py "linux") then
        subprocess_run_check [py "sudo"; py "ifconfig"; interface; py "down"] ;;
        subprocess_run_check
          [py "sudo"; py "ifconfig"; interface; py "hw"; py "ether"; new_mac] ;;
        subprocess_run_check [py "sudo"; py "ifconfig"; interface; py "up"]
      else if str_eqb os_type (py "macos") then
        subprocess_run_check [py "sudo"; py "ifconfig"; interface; py "ether"; new_mac]
      else if str_eqb os_type (py "windows") then
        subprocess_run_check
          [py "netsh"; py "interface"; py "set"; py "interface"; interface;
           py "newmac=" ++ new_mac]
      else ret tt) ;;
     logging_info
       (Plain (py "MAC address changed to " ++ new_mac ++ py " on " ++ interface ++ py ".")))
    (fun e =>
       logging_error (With_exn (py "Error changing MAC address: ") e) ;;
       sys_exit 1).

(** [if current_mac:] holds for a string that is not empty. *)
Definition truthy (o : option pystr) : bool :=
  match o with
  | Some (_ :: _) => true
  | _ => false
  end.

Definition backup_mac (interface backup_file : pystr) : M unit :=
  current_mac <- get_current_mac interface ;;
  if truthy current_mac then
    write_file backup_file (default [] current_mac) ;;
    logging_info
      (Plain (py "Backed up MAC address " ++ default [] current_mac ++ py " to "
              ++ backup_file ++ py "."))
  else logging_error (Plain (py "Failed to backup MAC address.")).

Definition restore_mac (interface backup_file : pystr) : M unit :=
  try_except
    (content <- read_file backup_file ;;
     let original_mac := strip content in
     if validate_mac original_mac then
       change_mac interface original_mac ;;
       logging_info
         (Plain (py "Restored MAC address to " ++ original_mac ++ py " on "
                 ++ interface ++ py "."))
     else logging_error (Plain (py "Invalid MAC address in backup file.")))
    (fun e => logging_error (With_exn (py "Error restoring MAC address: ") e)).

Definition check_permissions : M unit :=
  p <- get_platform ;;
  if startswith p (py "linux") || startswith p (py "darwin") then
    uid <- os_geteuid ;;
    if (uid =? 0)%Z then ret tt
    else (logging_error
            (Plain (py "This script requires root privileges. Please run with sudo.")) ;;
          sys_exit 1)
  else if startswith p (py "win") then
    try_except
      (check_output [py "whoami"; py "/priv"] ;; ret tt)
      (fun _ =>
         logging_error (Plain (py "This script requires administrator privileges.")) ;;
         sys_exit 1)
  else ret tt.

(** [for i, iface in enumerate(interfaces): print(f"{i + 1}. {iface}")] *)
Fixpoint print_menu (i : nat) (interfaces : list pystr) : M unit :=
  match interfaces with
  | [] => ret tt
  | iface :: more =>
      print (py (pretty (i + 1)) ++ py ". " ++ iface) ;;
      print_menu (S i) more
  end.

(** The [while True] loop that asks for the new address.  Every round reads
    one line, so the number of lines waiting on standard input bounds the
    number of rounds; the round after the last line ends in [EOFError]. *)
Fixpoint ask_new_mac (rounds : nat) : M pystr :=
  line <- input (py "Enter the new MAC address (format: XX:XX:XX:XX:XX:XX): ") ;;
  let new_mac := strip line in
  if validate_mac new_mac then ret new_mac
  else
    print (py "Invalid MAC address format. Please try again.") ;;
    match rounds with
    | S n => ask_new_mac n
    | O => raise EOFError
    end.

Definition prompt_new_mac : M pystr :=
  fun w => ask_new_mac (length (stdin w)) w.

Definition main : M unit :=
  check_permissions ;;
  interfaces <- get_interfaces ;;
  print (py "Available network interfaces:") ;;
  print_menu 0 interfaces ;;
  line <- input (py "Select the interface to modify (1, 2, ...): ") ;;
  number <- match py_int line with
            | Some n => ret n
            | None => raise ValueError
            end ;;
  let choice := (number - 1)%Z in
  interface <- match py_index interfaces choice with
               | Some i => ret i
               | None => raise IndexError
               end ;;
  let backup_file := interface ++ py "_mac_backup.txt" in
  backup_mac interface backup_file ;;
  new_mac <- prompt_new_mac ;;
  change_mac interface new_mac ;;
  current_mac <- get_current_mac interface ;;
  (if bool_decide (current_mac = Some new_mac)
   then print (py "Success! MAC address changed to " ++ default [] current_mac ++ py ".")
   else ret tt) ;;
  answer <- input (py "Do you want to restore the original MAC address? (y/n): ") ;;
  if lower_is_y answer then restore_mac interface backup_file else ret tt.

(** ** The address form of the specification *)

Definition is_ascii_hex (c : pychar) : bool :=
  is_ascii_digit c || ((97 <=? c)%N && (c <=? 102)%N) || ((65 <=? c)%N && (c <=? 70)%N).

(** Six groups of two characters accepted by [h], separated by colons. *)
Definition six_groups (h : pychar -> bool) (s : pystr) : bool :=
  match s with
  | [a1; a2; s1; b1; b2; s2; c1; c2; s3; d1; d2; s4; e1; e2; s5; f1; f2] =>
      h a1 && h a2 && (s1 =? 58)%N && h b1 && h b2 && (s2 =? 58)%N &&
      h c1 && h c2 && (s3 =? 58)%N && h d1 && h d2 && (s4 =? 58)%N &&
      h e1 && h e2 && (s5 =? 58)%N && h f1 && h f2
  | _ => false
  end.

(** The canonical form [XX:XX:XX:XX:XX:XX] with hexadecimal digits
    [0-9a-fA-F], as the specification words it. *)
Definition canonical_mac (s : pystr) : bool := six_groups is_ascii_hex s.

(** What [[\da-fA-F]] accepts: the hexadecimal letters and every decimal
    digit of Unicode. *)
Definition is_hex_or_decimal (c : pychar) : bool := atom_ok (hex_set []) c.

(** The strings [validate_mac] accepts: six groups over [[\da-fA-F]],
    optionally followed by one newline. *)
Definition accepted_by_pattern (s : pystr) : bool :=
  six_groups is_hex_or_decimal s ||
  match drop 17 s with
  | [c] => (c =? LF)%N && six_groups is_hex_or_decimal (take 17 s)
  | _ => false
  end.

(** A character of a token the MAC Reader extracts on Unix. *)
Definition is_reader_char (c : pychar) : bool := atom_ok (hex_set [58%N]) c.

(** A selection offered by the menu of [n] entries. *)
Definition on_menu (n : nat) (k : Z) : Prop := (1 <= k <= Z.of_nat n)%Z.

(** ** Vocabulary of the statements *)

(** The three commands of the Linux mutator. *)
Definition cmd_down (interface : pystr) : argv :=
  [py "sudo"; py "ifconfig"; interface; py "down"].
Definition cmd_set (interface new_mac : pystr) : argv :=
  [py "sudo"; py "ifconfig"; interface; py "hw"; py "ether"; new_mac].
Definition cmd_up (interface : pystr) : argv :=
  [py "sudo"; py "ifconfig"; interface; py "up"].

(** How [change_mac] ends after a failed command: the commands run so far
    are in the history, one error record is logged, the exit status is 1. *)
Definition mutation_failed (w : world) (ran : list argv) (e : exn)
  : outcome unit * world :=
  (Exit 1,
   set_log (log w ++ [(ERROR, With_exn (py "Error changing MAC address: ") e)])
     (set_history (history w ++ ran) w)).

(** The backup file opens for writing. *)
Definition writable (w : world) (path : pystr) : Prop :=
  open_refusal path (fs w !! path) = None.

(** The world after one more log record. *)
Definition logged (l : level) (m : log_message) (w : world) : world :=
  set_log (log w ++ [(l, m)]) w.

(** A computation leaves a component of the world as it found it. *)
Definition preserves {A X} (proj : world -> X) (m : M A) : Prop :=
  forall w, proj (snd (m w)) = proj w.

(** A computation never ends in [sys.exit]. *)
Definition never_exits {A} (m : M A) : Prop :=
  forall w c, fst (m w) <> Exit c.

(** A computation lets no exception escape. *)
Definition never_raises {A} (m : M A) : Prop :=
  forall w e, fst (m w) <> Raise e.

(** The world in which the menu has been shown and the selection read. *)
Definition after_menu (interfaces : list pystr) (w : world) : world :=
  snd ((print (py "Available network interfaces:") ;;
        print_menu 0 interfaces ;;
        input (py "Select the interface to modify (1, 2, ...): ")) w).

(** ** Sample hosts and sessions *)

(** What UTF-8 encodes beyond ASCII: every code point but the
    surrogates.  Latin-1 stops at U+00FF. *)
Definition utf8 : list (N * N) := [(128, 55295); (57344, 1114111)]%N.
Definition latin1 : list (N * N) := [(128, 255)]%N.

(** A host whose locale is UTF-8. *)
Definition host (platform : pystr) (uid : Z)
  (answers : list argv -> argv -> proc_result)
  (files : gmap (list N) fnode) (lines : list pystr) : world :=
  World platform uid answers [] files utf8 [] lines [].

Definition ifconfig_text (ether : pystr) : pystr :=
  py "eth0: flags=4163  mtu 1500" ++ [LF] ++
  py "        ether " ++ ether ++ py "  txqueuelen 1000" ++ [LF].

(** Tools that always succeed; [ifconfig] reports one interface with the
    given address text. *)
Definition tools_ok (ether : pystr) (hist : list argv) (cmd : argv) : proc_result :=
  match cmd with
  | c :: _ =>
      if str_eqb c (py "ifconfig") then Exited 0 (Decodes (ifconfig_text ether))
      else Exited 0 (Decodes [])
  | [] => Launch_failed
  end.

(** As [tools_ok], but every [sudo] command exits with status 1. *)
Definition tools_sudo_fails (ether : pystr) (hist : list argv) (cmd : argv) : proc_result :=
  match cmd with
  | c :: _ =>
      if str_eqb c (py "sudo") then Exited 1 (Decodes [])
      else tools_ok ether hist cmd
  | [] => Launch_failed
  end.

(** As [tools_ok], but [ifconfig] prints nothing. *)
Definition tools_silent (hist : list argv) (cmd : argv) : proc_result :=
  Exited 0 (Decodes []).

Definition mac_1 : pystr := py "00:11:22:33:44:55".
Definition mac_2 : pystr := py "DE:AD:BE:EF:00:01".
Definition eth0 : pystr := py "eth0".
Definition eth0_backup : pystr := py "eth0_mac_backup.txt".

(** A Linux session of an ordinary user. *)
Definition session_non_root : world :=
  host (py "linux") 1000 (tools_ok mac_1) ∅ [py "1"].

(** A root session on Linux with no backup file yet. *)
Definition session_fresh : world :=
  host (py "linux") 0 (tools_ok mac_1) ∅ [].

(** A root session on Linux where every [sudo] command fails. *)
Definition session_sudo_fails : world :=
  host (py "linux") 0 (tools_sudo_fails mac_1) ∅ [].

(** As [session_sudo_fails], with a valid backup file in place. *)
Definition session_restore_fails : world :=
  host (py "linux") 0 (tools_sudo_fails mac_1) {[ eth0_backup := Text mac_2 ]} [].

(** A root session whose backup file holds no address. *)
Definition session_bad_backup : world :=
  host (py "linux") 0 (tools_ok mac_1)
    {[ eth0_backup := Text (py "not a mac" ++ [LF]) ]} [].

(** A root session where the user answers the menu with [0]. *)
Definition session_select_zero : world :=
  host (py "linux") 0 (tools_ok mac_1) ∅
    [py "0"; py "AA:BB:CC:11:22:33"; py "n"].


(** A root session where [ifconfig] prints 17 characters of the reader's
    set that are no address. *)
Definition odd_token : pystr := py "0123:4567:89ab:cd".
Definition session_odd_token : world :=
  host (py "linux") 0 (tools_ok odd_token) ∅ [].

(** A root session where [ifconfig] prints nothing. *)
Definition session_silent : world :=
  host (py "linux") 0 tools_silent ∅ [].

(** A root session with an older backup already on disk. *)
Definition session_old_backup : world :=
  host (py "linux") 0 (tools_ok mac_1) {[ eth0_backup := Text mac_2 ]} [].

(** An address followed by a newline, and one whose first group is written
    with ARABIC-INDIC DIGIT ONE (U+0661). *)
Definition mac_with_newline : pystr := py "AA:BB:CC:11:22:33" ++ [LF].
Definition mac_arabic_digits : pystr := [1633; 1633]%N ++ py ":22:33:44:55:66".

(** A root session where the user types [mac_arabic_digits] as the new
    address. *)
Definition session_arabic_digits : world :=
  host (py "linux") 0 (tools_ok mac_1) ∅ [py "1"; mac_arabic_digits; py "n"].

(** ** Vocabulary of the further properties *)

(** A computation lets only exceptions with property [P] escape. *)
Definition raises_only {A} (P : exn -> Prop) (m : M A) : Prop :=
  forall w e, fst (m w) = Raise e -> P e.

(** Whenever a computation ends in [sys.exit], the status is 1 and the
    last record of the log is an error record. *)
Definition exits_after_error {A} (m : M A) : Prop :=
  forall w c, fst (m w) = Exit c ->
    c = 1%Z /\ exists msg, last (log (snd (m w))) = Some (ERROR, msg).

(** The exceptions of a failed external command: the launch failed, or the
    command exited with a status other than zero. *)
Definition command_failure (e : exn) : Prop :=
  e = LaunchError \/ exists cmd returncode, e = CalledProcessError cmd returncode.

(** The exceptions of writing a file: the path did not open, or the text
    could not be encoded. *)
Definition file_error (e : exn) : Prop :=
  (exists path, e = PermissionError path) \/
  (exists path, e = FileNotFoundError path) \/
  (exists errno path, e = OSError errno path) \/
  e = UnicodeEncodeError.

(** The single command of the mutator on macOS and on Windows, and the
    command of the privilege check on Windows. *)
Definition cmd_macos (interface new_mac : pystr) : argv :=
  [py "sudo"; py "ifconfig"; interface; py "ether"; new_mac].
Definition cmd_windows (interface new_mac : pystr) : argv :=
  [py "netsh"; py "interface"; py "set"; py "interface"; interface;
   py "newmac=" ++ new_mac].
Definition cmd_whoami : argv := [py "whoami"; py "/priv"].

(** The platform is none of those the script knows. *)
Definition unsupported (w : world) : Prop :=
  startswith (sys_platform w) (py "linux") = false /\
  startswith (sys_platform w) (py "darwin") = false /\
  startswith (sys_platform w) (py "win") = false.

(** A macOS session and a Windows session of an administrator, and a
    session on a platform the script does not know. *)
Definition session_macos : world :=
  host (py "darwin") 0 (tools_ok mac_1) ∅ [].
Definition session_windows : world :=
  host (py "win32") 0 (tools_ok mac_1) ∅ [].
Definition session_freebsd : world :=
  host (py "freebsd13") 1000 (tools_ok mac_1) ∅ [py "1"].

(** The first character of a text, if there is one, is no word character:
    the text cannot begin an interface name. *)
Definition no_word_start (s : pystr) : Prop :=
  match s with
  | c :: _ => is_word c = false
  | [] => True
  end.

(** A well-formed Unix interface name: a non-empty run of word
    characters. *)
Definition word_name (s : pystr) : Prop :=
  s <> [] /\ forallb is_word s = true.

(** The character before the position reached after reading [x]. *)
Definition prev_after (p : option pychar) (x : pystr) : option pychar :=
  match last x with
  | Some c => Some c
  | None => p
  end.

(** A name the Windows enumerator can return: not empty, on one line. *)
Definition line_name (s : pystr) : Prop := s <> [] /\ LF ∉ s.

(** The state of the matcher after it has read [x]. *)
Definition advance_by (x : pystr) (st : mstate) : mstate :=
  MState (prev_after (prev st) x) (drop (length x) (rest st))
    (consumed st + length x) (group1 st).

(** The continuation of the matcher after the group of
    [^Ethernet adapter (.+):] that was opened in state [st0]: close the
    group, then read the colon. *)
Definition close_group_then_colon (st0 : mstate) (st' : mstate) : option mstate :=
  rmatch true (One (Lit 58%N))
    (MState (prev st') (rest st') (consumed st')
       (Some (take (consumed st' - consumed st0) (rest st0)))) Some.

(** What [subprocess.check_output(cmd).decode()] yields for the
    environment's answer to [cmd]: the text, or the exception raised. *)
Definition output_of (cmd : argv) (r : proc_result) : exn + pystr :=
  match r with
  | Launch_failed => inl LaunchError
  | Exited c out =>
      if (c =? 0)%Z then
        match out with
        | Decodes s => inr s
        | Undecodable => inl UnicodeDecodeError
        end
      else inl (CalledProcessError cmd c)
  end.

(** The commands of the MAC Reader. *)
Definition cmd_ifconfig (interface : pystr) : argv := [py "ifconfig"; interface].
Definition cmd_getmac : argv := [py "getmac"; py "/FO"; py "CSV"; py "/V"].

(** The commands the script runs about one interface: the reader's
    ([getmac] lists every interface) and the mutator's. *)
Definition about (interface : pystr) (cmd : argv) : Prop :=
  cmd = cmd_ifconfig interface \/ cmd = cmd_getmac \/
  cmd = cmd_down interface \/ cmd = cmd_up interface \/
  exists new_mac,
    cmd = cmd_set interface new_mac \/ cmd = cmd_macos interface new_mac \/
    cmd = cmd_windows interface new_mac.

(** A computation runs only commands of a given kind. *)
Definition runs_only {A} (P : argv -> Prop) (m : M A) : Prop :=
  forall w, exists cmds,
    history (snd (m w)) = history w ++ cmds /\ Forall P cmds.

(** A token of the Unix reader: seventeen characters of its set. *)
Definition reader_token (m : pystr) : Prop :=
  length m = 17 /\ forallb is_reader_char m = true.

(** A token of the Windows reader: seventeen characters, each a
    hexadecimal letter, a decimal digit or a dash. *)
Definition getmac_token (t : pystr) : Prop :=
  length t = 17 /\ forallb (atom_ok (hex_set [45%N])) t = true.

(** The two messages of the prompt loop, and what the loop prints for the
    lines it refuses. *)
Definition prompt_text : pystr :=
  py "Enter the new MAC address (format: XX:XX:XX:XX:XX:XX): ".
Definition refusal_text : pystr :=
  py "Invalid MAC address format. Please try again.".
Definition refusals (bad : list pystr) : list pystr :=
  concat (map (fun _ => [prompt_text; refusal_text]) bad).

(** A Windows session: [ipconfig] lists one adapter and [getmac] reports
    its address with dashes. *)
Definition quoted (s : pystr) : pystr := [34%N] ++ s ++ [34%N].
Definition ipconfig_text : pystr :=
  py "Windows IP Configuration" ++ [CR; LF; CR; LF] ++
  py "Ethernet adapter Ethernet 2:" ++ [CR; LF] ++
  py "   Physical Address. . . . . . . . . : 00-11-22-33-44-55" ++ [CR; LF].
Definition getmac_text : pystr :=
  quoted (py "Connection Name") ++ py "," ++ quoted (py "Physical Address")
    ++ [CR; LF] ++
  quoted (py "Ethernet 2") ++ py "," ++ quoted (py "00-11-22-33-44-55")
    ++ [CR; LF].
Definition tools_windows (hist : list argv) (cmd : argv) : proc_result :=
  match cmd with
  | c :: _ =>
      if str_eqb c (py "ipconfig") then Exited 0 (Decodes ipconfig_text)
      else if str_eqb c (py "getmac") then Exited 0 (Decodes getmac_text)
      else Exited 0 (Decodes [])
  | [] => Launch_failed
  end.
Definition ethernet_2 : pystr := py "Ethernet 2".
Definition session_windows_adapter : world :=
  host (py "win32") 0 tools_windows ∅ [].

(** A session in which the user needs three attempts at the prompt, and one
    in which no attempt is valid. *)
Definition session_third_attempt : world :=
  host (py "linux") 0 (tools_ok mac_1) ∅
    [py "AA-BB-CC-11-22-33"; py ""; py "  AA:BB:CC:11:22:33 "; py "n"].
Definition session_no_valid_attempt : world :=
  host (py "linux") 0 (tools_ok mac_1) ∅ [py "AA-BB-CC-11-22-33"; py "y"].

(** A root session on Linux in which [ifconfig] lists the interfaces but
    exits with status 1 when asked about one of them; the user selects the
    first interface and gives no further input. *)
Definition tools_reader_fails (hist : list argv) (cmd : argv) : proc_result :=
  match cmd with
  | [_; _] => Exited 1 (Decodes [])
  | _ => tools_ok mac_1 hist cmd
  end.
Definition session_reader_fails : world :=
  host (py "linux") 0 tools_reader_fails ∅ [py "1"].

(** A root session on Linux with two interfaces: the user selects the
    second, gives a new address and asks for the restore. *)
Definition wlan0 : pystr := py "wlan0".
Definition wlan0_backup : pystr := py "wlan0_mac_backup.txt".
Definition mac_3 : pystr := py "66:77:88:99:AA:BB".
Definition iface_block (name ether : pystr) : pystr :=
  name ++ py ": flags=4163  mtu 1500" ++ [LF] ++
  py "        ether " ++ ether ++ py "  txqueuelen 1000" ++ [LF].
Definition tools_two_interfaces (hist : list argv) (cmd : argv) : proc_result :=
  match cmd with
  | [c] =>
      if str_eqb c (py "ifconfig")
      then Exited 0 (Decodes (iface_block eth0 mac_1 ++ iface_block wlan0 mac_3))
      else Exited 0 (Decodes [])
  | [c; name] =>
      if str_eqb c (py "ifconfig") then
        if str_eqb name wlan0 then Exited 0 (Decodes (iface_block wlan0 mac_3))
        else Exited 0 (Decodes (iface_block eth0 mac_1))
      else Exited 0 (Decodes [])
  | _ :: _ => Exited 0 (Decodes [])
  | [] => Launch_failed
  end.
Definition session_second_interface : world :=
  host (py "linux") 0 tools_two_interfaces ∅ [py "2"; mac_2; py "y"].

(** A root session on Linux whose backup file is closed to the user. *)
Definition session_locked_backup : world :=
  host (py "linux") 0 (tools_ok mac_1) {[ eth0_backup := Locked ]} [].

(** * Properties *)

(** ** Running the monad *)

Lemma bind_ret_l {A B} (m : M A) (f : A -> M B) w a w' :
  m w = (Ret a, w') -> bind m f w = f a w'.
Proof. intros H. unfold bind. now rewrite H. Qed.

Lemma bind_exits {A B} (m : M A) (f : A -> M B) w c w' :
  m w = (Exit c, w') -> bind m f w = (Exit c, w').
Proof. intros H. unfold bind. now rewrite H. Qed.

Lemma bind_raises {A B} (m : M A) (f : A -> M B) w e w' :
  m w = (Raise e, w') -> bind m f w = (Raise e, w').
Proof. intros H. unfold bind. now rewrite H. Qed.

Lemma try_except_ret {A} (m : M A) h w a w' :
  m w = (Ret a, w') -> try_except m h w = (Ret a, w').
Proof. intros H. unfold try_except. now rewrite H. Qed.

Lemma try_except_exits {A} (m : M A) h w c w' :
  m w = (Exit c, w') -> try_except m h w = (Exit c, w').
Proof. intros H. unfold try_except. now rewrite H. Qed.

Lemma try_except_raises {A} (m : M A) h w e w' :
  m w = (Raise e, w') -> try_except m h w = h e w'.
Proof. intros H. unfold try_except. now rewrite H. Qed.

(** Reading a normal return backwards. *)

Lemma bind_ret_inv {A B} (m : M A) (f : A -> M B) w b w' :
  bind m f w = (Ret b, w') ->
  exists a w1, m w = (Ret a, w1) /\ f a w1 = (Ret b, w').
Proof.
  unfold bind. destruct (m w) as [[a | e | c] w1]; [eauto | discriminate ..].
Qed.

Lemma try_except_ret_inv {A} (m : M A) h w a w' :
  try_except m h w = (Ret a, w') ->
  m w = (Ret a, w') \/ exists e w1, m w = (Raise e, w1) /\ h e w1 = (Ret a, w').
Proof.
  unfold try_except. destruct (m w) as [[a' | e | c] w1]; [auto | eauto | discriminate].
Qed.

(** What [subprocess.run(cmd, check=True)] does in one step. *)
Lemma subprocess_run_check_eq (cmd : argv) (w : world) :
  subprocess_run_check cmd w =
    (match run_error cmd (exec w (history w) cmd) with
     | Some e => Raise e
     | None => Ret tt
     end,
     set_history (history w ++ [cmd]) w).
Proof.
  unfold subprocess_run_check, bind, spawn.
  destruct (run_error cmd (exec w (history w) cmd)); reflexivity.
Qed.

(** What [with open(path, 'w') as f: f.write(s)] does in one step: a
    path that does not open is left alone; a path that opens ends up with
    the text, or empty when the codec cannot encode the text. *)
Lemma write_file_eq (path s : pystr) (w : world) :
  write_file path s w =
    match open_refusal path (fs w !! path) with
    | Some e => (Raise e, w)
    | None =>
        if encodable w s
        then (Ret tt, set_fs (<[path := Text s]> (fs w)) w)
        else (Raise UnicodeEncodeError, set_fs (<[path := Text []]> (fs w)) w)
    end.
Proof.
  unfold write_file, bind, open_w, file_write.
  destruct (open_refusal path (fs w !! path)); [reflexivity |].
  change (encodable (set_fs (<[path := Text []]> (fs w)) w) s) with (encodable w s).
  destruct (encodable w s); [| reflexivity].
  unfold set_fs. cbn [fs sys_platform geteuid exec history codec log stdin stdout].
  now rewrite insert_insert_eq.
Qed.

(** ** Frame rules

    [preserves proj m] is closed under the monad's combinators, and each
    primitive preserves the components it does not write. *)

Section Frame.
Context {X : Type} (proj : world -> X).

Lemma preserves_ret {A} (a : A) : preserves proj (ret a).
Proof. intros w. reflexivity. Qed.

Lemma preserves_raise {A} e : preserves proj (@raise A e).
Proof. intros w. reflexivity. Qed.

Lemma preserves_sys_exit {A} c : preserves proj (@sys_exit A c).
Proof. intros w. reflexivity. Qed.

Lemma preserves_bind {A B} (m : M A) (f : A -> M B) :
  preserves proj m -> (forall a, preserves proj (f a)) ->
  preserves proj (bind m f).
Proof.
  intros Hm Hf w. unfold bind. specialize (Hm w).
  destruct (m w) as [[a | e | c] w']; simpl in *; [| assumption ..].
  now rewrite Hf.
Qed.

Lemma preserves_try_except {A} (m : M A) h :
  preserves proj m -> (forall e, preserves proj (h e)) ->
  preserves proj (try_except m h).
Proof.
  intros Hm Hh w. unfold try_except. specialize (Hm w).
  destruct (m w) as [[a | e | c] w']; simpl in *; [assumption | | assumption].
  now rewrite Hh.
Qed.

Lemma preserves_get_platform : preserves proj get_platform.
Proof. intros w. reflexivity. Qed.

Lemma preserves_os_geteuid : preserves proj os_geteuid.
Proof. intros w. reflexivity. Qed.

Lemma preserves_read_file path : preserves proj (read_file path).
Proof. intros w. unfold read_file. now destruct (fs w !! path) as [[| | | |]|]. Qed.

Lemma preserves_decode out : preserves proj (decode out).
Proof. intros w. now destruct out. Qed.

Section Log.
Hypothesis proj_log : forall l w, proj (set_log l w) = proj w.

Lemma preserves_logging_info m : preserves proj (logging_info m).
Proof. intros w. apply proj_log. Qed.

Lemma preserves_logging_error m : preserves proj (logging_error m).
Proof. intros w. apply proj_log. Qed.
End Log.

Section Spawn.
Hypothesis proj_history : forall h w, proj (set_history h w) = proj w.

Lemma preserves_spawn cmd : preserves proj (spawn cmd).
Proof. intros w. apply proj_history. Qed.

Lemma preserves_subprocess_run_check cmd :
  preserves proj (subprocess_run_check cmd).
Proof.
  apply preserves_bind; [apply preserves_spawn |].
  intros r. destruct (run_error cmd r);
    [apply preserves_raise | apply preserves_ret].
Qed.

Lemma preserves_check_output cmd : preserves proj (check_output cmd).
Proof.
  apply preserves_bind; [apply preserves_spawn |].
  intros [| c out]; [apply preserves_raise |].
  destruct (c =? 0)%Z; [apply preserves_ret | apply preserves_raise].
Qed.
End Spawn.

Section Console.
Hypothesis proj_stdout : forall l w, proj (set_stdout l w) = proj w.
Hypothesis proj_stdin : forall l w, proj (set_stdin l w) = proj w.

Lemma preserves_print s : preserves proj (print s).
Proof. intros w. apply proj_stdout. Qed.

Lemma preserves_input s : preserves proj (input s).
Proof.
  intros w. unfold input.
  destruct (stdin (set_stdout (stdout w ++ [s]) w)); simpl.
  - apply proj_stdout.
  - now rewrite proj_stdin, proj_stdout.
Qed.

Lemma preserves_print_menu l : forall i, preserves proj (print_menu i l).
Proof.
  induction l as [| iface more IH]; intros i; simpl.
  - apply preserves_ret.
  - apply preserves_bind; [apply preserves_print | intros _; apply IH].
Qed.
End Console.
End Frame.

(** Pushes [preserves] through a definition built from the combinators. *)
Ltac frame :=
  repeat first
    [ apply preserves_ret | apply preserves_raise | apply preserves_sys_exit
    | apply preserves_get_platform | apply preserves_os_geteuid
    | apply preserves_read_file | apply preserves_decode
    | apply preserves_logging_info; reflexivity
    | apply preserves_logging_error; reflexivity
    | apply preserves_subprocess_run_check; reflexivity
    | apply preserves_check_output; reflexivity
    | apply preserves_print; reflexivity
    | apply preserves_input; reflexivity
    | apply preserves_bind; [| intros ?]
    | apply preserves_try_except; [| intros ?]
    | match goal with
      | |- preserves _ (if ?b then _ else _) => destruct b
      | |- preserves _ (match ?x with _ => _ end) => destruct x
      end ].

Lemma get_os_keeps {X} (proj : world -> X) :
  (forall l w, proj (set_log l w) = proj w) -> preserves proj get_os.
Proof. intros H. unfold get_os. frame; apply preserves_logging_error, H. Qed.

Lemma get_current_mac_keeps_fs interface : preserves fs (get_current_mac interface).
Proof. unfold get_current_mac. frame. Qed.

Lemma get_current_mac_keeps_codec interface : preserves codec (get_current_mac interface).
Proof. unfold get_current_mac. frame. Qed.

Lemma get_current_mac_keeps_stdin interface : preserves stdin (get_current_mac interface).
Proof. unfold get_current_mac. frame. Qed.

Lemma change_mac_keeps_fs interface new_mac : preserves fs (change_mac interface new_mac).
Proof. unfold change_mac. frame. Qed.

(** ** Computations that cannot exit *)

Lemma never_exits_ret {A} (a : A) : never_exits (ret a).
Proof. intros w c. discriminate. Qed.

Lemma never_exits_raise {A} e : never_exits (@raise A e).
Proof. intros w c. discriminate. Qed.

Lemma never_exits_bind {A B} (m : M A) (f : A -> M B) :
  never_exits m -> (forall a, never_exits (f a)) -> never_exits (bind m f).
Proof.
  intros Hm Hf w c. unfold bind. specialize (Hm w).
  destruct (m w) as [[a | e | c'] w']; simpl in *.
  - apply Hf.
  - discriminate.
  - now destruct (Hm c').
Qed.

Lemma never_exits_logging_info m : never_exits (logging_info m).
Proof. intros w c. discriminate. Qed.

Lemma never_exits_subprocess_run_check cmd : never_exits (subprocess_run_check cmd).
Proof.
  intros w c. rewrite subprocess_run_check_eq. simpl.
  destruct (run_error cmd (exec w (history w) cmd)); discriminate.
Qed.

Ltac no_exit :=
  repeat first
    [ apply never_exits_ret | apply never_exits_raise
    | apply never_exits_logging_info
    | apply never_exits_subprocess_run_check
    | apply never_exits_bind; [| intros ?]
    | match goal with
      | |- never_exits (if ?b then _ else _) => destruct b
      end ].

(** ** The validator *)

(** Uses every equation [_ = true] of the context to rewrite the goal. *)
Ltac use_facts :=
  repeat match goal with
         | E : _ = true |- _ => rewrite E; clear E
         end.

Ltac split_conj H :=
  repeat (let H' := fresh "T" in apply andb_prop in H as [H H']).

(** Six groups over the pattern's set are accepted, alone or followed by
    one newline. *)
Lemma six_groups_accepted s :
  six_groups is_hex_or_decimal s = true ->
  validate_mac s = true /\ validate_mac (s ++ [LF]) = true.
Proof.
  intros H.
  do 17 (destruct s as [| ? s]; [discriminate H |]).
  destruct s; [| discriminate H].
  cbn [six_groups] in H. unfold is_hex_or_decimal in H.
  split_conj H.
  unfold validate_mac, re_match, mac_pattern, start_at.
  split; cbn -[atom_ok N.eqb];
    change (atom_ok (Lit 58%N) ?c) with (c =? 58)%N;
    use_facts; reflexivity.
Qed.

(** Peels the tests of a successful match off a hypothesis, first test
    first. *)
Ltac peel H :=
  repeat (cbn -[atom_ok N.eqb] in H;
          rewrite ?andb_true_r, ?andb_false_r in H;
          lazymatch type of H with
          | match (if ?b then _ else _) with Some _ => _ | None => _ end = true =>
              destruct b eqn:?; [| discriminate H]
          end).

(** Nothing else is accepted. *)
Lemma validate_mac_sound s :
  validate_mac s = true -> accepted_by_pattern s = true.
Proof.
  unfold validate_mac, re_match, mac_pattern, start_at, accepted_by_pattern,
    is_hex_or_decimal.
  intros H.
  do 19 (destruct s as [| ? s];
         [ peel H; try discriminate H;
           cbn -[atom_ok N.eqb];
           change (atom_ok (Lit 58%N) ?c) with (c =? 58)%N in *;
           use_facts; reflexivity |]).
  peel H. discriminate H.
Qed.

(** X1.
    [validate_mac] accepts exactly six groups over [[\da-fA-F]], optionally
    followed by one newline. *)
Lemma validate_mac_accepts s : validate_mac s = accepted_by_pattern s.
Proof.
  destruct (accepted_by_pattern s) eqn:Hacc.
  - unfold accepted_by_pattern in Hacc.
    apply orb_prop in Hacc as [H | H].
    + now apply six_groups_accepted.
    + destruct (drop 17 s) as [| c [| ? ?]] eqn:Hdrop; try discriminate H.
      apply andb_prop in H as [Hc H]. apply N.eqb_eq in Hc. subst c.
      rewrite <- (take_drop 17 s), Hdrop.
      now apply six_groups_accepted.
  - destruct (validate_mac s) eqn:Hval; [| reflexivity].
    apply validate_mac_sound in Hval. congruence.
Qed.

Lemma is_ascii_hex_in_pattern_set c :
  is_ascii_hex c = true -> is_hex_or_decimal c = true.
Proof.
  unfold is_ascii_hex, is_hex_or_decimal, hex_set, atom_ok.
  cbn [app map existsb item_ok].
  intros [[H | H]%orb_prop | H]%orb_prop.
  - unfold is_ascii_digit in H.
    unfold is_decimal, in_ranges, decimal_ranges. cbn [existsb fst snd].
    now rewrite H.
  - now rewrite H, orb_true_r.
  - now rewrite H, !orb_true_r.
Qed.

Lemma six_groups_mono (h1 h2 : pychar -> bool) s :
  (forall c, h1 c = true -> h2 c = true) ->
  six_groups h1 s = true -> six_groups h2 s = true.
Proof.
  intros Hsub H.
  do 17 (destruct s as [| ? s]; [discriminate H |]).
  destruct s; [| discriminate H].
  cbn [six_groups] in *. split_conj H.
  repeat match goal with
         | E : h1 _ = true |- _ => apply Hsub in E
         end.
  use_facts. reflexivity.
Qed.

(** X2.
    Every address of the canonical form is accepted. *)
Lemma canonical_mac_accepted s :
  canonical_mac s = true -> validate_mac s = true.
Proof.
  intros H. apply six_groups_accepted.
  exact (six_groups_mono _ _ s is_ascii_hex_in_pattern_set H).
Qed.

Lemma canonical_mac_accepted_witness : validate_mac mac_2 = true.
Proof. apply canonical_mac_accepted. vm_compute. reflexivity. Defined.


(** C1.  [validate_mac] accepts strings that are not of the canonical form:
    an address followed by a newline (the pattern ends in [$], which also
    holds before a final newline), and an address written with decimal
    digits outside ASCII (the pattern says [\d]).  The second one reaches
    the mutator when typed at the prompt. *)
Theorem validate_mac_accepts_noncanonical :
  validate_mac mac_with_newline = true /\
  canonical_mac mac_with_newline = false /\
  validate_mac mac_arabic_digits = true /\
  canonical_mac mac_arabic_digits = false /\
  history (snd (main session_arabic_digits)) =
    [ [py "ifconfig"]; [py "ifconfig"; eth0];
      cmd_down eth0; cmd_set eth0 mac_arabic_digits; cmd_up eth0;
      [py "ifconfig"; eth0] ].
Proof. repeat split; vm_compute; reflexivity. Qed.

(** ** What the patterns of the MAC Reader capture *)

(** A counted repetition of a single-character atom reads exactly [n]
    characters of the atom's set and hands over to the continuation. *)
Lemma rmatch_rep_one ml a n : forall st k r,
  rmatch ml (Rep n (One a)) st k = Some r ->
  exists x st',
    length x = n /\ forallb (atom_ok a) x = true /\
    rest st = x ++ rest st' /\
    consumed st' = consumed st + n /\
    group1 st' = group1 st /\
    k st' = Some r.
Proof.
  induction n as [| n IH]; intros st k r H.
  - exists [], st. cbn in H. repeat split; [lia | exact H].
  - cbn in H. destruct (rest st) as [| c t] eqn:Hrest; [discriminate |].
    destruct (atom_ok a c) eqn:Hc; [| discriminate].
    apply IH in H as (x & st' & Hlen & Hall & Hx & Hcons & Hgrp & Hk).
    exists (c :: x), st'. cbn in *.
    rewrite Hc, Hall, Hlen, <- Hx, Hcons. repeat split; [lia | assumption ..].
Qed.

(** A literal prefix either fails or continues. *)
Lemma rmatch_lits ml p : forall st k r,
  rmatch ml (lits p) st k = Some r -> exists st', k st' = Some r.
Proof.
  induction p as [| c p IH]; intros st k r H; cbn in H.
  - eauto.
  - destruct (rest st) as [| d t]; [discriminate |].
    destruct (d =? c)%N; [| discriminate].
    apply IH in H. exact H.
Qed.

(** A group around seventeen characters of a set captures them. *)
Lemma rmatch_group17 ml a st r :
  rmatch ml (Grp (Rep 17 (One a))) st Some = Some r ->
  exists x, group1 r = Some x /\ length x = 17 /\ forallb (atom_ok a) x = true.
Proof.
  intros H. change (rmatch ml (Grp (Rep 17 (One a))) st Some) with
    (rmatch ml (Rep 17 (One a)) st (fun st' =>
       Some (MState (prev st') (rest st') (consumed st')
               (Some (take (consumed st' - consumed st) (rest st)))))) in H.
  apply rmatch_rep_one in H as (x & st' & Hlen & Hall & Hx & Hcons & _ & Hk).
  injection Hk as <-. exists x. cbn [group1].
  rewrite Hcons, Hx.
  replace (consumed st + 17 - consumed st) with (length x) by lia.
  now rewrite take_app_length.
Qed.

Lemma search_from_found ml r : forall s p st,
  search_from ml r p s = Some st ->
  exists p' s', rmatch ml r (start_at p' s') Some = Some st.
Proof.
  induction s as [| c t IH]; intros p st H; cbn in H.
  - destruct (rmatch ml r (start_at p []) Some) eqn:E; [| discriminate].
    injection H as <-. eauto.
  - destruct (rmatch ml r (start_at p (c :: t)) Some) eqn:E.
    + injection H as <-. eauto.
    + eapply IH, H.
Qed.

Lemma ether_pattern_group s st :
  re_search false ether_pattern s = Some st ->
  exists x, group1 st = Some x /\ length x = 17 /\ forallb is_reader_char x = true.
Proof.
  intros H. apply search_from_found in H as (p & s' & H).
  unfold ether_pattern in H.
  change (rmatch false (Cat ?a ?b) ?st ?k)
    with (rmatch false a st (fun st' => rmatch false b st' k)) in H.
  apply rmatch_lits in H as (st' & H).
  now apply rmatch_group17 in H.
Qed.

Lemma getmac_pattern_group s st :
  re_search false getmac_pattern s = Some st ->
  exists x, group1 st = Some x /\ length x = 17 /\
            forallb (atom_ok (hex_set [45%N])) x = true.
Proof.
  intros H. apply search_from_found in H as (p & s' & H).
  now apply rmatch_group17 in H.
Qed.

(** Turning dashes into colons turns a [getmac] token into a token of the
    Unix reader's set. *)
Lemma replace_dash_reader_char x :
  forallb (atom_ok (hex_set [45%N])) x = true ->
  forallb is_reader_char (replace_char 45 58 x) = true.
Proof.
  induction x as [| c x IH]; [reflexivity |].
  change (replace_char 45 58 (c :: x))
    with ((if (c =? 45)%N then 58%N else c) :: replace_char 45 58 x).
  cbn [forallb]. intros [Hc Hx]%andb_prop.
  rewrite (IH Hx), andb_true_r. clear IH Hx.
  unfold is_reader_char, hex_set, atom_ok in *. cbn [app map existsb item_ok] in *.
  destruct (c =? 45)%N eqn:E.
  - rewrite N.eqb_refl. now rewrite !orb_true_r.
  - destruct (is_decimal c); [reflexivity |].
    destruct ((97 <=? c)%N && (c <=? 102)%N); [reflexivity |].
    destruct ((65 <=? c)%N && (c <=? 70)%N); [reflexivity | discriminate].
Qed.

Lemma getmac_lines_token interface lines m :
  getmac_lines interface lines = Some m ->
  length m = 17 /\ forallb is_reader_char m = true.
Proof.
  induction lines as [| line more IH]; cbn; [discriminate |].
  destruct (contains line interface); [| exact IH].
  destruct (re_search false getmac_pattern line) as [st |] eqn:E; [| exact IH].
  apply getmac_pattern_group in E as (x & -> & Hlen & Hall).
  cbn. intros [= <-]. split.
  - unfold replace_char. now rewrite length_map.
  - now apply replace_dash_reader_char.
Qed.

(** ** The platform detector *)

Lemma get_os_linux w :
  startswith (sys_platform w) (py "linux") = true ->
  get_os w = (Ret (py "linux"), w).
Proof. intros H. unfold get_os, bind, get_platform. now rewrite H. Qed.

(** [get_os] returns one of the three names and leaves the world alone, or
    logs and exits with status 1. *)
Lemma get_os_cases w :
  (exists name, get_os w = (Ret name, w) /\
     (name = py "linux" \/ name = py "macos" \/ name = py "windows")) \/
  get_os w =
    (Exit 1, set_log (log w ++ [(ERROR, Plain (py "Unsupported operating system."))]) w).
Proof.
  unfold get_os, bind, get_platform.
  destruct (startswith (sys_platform w) (py "linux")); [left; eauto |].
  destruct (startswith (sys_platform w) (py "darwin")); [left; eauto |].
  destruct (startswith (sys_platform w) (py "win")); [left; eauto |].
  right. reflexivity.
Qed.

(** ** The privilege check (C7) *)

(** C7. On Linux or macOS with an effective user other than 0, the
    privilege check ends the run with exit status 1 after one error
    record: the whole of [main] does nothing else, and in particular runs
    no command at all. *)
Theorem non_root_unix_exits_before_mutation (w : world) :
  startswith (sys_platform w) (py "linux")
    || startswith (sys_platform w) (py "darwin") = true ->
  geteuid w <> 0%Z ->
  check_permissions w =
    (Exit 1,
     set_log (log w ++
       [(ERROR, Plain (py "This script requires root privileges. Please run with sudo."))]) w)
  /\ main w = check_permissions w
  /\ history (snd (main w)) = history w.
Proof.
  intros Hunix Huid.
  assert (Hcp : check_permissions w =
    (Exit 1,
     set_log (log w ++
       [(ERROR, Plain (py "This script requires root privileges. Please run with sudo."))]) w)).
  { unfold check_permissions, bind, get_platform, os_geteuid.
    rewrite Hunix.
    destruct (Z.eqb_spec (geteuid w) 0) as [E | _]; [contradiction | reflexivity]. }
  assert (Hmain : main w = check_permissions w).
  { unfold main. rewrite (bind_exits _ _ _ _ _ Hcp). now rewrite Hcp. }
  repeat split; [exact Hcp | exact Hmain |].
  rewrite Hmain, Hcp. reflexivity.
Qed.

Lemma non_root_unix_exits_before_mutation_witness :
  let w := session_non_root in
  check_permissions w =
    (Exit 1,
     set_log (log w ++
       [(ERROR, Plain (py "This script requires root privileges. Please run with sudo."))]) w)
  /\ main w = check_permissions w
  /\ history (snd (main w)) = history w.
Proof.
  apply non_root_unix_exits_before_mutation; [reflexivity | simpl; lia].
Defined.

(** ** The mutator on Linux (C6) *)

(** C6. On Linux [change_mac] runs "down", "hw ether", "up" in this order,
    each only if the one before succeeded.  The first command that cannot
    be launched or exits with a status other than zero ends the sequence:
    the error is logged, the process exits with status 1, and no further
    command (no rollback either) is run.  If all three succeed, the history
    has grown by exactly these three commands. *)
Theorem change_mac_linux_sequence (interface new_mac : pystr) (w : world) :
  startswith (sys_platform w) (py "linux") = true ->
  let h := history w in
  let down := cmd_down interface in
  let set := cmd_set interface new_mac in
  let up := cmd_up interface in
  change_mac interface new_mac w =
    match run_error down (exec w h down) with
    | Some e => mutation_failed w [down] e
    | None =>
        match run_error set (exec w (h ++ [down]) set) with
        | Some e => mutation_failed w [down; set] e
        | None =>
            match run_error up (exec w (h ++ [down; set]) up) with
            | Some e => mutation_failed w [down; set; up] e
            | None =>
                (Ret tt,
                 set_log (log w ++
                   [(INFO, Plain (py "MAC address changed to " ++ new_mac
                                  ++ py " on " ++ interface ++ py "."))])
                   (set_history (h ++ [down; set; up]) w))
            end
        end
    end.
Proof.
  intros Hlinux h down set up.
  unfold change_mac. rewrite (bind_ret_l _ _ _ _ _ (get_os_linux w Hlinux)).
  change (str_eqb (py "linux") (py "linux")) with true. cbv iota.
  fold (cmd_down interface) (cmd_set interface new_mac) (cmd_up interface).
  fold down set up.
  set (w1 := set_history (h ++ [down]) w).
  set (w2 := set_history (h ++ [down; set]) w).
  set (w3 := set_history (h ++ [down; set; up]) w).
  assert (H1 : subprocess_run_check down w =
               (match run_error down (exec w h down) with
                | Some e => Raise e | None => Ret tt end, w1))
    by apply subprocess_run_check_eq.
  assert (H2 : subprocess_run_check set w1 =
               (match run_error set (exec w (h ++ [down]) set) with
                | Some e => Raise e | None => Ret tt end, w2)).
  { rewrite subprocess_run_check_eq. unfold w2. simpl.
    now rewrite <- app_assoc. }
  assert (H3 : subprocess_run_check up w2 =
               (match run_error up (exec w (h ++ [down; set]) up) with
                | Some e => Raise e | None => Ret tt end, w3)).
  { rewrite subprocess_run_check_eq. unfold w3. simpl.
    now rewrite <- app_assoc. }
  destruct (run_error down (exec w h down)) as [e1 |].
  { now rewrite (try_except_raises _ _ _ _ _
                   (bind_raises _ _ _ _ _ (bind_raises _ _ _ _ _ H1))). }
  pose proof (bind_ret_l _ (fun _ => subprocess_run_check set ;; subprocess_run_check up)
                _ _ _ H1) as S1.
  destruct (run_error set (exec w (h ++ [down]) set)) as [e2 |].
  { now rewrite (try_except_raises _ _ _ _ _
                   (bind_raises _ _ _ _ _
                      (eq_trans S1 (bind_raises _ _ _ _ _ H2)))). }
  pose proof (eq_trans S1 (bind_ret_l _ (fun _ => subprocess_run_check up) _ _ _ H2)) as S2.
  destruct (run_error up (exec w (h ++ [down; set]) up)) as [e3 |].
  { now rewrite (try_except_raises _ _ _ _ _
                   (bind_raises _ _ _ _ _ (eq_trans S2 H3))). }
  now rewrite (try_except_ret _ _ _ _ _
                 (eq_trans (bind_ret_l _ _ _ _ _ (eq_trans S2 H3)) eq_refl)).
Qed.

Lemma change_mac_linux_sequence_witness :
  let w := session_sudo_fails in
  startswith (sys_platform w) (py "linux") = true /\
  change_mac eth0 mac_2 w =
    mutation_failed w [cmd_down eth0] (CalledProcessError (cmd_down eth0) 1).
Proof.
  intros w. split; [reflexivity |].
  exact (change_mac_linux_sequence eth0 mac_2 w eq_refl).
Defined.

(** ** The mutator returns or exits with status 1 *)

Lemma change_mac_outcome interface new_mac w :
  fst (change_mac interface new_mac w) = Ret tt \/
  fst (change_mac interface new_mac w) = Exit 1.
Proof.
  unfold change_mac.
  destruct (get_os_cases w) as [(name & Hos & _) | Hos].
  2: { right. now rewrite (bind_exits _ _ _ _ _ Hos). }
  rewrite (bind_ret_l _ _ _ _ _ Hos).
  match goal with |- context [try_except ?b ?h w] => set (body := b) end.
  assert (Hbody : never_exits body) by (unfold body; no_exit).
  unfold try_except. specialize (Hbody w).
  destruct (body w) as [[[] | e | c] w']; simpl in *.
  - now left.
  - now right.
  - now destruct (Hbody c).
Qed.

Lemma change_mac_never_raises interface new_mac :
  never_raises (change_mac interface new_mac).
Proof.
  intros w e H.
  destruct (change_mac_outcome interface new_mac w) as [E | E];
    rewrite E in H; discriminate.
Qed.

(** ** The MAC Reader *)

(** Whatever the reader returns is a run of seventeen characters, each a
    hexadecimal letter, a decimal digit or a colon. *)
Lemma get_current_mac_token interface w m w1 :
  get_current_mac interface w = (Ret (Some m), w1) ->
  length m = 17 /\ forallb is_reader_char m = true.
Proof.
  unfold get_current_mac. intros H.
  apply bind_ret_inv in H as (name & w0 & _ & H).
  apply try_except_ret_inv in H as [H | (e & w2 & _ & H)]; [| discriminate].
  destruct (str_eqb name (py "linux") || str_eqb name (py "macos")).
  - apply bind_ret_inv in H as (out & w2 & _ & H).
    apply bind_ret_inv in H as (output & w3 & _ & H).
    destruct (re_search false ether_pattern output) as [st |] eqn:E;
      [| discriminate].
    apply ether_pattern_group in E as (x & Hx & Hlen & Hall).
    injection H as H _. rewrite Hx in H. injection H as <-. auto.
  - destruct (str_eqb name (py "windows")); [| discriminate].
    apply bind_ret_inv in H as (out & w2 & _ & H).
    apply bind_ret_inv in H as (output & w3 & _ & H).
    injection H as H _. now apply getmac_lines_token in H.
Qed.

(** ** Backup *)

(** The backup of a present address, by the state of the backup file and
    the codec.  A file that does not open is left as it is and the
    exception of [open] ends [backup_mac]; a file that opens is created or
    truncated, and then holds the reader's text and nothing else, unless
    the codec cannot encode the text: then the file stays empty and
    [UnicodeEncodeError] ends [backup_mac]. *)
Lemma backup_mac_eq interface backup_file w m w1 :
  get_current_mac interface w = (Ret (Some m), w1) ->
  backup_mac interface backup_file w =
    match open_refusal backup_file (fs w !! backup_file) with
    | Some e => (Raise e, w1)
    | None =>
        if encodable w m then
          (Ret tt,
           logged INFO
             (Plain (py "Backed up MAC address " ++ m ++ py " to "
                     ++ backup_file ++ py "."))
             (set_fs (<[backup_file := Text m]> (fs w)) w1))
        else
          (Raise UnicodeEncodeError,
           set_fs (<[backup_file := Text []]> (fs w)) w1)
    end.
Proof.
  intros Hread.
  assert (Hfs : fs w1 = fs w).
  { pose proof (get_current_mac_keeps_fs interface w) as K.
    now rewrite Hread in K. }
  assert (Hcodec : encodable w1 m = encodable w m).
  { pose proof (get_current_mac_keeps_codec interface w) as K.
    rewrite Hread in K. unfold encodable. cbn [snd] in K. now rewrite K. }
  destruct (get_current_mac_token _ _ _ _ Hread) as [Hlen _].
  unfold backup_mac. rewrite (bind_ret_l _ _ _ _ _ Hread).
  destruct m as [| c m]; [discriminate |].
  cbn [truthy default]. unfold id. unfold bind at 1.
  rewrite write_file_eq, Hfs, Hcodec.
  destruct (open_refusal backup_file (fs w !! backup_file)); [reflexivity |].
  destruct (encodable w (c :: m)); reflexivity.
Qed.

Lemma backup_mac_present interface backup_file w m w1 :
  get_current_mac interface w = (Ret (Some m), w1) ->
  writable w backup_file ->
  encodable w m = true ->
  backup_mac interface backup_file w =
    (Ret tt,
     logged INFO
       (Plain (py "Backed up MAC address " ++ m ++ py " to " ++ backup_file ++ py "."))
       (set_fs (<[backup_file := Text m]> (fs w)) w1)).
Proof.
  intros Hread Hopen Hcodec. unfold writable in Hopen.
  now rewrite (backup_mac_eq _ _ _ _ _ Hread), Hopen, Hcodec.
Qed.

(** C8. If the reader returns no address, [backup_mac] appends the record
    "Failed to backup MAC address." and returns normally, so the caller goes
    on; the file system is what it was before the backup started. *)
Theorem backup_absent_mac_keeps_files
    (interface backup_file : pystr) (w w1 : world) :
  get_current_mac interface w = (Ret None, w1) ->
  backup_mac interface backup_file w =
    (Ret tt, logged ERROR (Plain (py "Failed to backup MAC address.")) w1)
  /\ fs (snd (backup_mac interface backup_file w)) = fs w.
Proof.
  intros Hread.
  assert (E : backup_mac interface backup_file w =
    (Ret tt, logged ERROR (Plain (py "Failed to backup MAC address.")) w1)).
  { unfold backup_mac. now rewrite (bind_ret_l _ _ _ _ _ Hread). }
  split; [exact E |].
  rewrite E. cbn.
  pose proof (get_current_mac_keeps_fs interface w) as K.
  now rewrite Hread in K.
Qed.

Lemma backup_absent_mac_keeps_files_witness :
  let w := session_silent in
  let w1 := snd (get_current_mac eth0 w) in
  get_current_mac eth0 w = (Ret None, w1) /\
  backup_mac eth0 eth0_backup w =
    (Ret tt, logged ERROR (Plain (py "Failed to backup MAC address.")) w1)
  /\ fs (snd (backup_mac eth0 eth0_backup w)) = fs w.
Proof.
  intros w w1.
  assert (H : get_current_mac eth0 w = (Ret None, w1)) by (vm_compute; reflexivity).
  split; [exact H |].
  exact (backup_absent_mac_keeps_files eth0 eth0_backup w w1 H).
Defined.

(** C10, as the code has it.  When the reader returns an address,
    [backup_mac] opens the backup file for writing.  If the file opens and
    the locale's codec encodes the address, the file system afterwards is
    the old one with the backup file replaced by that address: whatever the
    file held before is gone.  If the file opens but the codec lacks a
    character of the address, the old content is gone as well and the file
    is left empty.  If the file does not open, [backup_mac] ends in the
    exception of [open] and every file is what it was: the earlier backup
    is preserved. *)
Theorem backup_overwrites_previous
    (interface backup_file m : pystr) (w w1 : world) :
  get_current_mac interface w = (Ret (Some m), w1) ->
  (writable w backup_file -> encodable w m = true ->
   fst (backup_mac interface backup_file w) = Ret tt /\
   fs (snd (backup_mac interface backup_file w)) = <[backup_file := Text m]> (fs w) /\
   fs (snd (backup_mac interface backup_file w)) !! backup_file = Some (Text m)) /\
  (writable w backup_file -> encodable w m = false ->
   fst (backup_mac interface backup_file w) = Raise UnicodeEncodeError /\
   fs (snd (backup_mac interface backup_file w)) = <[backup_file := Text []]> (fs w)) /\
  (forall e, open_refusal backup_file (fs w !! backup_file) = Some e ->
   backup_mac interface backup_file w = (Raise e, w1) /\
   fs (snd (backup_mac interface backup_file w)) = fs w).
Proof.
  intros Hread.
  assert (Hfs : fs w1 = fs w).
  { pose proof (get_current_mac_keeps_fs interface w) as K.
    now rewrite Hread in K. }
  rewrite (backup_mac_eq _ _ _ _ _ Hread). unfold writable.
  split; [| split].
  - intros -> ->. cbn. repeat split. apply lookup_insert_eq.
  - intros -> ->. cbn. split; reflexivity.
  - intros e ->. cbn. split; [reflexivity | exact Hfs].
Qed.

Lemma backup_overwrites_previous_witness :
  let w := session_old_backup in
  fs w !! eth0_backup = Some (Text mac_2) /\
  fst (backup_mac eth0 eth0_backup w) = Ret tt /\
  fs (snd (backup_mac eth0 eth0_backup w)) = <[eth0_backup := Text mac_1]> (fs w) /\
  fs (snd (backup_mac eth0 eth0_backup w)) !! eth0_backup = Some (Text mac_1).
Proof.
  intros w. split; [vm_compute; reflexivity |].
  apply (proj1 (backup_overwrites_previous eth0 eth0_backup mac_1 w
                  (snd (get_current_mac eth0 w)) ltac:(vm_compute; reflexivity))).
  - vm_compute. reflexivity.
  - vm_compute. reflexivity.
Defined.

(** C10 as stated fails: the reader returns an address, but the backup
    file of an earlier run is closed to the user.  [backup_mac] ends in
    [PermissionError]; the file is not overwritten and not truncated, it is
    what it was. *)
Lemma backup_keeps_unopened_file :
  let w := session_locked_backup in
  fst (get_current_mac eth0 w) = Ret (Some mac_1) /\
  fst (backup_mac eth0 eth0_backup w) = Raise (PermissionError eth0_backup) /\
  fs (snd (backup_mac eth0 eth0_backup w)) !! eth0_backup = fs w !! eth0_backup /\
  fs (snd (backup_mac eth0 eth0_backup w)) !! eth0_backup <> Some (Text mac_1).
Proof. repeat split; vm_compute; congruence. Qed.

(** C9, as the code has it.  When [backup_mac] writes the backup file (the
    file opens and the locale's codec encodes the token), the text it
    persists is the reader's token and nothing else: seventeen characters,
    each a hexadecimal letter, a decimal digit or a colon.  Their
    arrangement in six groups is not checked here. *)
Theorem backup_persists_reader_token
    (interface backup_file m : pystr) (w w1 : world) :
  get_current_mac interface w = (Ret (Some m), w1) ->
  writable w backup_file ->
  encodable w m = true ->
  fs (snd (backup_mac interface backup_file w)) !! backup_file = Some (Text m) /\
  length m = 17 /\
  forallb is_reader_char m = true.
Proof.
  intros Hread Hopen Hcodec.
  rewrite (backup_mac_present _ _ _ _ _ Hread Hopen Hcodec). cbn.
  split; [apply lookup_insert_eq |].
  exact (get_current_mac_token _ _ _ _ Hread).
Qed.

Lemma backup_persists_reader_token_witness :
  let w := session_odd_token in
  fs (snd (backup_mac eth0 eth0_backup w)) !! eth0_backup = Some (Text odd_token) /\
  length odd_token = 17 /\
  forallb is_reader_char odd_token = true.
Proof.
  intros w.
  apply (backup_persists_reader_token eth0 eth0_backup odd_token w
           (snd (get_current_mac eth0 w))).
  - vm_compute. reflexivity.
  - vm_compute. reflexivity.
  - vm_compute. reflexivity.
Defined.

(** C9 as stated fails: the reader extracts [0123:4567:89ab:cd] from a tool
    output, backup persists it, and it is not of the canonical form. *)
Lemma backup_persists_noncanonical :
  fst (get_current_mac eth0 session_odd_token) = Ret (Some odd_token) /\
  fs (snd (backup_mac eth0 eth0_backup session_odd_token)) !! eth0_backup
    = Some (Text odd_token) /\
  canonical_mac odd_token = false /\
  validate_mac odd_token = false.
Proof. repeat split; vm_compute; reflexivity. Qed.

(** ** Restore *)

(** What [restore_mac] does, by the state of the backup file.  A missing
    file, a file that cannot be read and text that is not an address end in
    one error record; a valid address is handed to [change_mac], whose
    outcome is the outcome of the restore. *)
Lemma restore_mac_eq interface backup_file w :
  restore_mac interface backup_file w =
    match fs w !! backup_file with
    | Some (Text s) =>
        if validate_mac (strip s) then
          (change_mac interface (strip s) ;;
           logging_info
             (Plain (py "Restored MAC address to " ++ strip s ++ py " on "
                     ++ interface ++ py "."))) w
        else (Ret tt, logged ERROR (Plain (py "Invalid MAC address in backup file.")) w)
    | Some Locked =>
        (Ret tt,
         logged ERROR
           (With_exn (py "Error restoring MAC address: ") (PermissionError backup_file)) w)
    | Some Garbled =>
        (Ret tt,
         logged ERROR
           (With_exn (py "Error restoring MAC address: ") UnicodeDecodeError) w)
    | Some (Refused errno) =>
        (Ret tt,
         logged ERROR
           (With_exn (py "Error restoring MAC address: ") (OSError errno backup_file)) w)
    | Some Unreachable | None =>
        (Ret tt,
         logged ERROR
           (With_exn (py "Error restoring MAC address: ") (FileNotFoundError backup_file)) w)
    end.
Proof.
  unfold restore_mac, try_except.
  unfold bind at 1. unfold read_file.
  destruct (fs w !! backup_file) as [[s | | | | errno] |]; try reflexivity.
  destruct (validate_mac (strip s)); [| reflexivity].
  pose proof (change_mac_never_raises interface (strip s) w) as Hnr.
  unfold bind.
  destruct (change_mac interface (strip s) w) as [[[] | e | c] w']; simpl in *;
    try reflexivity.
  now destruct (Hnr e).
Qed.

(** C5. If the backup file can be read and its trimmed text is not
    accepted by [validate_mac], [restore_mac] appends one error record and
    returns: the world is otherwise untouched, so no command was run. *)
Theorem restore_invalid_backup_skips_mutator
    (interface backup_file s : pystr) (w : world) :
  fs w !! backup_file = Some (Text s) ->
  validate_mac (strip s) = false ->
  restore_mac interface backup_file w =
    (Ret tt, logged ERROR (Plain (py "Invalid MAC address in backup file.")) w)
  /\ history (snd (restore_mac interface backup_file w)) = history w.
Proof.
  intros Hfile Hbad.
  assert (E : restore_mac interface backup_file w =
    (Ret tt, logged ERROR (Plain (py "Invalid MAC address in backup file.")) w)).
  { rewrite restore_mac_eq, Hfile, Hbad. reflexivity. }
  split; [exact E | now rewrite E].
Qed.

Lemma restore_invalid_backup_skips_mutator_witness :
  let w := session_bad_backup in
  restore_mac eth0 eth0_backup w =
    (Ret tt, logged ERROR (Plain (py "Invalid MAC address in backup file.")) w)
  /\ history (snd (restore_mac eth0 eth0_backup w)) = history w.
Proof.
  intros w.
  apply (restore_invalid_backup_skips_mutator eth0 eth0_backup
           (py "not a mac" ++ [LF]) w); vm_compute; reflexivity.
Defined.

(** C2. Once [DE:AD:BE:EF:00:01] has been written as the content of the
    backup file, the file holds that text, its trimmed form is the same
    text and passes validation, and [restore_mac] is exactly a call of
    [change_mac] on the interface with [DE:AD:BE:EF:00:01], followed on
    success by one information record. *)
Theorem restore_after_write_invokes_mutator
    (interface backup_file : pystr) (w : world) :
  writable w backup_file ->
  exists w1,
    write_file backup_file mac_2 w = (Ret tt, w1) /\
    fs w1 !! backup_file = Some (Text mac_2) /\
    strip mac_2 = mac_2 /\
    validate_mac (strip mac_2) = true /\
    restore_mac interface backup_file w1 =
      (change_mac interface mac_2 ;;
       logging_info
         (Plain (py "Restored MAC address to " ++ mac_2 ++ py " on "
                 ++ interface ++ py "."))) w1.
Proof.
  intros Hopen.
  exists (set_fs (<[backup_file := Text mac_2]> (fs w)) w).
  assert (Hlook : fs (set_fs (<[backup_file := Text mac_2]> (fs w)) w) !! backup_file
                  = Some (Text mac_2)) by (simpl; apply lookup_insert_eq).
  repeat split.
  - rewrite write_file_eq. unfold writable in Hopen. now rewrite Hopen.
  - exact Hlook.
  - rewrite restore_mac_eq, Hlook.
    change (strip mac_2) with mac_2.
    change (validate_mac mac_2) with true. reflexivity.
Qed.

Lemma restore_after_write_invokes_mutator_witness :
  let w := session_fresh in
  exists w1,
    write_file eth0_backup mac_2 w = (Ret tt, w1) /\
    fs w1 !! eth0_backup = Some (Text mac_2) /\
    strip mac_2 = mac_2 /\
    validate_mac (strip mac_2) = true /\
    restore_mac eth0 eth0_backup w1 =
      (change_mac eth0 mac_2 ;;
       logging_info
         (Plain (py "Restored MAC address to " ++ mac_2 ++ py " on "
                 ++ eth0 ++ py "."))) w1.
Proof.
  intros w.
  apply (restore_after_write_invokes_mutator eth0 eth0_backup w).
  vm_compute. reflexivity.
Defined.

(** C4, as the code has it.  [restore_mac] never lets an exception escape.
    When the backup file is missing, locked, or holds text that is not an
    address, it appends one error record and returns.  It ends the process
    only when the backup holds a valid address and [change_mac] itself
    exits, and then with [change_mac]'s status 1 and final world. *)
Theorem restore_mac_exits_only_with_mutator
    (interface backup_file : pystr) (w : world) :
  (forall e, fst (restore_mac interface backup_file w) <> Raise e) /\
  ((forall s, fs w !! backup_file = Some (Text s) -> validate_mac (strip s) = false) ->
   exists m, restore_mac interface backup_file w = (Ret tt, logged ERROR m w)) /\
  (forall c, fst (restore_mac interface backup_file w) = Exit c ->
   c = 1%Z /\
   exists s, fs w !! backup_file = Some (Text s) /\
             validate_mac (strip s) = true /\
             fst (change_mac interface (strip s) w) = Exit 1 /\
             snd (restore_mac interface backup_file w)
               = snd (change_mac interface (strip s) w)).
Proof.
  rewrite restore_mac_eq.
  destruct (fs w !! backup_file) as [[s | | | | errno] |] eqn:Hfile.
  2-6: split; [| split]; simpl; [discriminate | eauto | discriminate].
  destruct (validate_mac (strip s)) eqn:Hvalid.
  2: { split; [| split]; simpl; [discriminate | eauto | discriminate]. }
  assert (Hgood : ~ (forall s', Some (Text s) = Some (Text s') ->
                                validate_mac (strip s') = false)).
  { intros Hbad. specialize (Hbad s eq_refl). congruence. }
  unfold bind, logging_info.
  pose proof (change_mac_outcome interface (strip s) w) as E.
  destruct (change_mac interface (strip s) w) as [o w'] eqn:Hcm.
  cbn [fst snd] in *. destruct E as [-> | ->].
  - split; [| split]; [discriminate | intros Hbad; destruct (Hgood Hbad) | discriminate].
  - split; [| split]; [discriminate | intros Hbad; destruct (Hgood Hbad) |].
    intros c [= <-]. split; [reflexivity |].
    exists s. now rewrite Hvalid, Hcm.
Qed.

Lemma restore_mac_exits_only_with_mutator_witness :
  exists m,
    restore_mac eth0 eth0_backup session_fresh
    = (Ret tt, logged ERROR m session_fresh).
Proof.
  apply (proj1 (proj2 (restore_mac_exits_only_with_mutator
                         eth0 eth0_backup session_fresh))).
  intros s H. vm_compute in H. discriminate.
Defined.

(** C4 as stated fails: with a valid backup and a failing [sudo], the
    restore ends the process with exit status 1. *)
Lemma restore_exits_when_mutator_fails :
  fs session_restore_fails !! eth0_backup = Some (Text mac_2) /\
  fst (restore_mac eth0 eth0_backup session_restore_fails) = Exit 1.
Proof. split; vm_compute; reflexivity. Qed.

(** ** The interface menu (C3) *)

Lemma print_menu_returns interfaces : forall i w,
  fst (print_menu i interfaces w) = Ret tt.
Proof.
  induction interfaces as [| iface more IH]; intros i w; [reflexivity |].
  cbn [print_menu]. unfold bind, print. apply IH.
Qed.


(** [get_interfaces] never returns an empty list. *)
Lemma get_interfaces_nonempty w interfaces w' :
  get_interfaces w = (Ret interfaces, w') -> interfaces <> [].
Proof.
  unfold get_interfaces. intros H.
  apply bind_ret_inv in H as (name & w0 & _ & H).
  apply bind_ret_inv in H as (l & w1 & _ & H).
  destruct l; [discriminate |]. injection H as <- _. discriminate.
Qed.

Lemma after_menu_frame interfaces w :
  history (after_menu interfaces w) = history w /\
  fs (after_menu interfaces w) = fs w /\
  log (after_menu interfaces w) = log w.
Proof.
  unfold after_menu.
  repeat split;
    match goal with
    | |- ?p (snd (?m w)) = _ => enough (K : preserves p m) by apply K
    end;
    frame; apply preserves_print_menu; reflexivity.
Qed.

(** Up to the selection, [main] is the run of its first steps. *)
Lemma main_reads_selection w w1 w2 interfaces line more :
  check_permissions w = (Ret tt, w1) ->
  get_interfaces w1 = (Ret interfaces, w2) ->
  stdin w2 = line :: more ->
  forall (k : list pystr -> pystr -> M unit),
    (check_permissions ;;
     l <- get_interfaces ;;
     print (py "Available network interfaces:") ;;
     print_menu 0 l ;;
     answer <- input (py "Select the interface to modify (1, 2, ...): ") ;;
     k l answer) w
    = k interfaces line (after_menu interfaces w2).
Proof.
  intros Hcp Hgi Hin k.
  rewrite (bind_ret_l _ _ _ _ _ Hcp), (bind_ret_l _ _ _ _ _ Hgi).
  unfold after_menu, bind, print. cbn [snd].
  set (wa := set_stdout _ w2).
  pose proof (print_menu_returns interfaces 0 wa) as Hret.
  assert (Hstdin : stdin (snd (print_menu 0 interfaces wa)) = line :: more).
  { rewrite <- Hin.
    transitivity (stdin wa); [| reflexivity].
    apply (preserves_print_menu stdin); reflexivity. }
  destruct (print_menu 0 interfaces wa) as [o wb]. cbn [fst snd] in *. subst o.
  unfold input. cbn [stdin set_stdout] in *. rewrite Hstdin. reflexivity.
Qed.





(** ** The prompt loop *)

(** The bound on the rounds of [ask_new_mac] is never the reason it stops:
    any bound that covers the waiting lines gives the same run. *)
Lemma ask_new_mac_bound : forall n m w,
  length (stdin w) <= n -> length (stdin w) <= m ->
  ask_new_mac n w = ask_new_mac m w.
Proof.
  assert (Hstep : forall n w,
    ask_new_mac n w =
      (line <- input (py "Enter the new MAC address (format: XX:XX:XX:XX:XX:XX): ") ;;
       if validate_mac (strip line) then ret (strip line)
       else
         print (py "Invalid MAC address format. Please try again.") ;;
         match n with
         | S n' => ask_new_mac n'
         | O => raise EOFError
         end) w) by (intros [| n] w; reflexivity).
  induction n as [| n IH]; intros m w Hn Hm.
  - rewrite (Hstep 0), (Hstep m). unfold bind at 1 3. unfold input.
    destruct (stdin w) eqn:E; cbn [stdin set_stdout] in *; rewrite E;
      [reflexivity | cbn in Hn; lia].
  - rewrite (Hstep (S n)), (Hstep m). unfold bind at 1 3. unfold input.
    destruct (stdin w) as [| l ls] eqn:E; cbn [stdin set_stdout] in *; rewrite E;
      [reflexivity |].
    destruct (validate_mac (strip l)); [reflexivity |].
    destruct m as [| m]; [cbn in Hm; lia |].
    unfold bind, print. apply IH; cbn in *; lia.
Qed.

(** * Further properties of the script *)

(** ** Which exceptions escape *)

Lemma raises_only_ret {A} P (a : A) : raises_only P (ret a).
Proof. intros w e. discriminate. Qed.

Lemma raises_only_sys_exit {A} P c : raises_only P (@sys_exit A c).
Proof. intros w e. discriminate. Qed.

Lemma raises_only_raise {A} (P : exn -> Prop) e : P e -> raises_only P (@raise A e).
Proof. intros H w e' [= <-]. exact H. Qed.

Lemma raises_only_bind {A B} P (m : M A) (f : A -> M B) :
  raises_only P m -> (forall a, raises_only P (f a)) -> raises_only P (bind m f).
Proof.
  intros Hm Hf w e. unfold bind. specialize (Hm w).
  destruct (m w) as [[a | e' | c] w']; cbn [fst] in *.
  - apply Hf.
  - intros [= <-]. now apply Hm.
  - discriminate.
Qed.

Lemma raises_only_try_except {A} P (m : M A) h :
  (forall e, raises_only P (h e)) -> raises_only P (try_except m h).
Proof.
  intros Hh w e. unfold try_except.
  destruct (m w) as [[a | e' | c] w']; cbn [fst]; [discriminate | apply Hh | discriminate].
Qed.

Lemma raises_only_mono {A} (P Q : exn -> Prop) (m : M A) :
  (forall e, P e -> Q e) -> raises_only P m -> raises_only Q m.
Proof. intros HPQ Hm w e H. apply HPQ, (Hm w e H). Qed.

Lemma raises_only_simple {A} P (m : M A) :
  (forall w, exists a, fst (m w) = Ret a) -> raises_only P m.
Proof. intros H w e E. destruct (H w) as [a Ha]. congruence. Qed.

Lemma raises_only_spawn P cmd : raises_only P (spawn cmd).
Proof. apply raises_only_simple. intros w. eexists. reflexivity. Qed.

Lemma raises_only_input P s : P EOFError -> raises_only P (input s).
Proof.
  intros H w e. unfold input.
  destruct (stdin (set_stdout (stdout w ++ [s]) w)); cbn [fst];
    [intros [= <-]; exact H | discriminate].
Qed.

Lemma raises_only_write_file (P : exn -> Prop) path s :
  (forall e, file_error e -> P e) -> raises_only P (write_file path s).
Proof.
  intros H w e. rewrite write_file_eq.
  destruct (fs w !! path) as [[| | | |] |]; cbn [open_refusal fst];
    try (intros [= <-]; apply H; unfold file_error; eauto 6);
    (destruct (encodable w s); cbn [fst];
     [discriminate | intros [= <-]; apply H; unfold file_error; eauto 6]).
Qed.

Lemma raises_only_print_menu P l : forall i, raises_only P (print_menu i l).
Proof.
  intros i w e H. now rewrite print_menu_returns in H.
Qed.

Lemma raises_only_ask_new_mac P n : P EOFError -> raises_only P (ask_new_mac n).
Proof.
  intros H. induction n as [| n IH]; cbn [ask_new_mac];
    (apply raises_only_bind; [now apply raises_only_input |]);
    intros line; destruct (validate_mac (strip line));
    try apply raises_only_ret;
    (apply raises_only_bind; [apply raises_only_simple; intros w; now eexists |]);
    intros _; [now apply raises_only_raise | exact IH].
Qed.

Lemma raises_only_prompt_new_mac P : P EOFError -> raises_only P prompt_new_mac.
Proof. intros H w. apply (raises_only_ask_new_mac P _ H). Qed.

(** Pushes [raises_only] through a definition. *)
Ltac only_raises :=
  repeat first
    [ apply raises_only_ret | apply raises_only_sys_exit
    | apply raises_only_spawn
    | apply raises_only_print_menu
    | apply raises_only_try_except; intros ?
    | apply raises_only_bind; [| intros ?]
    | apply raises_only_simple; intros ?; eexists; reflexivity
    | match goal with
      | |- raises_only _ (if ?b then _ else _) => destruct b
      | |- raises_only _ (match ?x with _ => _ end) => destruct x
      end ].

Lemma get_os_raises_nothing P : raises_only P get_os.
Proof. unfold get_os. only_raises. Qed.

Lemma check_permissions_raises_nothing P : raises_only P check_permissions.
Proof. unfold check_permissions. only_raises. Qed.

Lemma get_interfaces_raises_nothing P : raises_only P get_interfaces.
Proof.
  unfold get_interfaces.
  apply raises_only_bind; [apply get_os_raises_nothing | intros ?].
  only_raises.
Qed.

Lemma get_current_mac_raises_nothing P interface :
  raises_only P (get_current_mac interface).
Proof.
  unfold get_current_mac.
  apply raises_only_bind; [apply get_os_raises_nothing | intros ?].
  only_raises.
Qed.

Lemma change_mac_raises_nothing P interface new_mac :
  raises_only P (change_mac interface new_mac).
Proof.
  unfold change_mac.
  apply raises_only_bind; [apply get_os_raises_nothing | intros ?].
  only_raises.
Qed.

Lemma restore_mac_raises_nothing P interface backup_file :
  raises_only P (restore_mac interface backup_file).
Proof. unfold restore_mac. only_raises. Qed.

Lemma backup_mac_raises (P : exn -> Prop) interface backup_file :
  (forall e, file_error e -> P e) ->
  raises_only P (backup_mac interface backup_file).
Proof.
  intros H. unfold backup_mac.
  apply raises_only_bind; [apply get_current_mac_raises_nothing | intros o].
  destruct (truthy o); [| only_raises].
  apply raises_only_bind; [now apply raises_only_write_file | intros _].
  only_raises.
Qed.

(** X3.
    No failure of an external command ends [main] as an exception: a
    launch that fails and an exit status other than zero are caught where
    the command is run, in every function of the script.  Whatever
    exception ends [main] comes from somewhere else (the menu answer, the
    end of input, the backup file). *)
Theorem main_handles_command_failures (w : world) (e : exn) :
  fst (main w) = Raise e -> ~ command_failure e.
Proof.
  assert (Hfile : forall e', file_error e' -> ~ command_failure e').
  { intros e' [[p ->] | [[p ->] | [(n & p & ->) | ->]]] [H | (cmd & c & H)];
      discriminate. }
  assert (Hother : forall e', e' = ValueError \/ e' = IndexError \/ e' = EOFError ->
                              ~ command_failure e').
  { intros e' [-> | [-> | ->]] [H | (cmd & c & H)]; discriminate. }
  revert w e. change (raises_only (fun e => ~ command_failure e) main).
  unfold main.
  apply raises_only_bind; [apply check_permissions_raises_nothing | intros _].
  apply raises_only_bind; [apply get_interfaces_raises_nothing | intros interfaces].
  apply raises_only_bind; [only_raises | intros _].
  apply raises_only_bind; [apply raises_only_print_menu | intros _].
  apply raises_only_bind;
    [apply raises_only_input, Hother; auto | intros line].
  apply raises_only_bind.
  { destruct (py_int line); [apply raises_only_ret |].
    apply raises_only_raise, Hother. auto. }
  intros number. apply raises_only_bind.
  { destruct (py_index interfaces (number - 1)); [apply raises_only_ret |].
    apply raises_only_raise, Hother. auto. }
  intros interface.
  apply raises_only_bind; [apply backup_mac_raises, Hfile | intros _].
  apply raises_only_bind;
    [apply raises_only_prompt_new_mac, Hother; auto | intros new_mac].
  apply raises_only_bind; [apply change_mac_raises_nothing | intros _].
  apply raises_only_bind; [apply get_current_mac_raises_nothing | intros current].
  apply raises_only_bind; [only_raises | intros _].
  apply raises_only_bind;
    [apply raises_only_input, Hother; auto | intros answer].
  destruct (lower_is_y answer);
    [apply restore_mac_raises_nothing | apply raises_only_ret].
Qed.

Lemma main_handles_command_failures_witness :
  fst (main session_reader_fails) = Raise EOFError /\ ~ command_failure EOFError.
Proof.
  split; [vm_compute; reflexivity |].
  apply (main_handles_command_failures session_reader_fails EOFError).
  vm_compute. reflexivity.
Defined.

(** ** How the script exits *)

Lemma exits_after_error_never {A} (m : M A) :
  never_exits m -> exits_after_error m.
Proof. intros H w c E. now destruct (H w c). Qed.

Lemma exits_after_error_bind {A B} (m : M A) (f : A -> M B) :
  exits_after_error m -> (forall a, exits_after_error (f a)) ->
  exits_after_error (bind m f).
Proof.
  intros Hm Hf w c. unfold bind. specialize (Hm w).
  destruct (m w) as [[a | e | c'] w']; cbn [fst snd] in *.
  - apply Hf.
  - discriminate.
  - intros [= <-]. now apply Hm.
Qed.

Lemma exits_after_error_try_except {A} (m : M A) h :
  exits_after_error m -> (forall e, exits_after_error (h e)) ->
  exits_after_error (try_except m h).
Proof.
  intros Hm Hh w c. unfold try_except. specialize (Hm w).
  destruct (m w) as [[a | e | c'] w']; cbn [fst snd] in *.
  - discriminate.
  - apply Hh.
  - intros [= <-]. now apply Hm.
Qed.

(** The one way the script exits: an error record, then [sys.exit(1)]. *)
Lemma exits_after_error_log_exit {A} msg :
  exits_after_error (logging_error msg ;; @sys_exit A 1).
Proof.
  intros w c [= <-]. split; [reflexivity |].
  exists msg. cbn. apply last_snoc.
Qed.

Lemma never_exits_simple {A} (m : M A) :
  (forall w, exists a, fst (m w) = Ret a) -> never_exits m.
Proof. intros H w c E. destruct (H w) as [a Ha]. congruence. Qed.

Lemma never_exits_input s : never_exits (input s).
Proof.
  intros w c. unfold input.
  destruct (stdin (set_stdout (stdout w ++ [s]) w)); discriminate.
Qed.

Lemma never_exits_read_file path : never_exits (read_file path).
Proof.
  intros w c. unfold read_file.
  destruct (fs w !! path) as [[| | | |] |]; discriminate.
Qed.

Lemma never_exits_write_file path s : never_exits (write_file path s).
Proof.
  intros w c. rewrite write_file_eq.
  destruct (open_refusal path (fs w !! path)); [discriminate |].
  destruct (encodable w s); discriminate.
Qed.

Lemma never_exits_check_output cmd : never_exits (check_output cmd).
Proof.
  intros w c. unfold check_output, bind, spawn.
  destruct (exec w (history w) cmd) as [| rc out]; [discriminate |].
  destruct (rc =? 0)%Z; discriminate.
Qed.

Lemma never_exits_decode out : never_exits (decode out).
Proof. intros w c. destruct out; discriminate. Qed.

Lemma never_exits_print_menu l i : never_exits (print_menu i l).
Proof. intros w c H. now rewrite print_menu_returns in H. Qed.

Lemma never_exits_ask_new_mac n : never_exits (ask_new_mac n).
Proof.
  induction n as [| n IH]; cbn [ask_new_mac];
    (apply never_exits_bind; [apply never_exits_input |]);
    intros line; destruct (validate_mac (strip line));
    try apply never_exits_ret;
    (apply never_exits_bind; [apply never_exits_simple; intros w; now eexists |]);
    intros _; [apply never_exits_raise | exact IH].
Qed.

Lemma never_exits_prompt_new_mac : never_exits prompt_new_mac.
Proof. intros w. apply never_exits_ask_new_mac. Qed.

(** Pushes [exits_after_error] through a definition. *)
Ltac exits_logged :=
  repeat first
    [ apply exits_after_error_log_exit
    | apply exits_after_error_never;
      first [ apply never_exits_ret | apply never_exits_raise
            | apply never_exits_input | apply never_exits_read_file
            | apply never_exits_write_file | apply never_exits_check_output
            | apply never_exits_decode | apply never_exits_print_menu
            | apply never_exits_subprocess_run_check
            | apply never_exits_prompt_new_mac
            | apply never_exits_simple; intros ?; eexists; reflexivity ]
    | apply exits_after_error_try_except; [| intros ?]
    | apply exits_after_error_bind; [| intros ?]
    | match goal with
      | |- exits_after_error (if ?b then _ else _) => destruct b
      | |- exits_after_error (match ?x with _ => _ end) => destruct x
      end ].

Lemma get_os_exits : exits_after_error get_os.
Proof. unfold get_os. exits_logged. Qed.

Lemma check_permissions_exits : exits_after_error check_permissions.
Proof. unfold check_permissions. exits_logged. Qed.

Lemma get_interfaces_exits : exits_after_error get_interfaces.
Proof.
  unfold get_interfaces.
  apply exits_after_error_bind; [apply get_os_exits | intros ?]. exits_logged.
Qed.

Lemma get_current_mac_exits interface : exits_after_error (get_current_mac interface).
Proof.
  unfold get_current_mac.
  apply exits_after_error_bind; [apply get_os_exits | intros ?]. exits_logged.
Qed.

Lemma change_mac_exits interface new_mac :
  exits_after_error (change_mac interface new_mac).
Proof.
  unfold change_mac.
  apply exits_after_error_bind; [apply get_os_exits | intros ?]. exits_logged.
Qed.

Lemma backup_mac_exits interface backup_file :
  exits_after_error (backup_mac interface backup_file).
Proof.
  unfold backup_mac.
  apply exits_after_error_bind; [apply get_current_mac_exits | intros ?].
  exits_logged.
Qed.

Lemma restore_mac_exits interface backup_file :
  exits_after_error (restore_mac interface backup_file).
Proof.
  unfold restore_mac.
  apply exits_after_error_try_except; [| intros ?; exits_logged].
  apply exits_after_error_bind; [exits_logged | intros content].
  destruct (validate_mac (strip content)); [| exits_logged].
  apply exits_after_error_bind; [apply change_mac_exits | intros ?].
  exits_logged.
Qed.

(** X4.
    Whenever [main] ends in [sys.exit], the status is 1 and the last thing
    the script logged is an error record: it never exits silently and never
    with another status. *)
Theorem main_exits_with_error_logged (w : world) (c : Z) :
  fst (main w) = Exit c ->
  c = 1%Z /\ exists msg, last (log (snd (main w))) = Some (ERROR, msg).
Proof.
  revert w c. change (exits_after_error main). unfold main.
  apply exits_after_error_bind; [apply check_permissions_exits | intros _].
  apply exits_after_error_bind; [apply get_interfaces_exits | intros interfaces].
  apply exits_after_error_bind; [exits_logged | intros _].
  apply exits_after_error_bind; [exits_logged | intros _].
  apply exits_after_error_bind; [exits_logged | intros line].
  apply exits_after_error_bind; [exits_logged | intros number].
  apply exits_after_error_bind; [exits_logged | intros interface].
  apply exits_after_error_bind; [apply backup_mac_exits | intros _].
  apply exits_after_error_bind; [exits_logged | intros new_mac].
  apply exits_after_error_bind; [apply change_mac_exits | intros _].
  apply exits_after_error_bind; [apply get_current_mac_exits | intros current].
  apply exits_after_error_bind; [exits_logged | intros _].
  apply exits_after_error_bind; [exits_logged | intros answer].
  destruct (lower_is_y answer); [apply restore_mac_exits | exits_logged].
Qed.

Lemma main_exits_with_error_logged_witness :
  fst (main session_non_root) = Exit 1 /\
  exists msg, last (log (snd (main session_non_root))) = Some (ERROR, msg).
Proof.
  split; [vm_compute; reflexivity |].
  apply (main_exits_with_error_logged session_non_root 1).
  vm_compute. reflexivity.
Defined.

(** ** What the script leaves alone *)

Lemma preserves_ask_new_mac {X} (proj : world -> X) n :
  (forall l w, proj (set_stdout l w) = proj w) ->
  (forall l w, proj (set_stdin l w) = proj w) ->
  preserves proj (ask_new_mac n).
Proof.
  intros Hout Hin. induction n as [| n IH]; cbn [ask_new_mac];
    (apply preserves_bind; [now apply preserves_input |]);
    intros line; destruct (validate_mac (strip line));
    try apply preserves_ret;
    (apply preserves_bind; [now apply preserves_print |]);
    intros _; [apply preserves_raise | exact IH].
Qed.

Lemma preserves_prompt_new_mac {X} (proj : world -> X) :
  (forall l w, proj (set_stdout l w) = proj w) ->
  (forall l w, proj (set_stdin l w) = proj w) ->
  preserves proj prompt_new_mac.
Proof. intros Hout Hin w. now apply preserves_ask_new_mac. Qed.

Lemma preserves_write_file_history path s : preserves history (write_file path s).
Proof.
  intros w. rewrite write_file_eq.
  destruct (open_refusal path (fs w !! path)); [reflexivity |].
  now destruct (encodable w s).
Qed.

Lemma preserves_write_file_log path s : preserves log (write_file path s).
Proof.
  intros w. rewrite write_file_eq.
  destruct (open_refusal path (fs w !! path)); [reflexivity |].
  now destruct (encodable w s).
Qed.

(** Writing one file leaves every other file alone. *)
Lemma preserves_write_file_other path other s :
  other <> path -> preserves (fun w => fs w !! other) (write_file path s).
Proof.
  intros Hne w. rewrite write_file_eq.
  destruct (open_refusal path (fs w !! path)); [reflexivity |].
  destruct (encodable w s); cbn; now apply lookup_insert_ne.
Qed.

Lemma restore_mac_keeps_fs interface backup_file :
  preserves fs (restore_mac interface backup_file).
Proof. unfold restore_mac. frame. Qed.

Lemma get_interfaces_keeps_fs : preserves fs get_interfaces.
Proof. unfold get_interfaces. frame. Qed.

Lemma check_permissions_keeps_fs : preserves fs check_permissions.
Proof. unfold check_permissions. frame. Qed.

(** [backup_mac] changes at most its backup file. *)
Lemma backup_mac_keeps_other interface backup_file other :
  other <> backup_file ->
  preserves (fun w => fs w !! other) (backup_mac interface backup_file).
Proof.
  intros Hne. unfold backup_mac.
  apply preserves_bind.
  { intros w. cbn beta. now rewrite get_current_mac_keeps_fs. }
  intros o. destruct (truthy o); [| frame].
  apply preserves_bind; [now apply preserves_write_file_other | intros _].
  frame.
Qed.

Lemma preserves_fs_lookup {A} (m : M A) other :
  preserves fs m -> preserves (fun w => fs w !! other) m.
Proof. intros H w. cbn beta. now rewrite H. Qed.

(** X6.
    The only files a run of [main] can create or change are backup files:
    a path that is not some name followed by [_mac_backup.txt] holds after
    the run what it held before.  (The log file is not among the files of
    the model: it is the log stream.) *)
Theorem main_writes_only_backup_files (w : world) (path : pystr) :
  (forall name, path <> name ++ py "_mac_backup.txt") ->
  fs (snd (main w)) !! path = fs w !! path.
Proof.
  intros Hpath. revert w.
  change (preserves (fun w => fs w !! path) main). unfold main.
  apply preserves_bind;
    [apply preserves_fs_lookup, check_permissions_keeps_fs | intros _].
  apply preserves_bind;
    [apply preserves_fs_lookup, get_interfaces_keeps_fs | intros interfaces].
  apply preserves_bind; [frame | intros _].
  apply preserves_bind; [apply preserves_print_menu; reflexivity | intros _].
  apply preserves_bind; [frame | intros line].
  apply preserves_bind; [frame | intros number].
  apply preserves_bind; [frame | intros interface].
  apply preserves_bind; [apply backup_mac_keeps_other, Hpath | intros _].
  apply preserves_bind; [apply preserves_prompt_new_mac; reflexivity | intros new_mac].
  apply preserves_bind;
    [apply preserves_fs_lookup, change_mac_keeps_fs | intros _].
  apply preserves_bind;
    [apply preserves_fs_lookup, get_current_mac_keeps_fs | intros current].
  apply preserves_bind; [frame | intros _].
  apply preserves_bind; [frame | intros answer].
  destruct (lower_is_y answer);
    [apply preserves_fs_lookup, restore_mac_keeps_fs | frame].
Qed.

Lemma main_writes_only_backup_files_witness :
  fs (snd (main session_select_zero)) !! py "/etc/network/interfaces"
  = fs session_select_zero !! py "/etc/network/interfaces".
Proof.
  apply (main_writes_only_backup_files session_select_zero
           (py "/etc/network/interfaces")).
  intros name H.
  apply (f_equal (fun s => last s)) in H.
  rewrite last_app in H. vm_compute in H. discriminate.
Defined.

(** ** A selection on the menu *)

Lemma py_index_in_range {A} (l : list A) (i : Z) :
  (0 <= i < Z.of_nat (length l))%Z ->
  py_index l i = nth_error l (Z.to_nat i).
Proof.
  intros H. unfold py_index.
  destruct (Z.leb_spec 0 i); [| lia].
  destruct (Z.ltb_spec i (Z.of_nat (length l))); [reflexivity | lia].
Qed.

(** From the backup on, [main] changes at most the backup file of the
    interface it works on. *)
Lemma after_selection_keeps_other interface path :
  path <> interface ++ py "_mac_backup.txt" ->
  preserves (fun w => fs w !! path)
    (backup_mac interface (interface ++ py "_mac_backup.txt") ;;
     new_mac <- prompt_new_mac ;;
     change_mac interface new_mac ;;
     current_mac <- get_current_mac interface ;;
     (if bool_decide (current_mac = Some new_mac)
      then print (py "Success! MAC address changed to "
                  ++ default [] current_mac ++ py ".")
      else ret tt) ;;
     answer <- input (py "Do you want to restore the original MAC address? (y/n): ") ;;
     if lower_is_y answer
     then restore_mac interface (interface ++ py "_mac_backup.txt")
     else ret tt).
Proof.
  intros Hpath.
  apply preserves_bind; [now apply backup_mac_keeps_other | intros _].
  apply preserves_bind; [apply preserves_prompt_new_mac; reflexivity | intros new_mac].
  apply preserves_bind;
    [apply preserves_fs_lookup, change_mac_keeps_fs | intros _].
  apply preserves_bind;
    [apply preserves_fs_lookup, get_current_mac_keeps_fs | intros current].
  apply preserves_bind; [frame | intros _].
  apply preserves_bind; [frame | intros answer].
  destruct (lower_is_y answer);
    [apply preserves_fs_lookup, restore_mac_keeps_fs | frame].
Qed.

Ltac main_to_selection_within Hcp Hgi Hin :=
  match goal with
  | |- context [bind check_permissions (fun _ => bind get_interfaces (fun l =>
         bind _ (fun _ => bind _ (fun _ =>
           bind _ (fun answer => @?k l answer))))) _] =>
      rewrite (main_reads_selection _ _ _ _ _ _ Hcp Hgi Hin k); cbv beta
  end.

(** *** The commands a computation runs *)

Lemma runs_only_same {A} P (m : M A) : preserves history m -> runs_only P m.
Proof. intros H w. exists []. rewrite H, app_nil_r. auto. Qed.

Lemma runs_only_bind {A B} P (m : M A) (f : A -> M B) :
  runs_only P m -> (forall a, runs_only P (f a)) -> runs_only P (bind m f).
Proof.
  intros Hm Hf w. unfold bind. destruct (Hm w) as (c1 & H1 & F1).
  destruct (m w) as [[a | e | c] w']; cbn [snd] in *; eauto.
  destruct (Hf a w') as (c2 & H2 & F2).
  exists (c1 ++ c2). rewrite H2, H1, app_assoc. split; [reflexivity |].
  now apply Forall_app.
Qed.

Lemma runs_only_try_except {A} P (m : M A) h :
  runs_only P m -> (forall e, runs_only P (h e)) -> runs_only P (try_except m h).
Proof.
  intros Hm Hh w. unfold try_except. destruct (Hm w) as (c1 & H1 & F1).
  destruct (m w) as [[a | e | c] w']; cbn [snd] in *; eauto.
  destruct (Hh e w') as (c2 & H2 & F2).
  exists (c1 ++ c2). rewrite H2, H1, app_assoc. split; [reflexivity |].
  now apply Forall_app.
Qed.

Lemma runs_only_spawn (P : argv -> Prop) cmd : P cmd -> runs_only P (spawn cmd).
Proof. intros H w. exists [cmd]. split; [reflexivity | auto]. Qed.

Lemma runs_only_subprocess_run_check (P : argv -> Prop) cmd :
  P cmd -> runs_only P (subprocess_run_check cmd).
Proof.
  intros H. apply runs_only_bind; [now apply runs_only_spawn | intros r].
  apply runs_only_same. destruct (run_error cmd r); frame.
Qed.

Lemma runs_only_check_output (P : argv -> Prop) cmd :
  P cmd -> runs_only P (check_output cmd).
Proof.
  intros H. apply runs_only_bind; [now apply runs_only_spawn | intros r].
  apply runs_only_same. frame.
Qed.

(** Pushes [runs_only] through a definition. *)
Ltac only_runs :=
  repeat first
    [ apply runs_only_try_except; [| intros ?]
    | apply runs_only_bind; [| intros ?]
    | apply runs_only_same;
      first [ apply get_os_keeps; reflexivity
            | apply preserves_write_file_history
            | apply preserves_prompt_new_mac; reflexivity
            | solve [frame] ]
    | match goal with
      | |- runs_only _ (if ?b then _ else _) => destruct b
      | |- runs_only _ (match ?x with _ => _ end) => destruct x
      end ].

Lemma get_current_mac_runs interface :
  runs_only (about interface) (get_current_mac interface).
Proof.
  unfold get_current_mac.
  apply runs_only_bind; [apply runs_only_same, get_os_keeps; reflexivity | intros os_type].
  apply runs_only_try_except; [| intros e; only_runs].
  destruct (str_eqb os_type (py "linux") || str_eqb os_type (py "macos")).
  - apply runs_only_bind;
      [apply runs_only_check_output; unfold about; auto | intros out; only_runs].
  - destruct (str_eqb os_type (py "windows")); [| only_runs].
    apply runs_only_bind;
      [apply runs_only_check_output; unfold about; auto | intros out; only_runs].
Qed.

Lemma change_mac_runs interface new_mac :
  runs_only (about interface) (change_mac interface new_mac).
Proof.
  unfold change_mac.
  apply runs_only_bind; [apply runs_only_same, get_os_keeps; reflexivity | intros os_type].
  apply runs_only_try_except; [| intros e; only_runs].
  apply runs_only_bind; [| intros _; only_runs].
  destruct (str_eqb os_type (py "linux")).
  { repeat (apply runs_only_bind; [| intros _]);
      apply runs_only_subprocess_run_check; unfold about;
      [auto | right; right; right; right; exists new_mac; auto | auto 6]. }
  destruct (str_eqb os_type (py "macos")).
  { apply runs_only_subprocess_run_check. unfold about.
    right; right; right; right; exists new_mac; auto. }
  destruct (str_eqb os_type (py "windows")); [| only_runs].
  apply runs_only_subprocess_run_check. unfold about.
  right; right; right; right; exists new_mac; auto.
Qed.

Lemma backup_mac_runs interface backup_file :
  runs_only (about interface) (backup_mac interface backup_file).
Proof.
  unfold backup_mac.
  apply runs_only_bind; [apply get_current_mac_runs | intros o].
  destruct (truthy o); [| only_runs].
  apply runs_only_bind;
    [apply runs_only_same, preserves_write_file_history | intros _; only_runs].
Qed.

Lemma restore_mac_runs interface backup_file :
  runs_only (about interface) (restore_mac interface backup_file).
Proof.
  unfold restore_mac.
  apply runs_only_try_except; [| intros e; only_runs].
  apply runs_only_bind; [only_runs | intros content].
  destruct (validate_mac (strip content)); [| only_runs].
  apply runs_only_bind; [apply change_mac_runs | intros _; only_runs].
Qed.

(** From the backup on, [main] runs only commands about the interface it
    works on. *)
Lemma after_selection_runs interface :
  runs_only (about interface)
    (backup_mac interface (interface ++ py "_mac_backup.txt") ;;
     new_mac <- prompt_new_mac ;;
     change_mac interface new_mac ;;
     current_mac <- get_current_mac interface ;;
     (if bool_decide (current_mac = Some new_mac)
      then print (py "Success! MAC address changed to "
                  ++ default [] current_mac ++ py ".")
      else ret tt) ;;
     answer <- input (py "Do you want to restore the original MAC address? (y/n): ") ;;
     if lower_is_y answer
     then restore_mac interface (interface ++ py "_mac_backup.txt")
     else ret tt).
Proof.
  apply runs_only_bind; [apply backup_mac_runs | intros _].
  apply runs_only_bind;
    [apply runs_only_same, preserves_prompt_new_mac; reflexivity | intros new_mac].
  apply runs_only_bind; [apply change_mac_runs | intros _].
  apply runs_only_bind; [apply get_current_mac_runs | intros current].
  apply runs_only_bind; [apply runs_only_same; frame | intros _].
  apply runs_only_bind; [apply runs_only_same; frame | intros answer].
  destruct (lower_is_y answer);
    [apply restore_mac_runs | apply runs_only_same; frame].
Qed.

(** X7.
    A selection [k] that is on the menu makes [main] work on entry [k-1] of
    the list, and on no other: that entry exists, every command run after
    the listing is the reader's or the mutator's command for that
    interface, and the only file the run can create or change is the
    backup file of that interface. *)
Theorem menu_selection_picks_entry
    (w w1 w2 : world) (interfaces : list pystr) (line : pystr)
    (more : list pystr) (k : Z) :
  check_permissions w = (Ret tt, w1) ->
  get_interfaces w1 = (Ret interfaces, w2) ->
  stdin w2 = line :: more ->
  py_int line = Some k ->
  on_menu (length interfaces) k ->
  exists interface cmds,
    nth_error interfaces (Z.to_nat (k - 1)) = Some interface /\
    history (snd (main w)) = history w2 ++ cmds /\
    Forall (about interface) cmds /\
    forall path, path <> interface ++ py "_mac_backup.txt" ->
                 fs (snd (main w)) !! path = fs w !! path.
Proof.
  intros Hcp Hgi Hin Hint [Hlo Hhi].
  destruct (nth_error interfaces (Z.to_nat (k - 1))) as [interface |] eqn:Hnth.
  2: { apply nth_error_None in Hnth. lia. }
  exists interface.
  assert (E : main w =
    (backup_mac interface (interface ++ py "_mac_backup.txt") ;;
     new_mac <- prompt_new_mac ;;
     change_mac interface new_mac ;;
     current_mac <- get_current_mac interface ;;
     (if bool_decide (current_mac = Some new_mac)
      then print (py "Success! MAC address changed to "
                  ++ default [] current_mac ++ py ".")
      else ret tt) ;;
     answer <- input (py "Do you want to restore the original MAC address? (y/n): ") ;;
     if lower_is_y answer
     then restore_mac interface (interface ++ py "_mac_backup.txt")
     else ret tt) (after_menu interfaces w2)).
  { unfold main. main_to_selection_within Hcp Hgi Hin.
    rewrite Hint. unfold bind at 1. unfold ret.
    rewrite py_index_in_range, Hnth by lia. unfold bind at 1. reflexivity. }
  destruct (after_menu_frame interfaces w2) as (Hh & Hf & _).
  destruct (after_selection_runs interface (after_menu interfaces w2))
    as (cmds & Hcmds & Hall).
  exists cmds. split; [reflexivity |]. rewrite E. split; [| split].
  - now rewrite Hcmds, Hh.
  - exact Hall.
  - intros path Hpath.
    rewrite (after_selection_keeps_other interface path Hpath), Hf.
    pose proof (get_interfaces_keeps_fs w1) as K1. rewrite Hgi in K1.
    pose proof (check_permissions_keeps_fs w) as K2. rewrite Hcp in K2.
    cbn [snd] in *. now rewrite K1, K2.
Qed.

Lemma menu_selection_picks_entry_witness :
  let w := session_second_interface in
  history (snd (main w)) =
    [ [py "ifconfig"]; cmd_ifconfig wlan0;
      cmd_down wlan0; cmd_set wlan0 mac_2; cmd_up wlan0; cmd_ifconfig wlan0;
      cmd_down wlan0; cmd_set wlan0 mac_3; cmd_up wlan0 ] /\
  exists interface cmds,
    nth_error [eth0; wlan0] (Z.to_nat (2 - 1)) = Some interface /\
    history (snd (main w)) = [[py "ifconfig"]] ++ cmds /\
    Forall (about interface) cmds /\
    forall path, path <> interface ++ py "_mac_backup.txt" ->
                 fs (snd (main w)) !! path = fs w !! path.
Proof.
  intros w. split; [vm_compute; reflexivity |].
  apply (menu_selection_picks_entry w w (snd (get_interfaces w)) [eth0; wlan0]
           (py "2") [mac_2; py "y"] 2).
  - vm_compute. reflexivity.
  - vm_compute. reflexivity.
  - vm_compute. reflexivity.
  - vm_compute. reflexivity.
  - unfold on_menu. simpl. lia.
Defined.

(** ** The other platforms *)

Lemma get_os_macos w :
  startswith (sys_platform w) (py "darwin") = true ->
  get_os w = (Ret (py "macos"), w).
Proof.
  intros H. unfold get_os, bind, get_platform.
  destruct (sys_platform w) as [| c s]; [discriminate |].
  change (startswith (c :: s) (py "darwin"))
    with ((100 =? c)%N && startswith s (py "arwin")) in H.
  change (startswith (c :: s) (py "linux"))
    with ((108 =? c)%N && startswith s (py "inux")).
  apply andb_prop in H as [Hc H]. apply N.eqb_eq in Hc. subst c.
  cbn [N.eqb Pos.eqb andb].
  change (startswith (100%N :: s) (py "darwin"))
    with ((100 =? 100)%N && startswith s (py "arwin")).
  now rewrite H.
Qed.

Lemma get_os_windows w :
  startswith (sys_platform w) (py "win") = true ->
  get_os w = (Ret (py "windows"), w).
Proof.
  intros H. unfold get_os, bind, get_platform.
  destruct (sys_platform w) as [| c s]; [discriminate |].
  change (startswith (c :: s) (py "win"))
    with ((119 =? c)%N && startswith s (py "in")) in H.
  change (startswith (c :: s) (py "linux"))
    with ((108 =? c)%N && startswith s (py "inux")).
  change (startswith (c :: s) (py "darwin"))
    with ((100 =? c)%N && startswith s (py "arwin")).
  apply andb_prop in H as [Hc H]. apply N.eqb_eq in Hc. subst c.
  cbn [N.eqb Pos.eqb andb].
  change (startswith (119%N :: s) (py "win"))
    with ((119 =? 119)%N && startswith s (py "in")).
  now rewrite H.
Qed.

Lemma get_os_unsupported w :
  unsupported w ->
  get_os w =
    (Exit 1, logged ERROR (Plain (py "Unsupported operating system.")) w).
Proof.
  intros (H1 & H2 & H3). unfold get_os, bind, get_platform.
  now rewrite H1, H2, H3.
Qed.

(** A mutator that consists of one command. *)
Lemma single_command_mutation interface new_mac cmd w :
  try_except
    (subprocess_run_check cmd ;;
     logging_info
       (Plain (py "MAC address changed to " ++ new_mac ++ py " on "
               ++ interface ++ py ".")))
    (fun e =>
       logging_error (With_exn (py "Error changing MAC address: ") e) ;;
       sys_exit 1) w
  = match run_error cmd (exec w (history w) cmd) with
    | Some e => mutation_failed w [cmd] e
    | None =>
        (Ret tt,
         logged INFO
           (Plain (py "MAC address changed to " ++ new_mac ++ py " on "
                   ++ interface ++ py "."))
           (set_history (history w ++ [cmd]) w))
    end.
Proof.
  unfold try_except, bind. rewrite subprocess_run_check_eq.
  destruct (run_error cmd (exec w (history w) cmd)); reflexivity.
Qed.

(** X8.
    On macOS [change_mac] runs the one command
    [sudo ifconfig <interface> ether <address>], without taking the
    interface down first.  If it cannot be launched or exits with a status
    other than zero, the error is logged and the process exits with status
    1; otherwise one information record is logged. *)
Theorem change_mac_macos_single_command (interface new_mac : pystr) (w : world) :
  startswith (sys_platform w) (py "darwin") = true ->
  let cmd := cmd_macos interface new_mac in
  change_mac interface new_mac w =
    match run_error cmd (exec w (history w) cmd) with
    | Some e => mutation_failed w [cmd] e
    | None =>
        (Ret tt,
         logged INFO
           (Plain (py "MAC address changed to " ++ new_mac ++ py " on "
                   ++ interface ++ py "."))
           (set_history (history w ++ [cmd]) w))
    end.
Proof.
  intros Hmac cmd. unfold change_mac.
  rewrite (bind_ret_l _ _ _ _ _ (get_os_macos w Hmac)).
  change (str_eqb (py "macos") (py "linux")) with false.
  change (str_eqb (py "macos") (py "macos")) with true. cbv iota.
  apply single_command_mutation.
Qed.

Lemma change_mac_macos_single_command_witness :
  change_mac eth0 mac_2 session_macos =
    (Ret tt,
     logged INFO
       (Plain (py "MAC address changed to " ++ mac_2 ++ py " on " ++ eth0 ++ py "."))
       (set_history [cmd_macos eth0 mac_2] session_macos)).
Proof.
  exact (change_mac_macos_single_command eth0 mac_2 session_macos eq_refl).
Defined.

(** X9.
    On Windows [change_mac] runs the one command
    [netsh interface set interface <interface> newmac=<address>], with the
    address glued to [newmac=] in a single argument; failure is handled as
    on the other platforms. *)
Theorem change_mac_windows_single_command (interface new_mac : pystr) (w : world) :
  startswith (sys_platform w) (py "win") = true ->
  let cmd := cmd_windows interface new_mac in
  change_mac interface new_mac w =
    match run_error cmd (exec w (history w) cmd) with
    | Some e => mutation_failed w [cmd] e
    | None =>
        (Ret tt,
         logged INFO
           (Plain (py "MAC address changed to " ++ new_mac ++ py " on "
                   ++ interface ++ py "."))
           (set_history (history w ++ [cmd]) w))
    end.
Proof.
  intros Hwin cmd. unfold change_mac.
  rewrite (bind_ret_l _ _ _ _ _ (get_os_windows w Hwin)).
  change (str_eqb (py "windows") (py "linux")) with false.
  change (str_eqb (py "windows") (py "macos")) with false.
  change (str_eqb (py "windows") (py "windows")) with true. cbv iota.
  apply single_command_mutation.
Qed.

Lemma change_mac_windows_single_command_witness :
  change_mac eth0 mac_2 session_windows =
    (Ret tt,
     logged INFO
       (Plain (py "MAC address changed to " ++ mac_2 ++ py " on " ++ eth0 ++ py "."))
       (set_history [cmd_windows eth0 mac_2] session_windows)).
Proof.
  exact (change_mac_windows_single_command eth0 mac_2 session_windows eq_refl).
Defined.

(** What [subprocess.check_output(cmd)] does in one step. *)
Lemma check_output_eq (cmd : argv) (w : world) :
  check_output cmd w =
    (match exec w (history w) cmd with
     | Launch_failed => Raise LaunchError
     | Exited c out =>
         if (c =? 0)%Z then Ret out else Raise (CalledProcessError cmd c)
     end,
     set_history (history w ++ [cmd]) w).
Proof.
  unfold check_output, bind, spawn.
  destruct (exec w (history w) cmd) as [| c out]; [reflexivity |].
  destruct (c =? 0)%Z; reflexivity.
Qed.

(** X10.
    On Windows the privilege check is one run of [whoami /priv]: it passes
    exactly when the command can be launched and exits with status zero,
    whatever the command prints, and otherwise logs and exits with
    status 1. *)
Theorem check_permissions_windows (w : world) :
  startswith (sys_platform w) (py "win") = true ->
  check_permissions w =
    match run_error cmd_whoami (exec w (history w) cmd_whoami) with
    | None => (Ret tt, set_history (history w ++ [cmd_whoami]) w)
    | Some _ =>
        (Exit 1,
         logged ERROR (Plain (py "This script requires administrator privileges."))
           (set_history (history w ++ [cmd_whoami]) w))
    end.
Proof.
  intros Hwin. unfold check_permissions, bind at 1, get_platform.
  destruct (sys_platform w) as [| c s] eqn:Hp; [discriminate |].
  change (startswith (c :: s) (py "win"))
    with ((119 =? c)%N && startswith s (py "in")) in Hwin.
  apply andb_prop in Hwin as [Hc Hwin]. apply N.eqb_eq in Hc. subst c.
  change (startswith (119%N :: s) (py "linux")) with false.
  change (startswith (119%N :: s) (py "darwin")) with false.
  change (startswith (119%N :: s) (py "win"))
    with ((119 =? 119)%N && startswith s (py "in")).
  rewrite Hwin. cbn [N.eqb Pos.eqb andb orb].
  fold cmd_whoami. unfold try_except, bind, run_error.
  rewrite check_output_eq.
  destruct (exec w (history w) cmd_whoami) as [| rc out]; [reflexivity |].
  destruct (rc =? 0)%Z; reflexivity.
Qed.

Lemma check_permissions_windows_witness :
  check_permissions session_windows =
    (Ret tt, set_history [cmd_whoami] session_windows).
Proof.
  exact (check_permissions_windows session_windows eq_refl).
Defined.

(** X11.
    On a platform that is neither Linux, macOS nor Windows the privilege
    check does nothing, whoever the user is, and the run ends at the first
    platform test: [main] logs "Unsupported operating system." and exits
    with status 1 without running any command.  [get_interfaces],
    [get_current_mac] and [change_mac] end the same way when called on such
    a platform: the MAC Reader does not return an absent value there. *)
Theorem unsupported_platform_exits (interface new_mac : pystr) (w : world) :
  unsupported w ->
  let stop : world :=
    logged ERROR (Plain (py "Unsupported operating system.")) w in
  check_permissions w = (Ret tt, w) /\
  main w = (Exit 1, stop) /\
  get_interfaces w = (Exit 1, stop) /\
  get_current_mac interface w = (Exit 1, stop) /\
  change_mac interface new_mac w = (Exit 1, stop).
Proof.
  intros Hun stop. pose proof (get_os_unsupported w Hun) as Hos.
  assert (Hcp : check_permissions w = (Ret tt, w)).
  { destruct Hun as (H1 & H2 & H3).
    unfold check_permissions, bind, get_platform. now rewrite H1, H2, H3. }
  assert (Hgi : get_interfaces w = (Exit 1, stop)).
  { unfold get_interfaces. now rewrite (bind_exits _ _ _ _ _ Hos). }
  repeat split.
  - exact Hcp.
  - unfold main. rewrite (bind_ret_l _ _ _ _ _ Hcp).
    now rewrite (bind_exits _ _ _ _ _ Hgi).
  - exact Hgi.
  - unfold get_current_mac. now rewrite (bind_exits _ _ _ _ _ Hos).
  - unfold change_mac. now rewrite (bind_exits _ _ _ _ _ Hos).
Qed.

Lemma unsupported_platform_exits_witness :
  main session_freebsd =
    (Exit 1,
     logged ERROR (Plain (py "Unsupported operating system.")) session_freebsd).
Proof.
  apply (unsupported_platform_exits eth0 mac_2 session_freebsd).
  repeat split.
Defined.

(** ** The interface enumerator on Unix *)

(** The greedy [+] reads the longest run of its atom when nothing after it
    can fail. *)
Lemma many_longest a : forall x y st,
  rest st = x ++ y ->
  forallb (atom_ok a) x = true ->
  match y with c :: _ => atom_ok a c = false | [] => True end ->
  exists p,
    many a (x ++ y) st Some
    = Some (MState p y (consumed st + length x) (group1 st)).
Proof.
  induction x as [| c x IH]; intros y st Hrest Hx Hy.
  - exists (prev st). cbn [app length] in *. rewrite Nat.add_0_r.
    destruct st as [p r n g]. cbn in *. subst r.
    destruct y as [| d y]; [reflexivity |]. cbn. now rewrite Hy.
  - cbn [forallb] in Hx. apply andb_prop in Hx as [Hc Hx].
    cbn [app many]. rewrite Hc.
    destruct (IH y (advance c (x ++ y) st) eq_refl Hx Hy) as [p Hp].
    exists p. rewrite Hp. cbn. do 2 f_equal. lia.
Qed.

(** What a successful greedy [+] has read. *)
Lemma many_read a : forall s st r,
  rest st = s ->
  many a s st Some = Some r ->
  exists x,
    s = x ++ rest r /\ forallb (atom_ok a) x = true /\
    consumed r = consumed st + length x /\ group1 r = group1 st.
Proof.
  induction s as [| c t IH]; intros st r Hrest H; cbn in H.
  - injection H as <-. exists []. rewrite Hrest. repeat split. cbn. lia.
  - destruct (atom_ok a c) eqn:Hc.
    + destruct (many a t (advance c t st) Some) as [r' |] eqn:E.
      * injection H as <-.
        apply IH in E as (x & Hx & Hall & Hcons & Hgrp); [| reflexivity].
        exists (c :: x). cbn in *. rewrite Hc, Hall, <- Hx, Hcons.
        repeat split; [lia | assumption].
      * injection H as <-. exists []. rewrite Hrest. repeat split. cbn. lia.
    + injection H as <-. exists []. rewrite Hrest. repeat split. cbn. lia.
Qed.

Lemma is_word_not_newline c : is_word c = true -> c <> LF.
Proof. intros H ->. vm_compute in H. discriminate. Qed.

(** At the start of a line, [^\w+] matches the whole leading word. *)
Lemma unix_match_at_bol p x y :
  p = None \/ p = Some LF ->
  word_name x -> no_word_start y ->
  exists q,
    rmatch true unix_iface_pattern (start_at p (x ++ y)) Some
    = Some (MState q y (length x) None).
Proof.
  intros Hp [Hne Hx] Hy. destruct x as [| c x]; [contradiction |].
  cbn [forallb] in Hx. apply andb_prop in Hx as [Hc Hx].
  assert (Hbol : at_bol true (start_at p ((c :: x) ++ y)) = true)
    by (destruct Hp as [-> | ->]; reflexivity).
  unfold unix_iface_pattern. cbn [rmatch]. rewrite Hbol.
  cbn [app start_at rest atom_ok]. rewrite Hc.
  destruct (many_longest Word_char x y
              (advance c (x ++ y) (MState p (c :: x ++ y) 0 None))
              eq_refl Hx Hy) as [q Hq].
  exists q. exact Hq.
Qed.

(** Away from the start of a line a pattern that begins with [^] does not
    match. *)
Lemma bol_pattern_needs_bol r q s :
  q <> LF -> rmatch true (Cat Bol r) (start_at (Some q) s) Some = None.
Proof.
  intros Hq. cbn [rmatch]. unfold at_bol. cbn [prev start_at].
  now apply N.eqb_neq in Hq as ->.
Qed.

Lemma unix_no_match_no_word p s :
  no_word_start s -> rmatch true unix_iface_pattern (start_at p s) Some = None.
Proof.
  intros Hs. unfold unix_iface_pattern. cbn [rmatch].
  destruct (at_bol true (start_at p s)); [| reflexivity].
  destruct s as [| c t]; [reflexivity |]. cbn in *. now rewrite Hs.
Qed.

(** Passing over the rest of a match. *)
Lemma findall_skip ml r : forall x p y,
  findall_from ml r p (length x) (x ++ y)
  = findall_from ml r (prev_after p x) 0 y.
Proof.
  induction x as [| c x IH]; intros p y; [reflexivity |].
  cbn [length app findall_from]. rewrite IH. f_equal.
  unfold prev_after. destruct x as [| d x]; [reflexivity |].
  change (last (c :: d :: x)) with (last (d :: x)).
  destruct (last (d :: x)) eqn:E; [reflexivity |].
  now apply last_None in E.
Qed.

(** With a pattern that begins with [^], nothing is found in the rest of a
    line. *)
Lemma findall_rest_of_line r : forall y q more,
  q <> LF -> LF ∉ y ->
  findall_from true (Cat Bol r) (Some q) 0 (y ++ LF :: more)
  = findall_from true (Cat Bol r) (Some LF) 0 more.
Proof.
  induction y as [| c y IH]; intros q more Hq Hy.
  - cbn [app]. change (findall_from true (Cat Bol r) (Some q) 0 (LF :: more))
      with (match rmatch true (Cat Bol r) (start_at (Some q) (LF :: more)) Some with
            | Some st =>
                found_text (LF :: more) st
                :: findall_from true (Cat Bol r) (Some LF) (consumed st - 1) more
            | None => findall_from true (Cat Bol r) (Some LF) 0 more
            end).
    now rewrite bol_pattern_needs_bol.
  - apply not_elem_of_cons in Hy as [Hc Hy].
    change (findall_from true (Cat Bol r) (Some q) 0 ((c :: y) ++ LF :: more))
      with (match rmatch true (Cat Bol r)
                    (start_at (Some q) (c :: y ++ LF :: more)) Some with
            | Some st =>
                found_text (c :: y ++ LF :: more) st
                :: findall_from true (Cat Bol r) (Some c) (consumed st - 1)
                     (y ++ LF :: more)
            | None => findall_from true (Cat Bol r) (Some c) 0 (y ++ LF :: more)
            end).
    rewrite bol_pattern_needs_bol by assumption.
    apply IH; [congruence | assumption].
Qed.

Lemma findall_rest_of_text r : forall y q,
  q <> LF -> LF ∉ y ->
  findall_from true (Cat Bol r) (Some q) 0 y = [].
Proof.
  induction y as [| c y IH]; intros q Hq Hy.
  - change (findall_from true (Cat Bol r) (Some q) 0 [])
      with (match rmatch true (Cat Bol r) (start_at (Some q) []) Some with
            | Some st => [found_text [] st]
            | None => []
            end).
    now rewrite bol_pattern_needs_bol.
  - apply not_elem_of_cons in Hy as [Hc Hy].
    change (findall_from true (Cat Bol r) (Some q) 0 (c :: y))
      with (match rmatch true (Cat Bol r) (start_at (Some q) (c :: y)) Some with
            | Some st =>
                found_text (c :: y) st
                :: findall_from true (Cat Bol r) (Some c) (consumed st - 1) y
            | None => findall_from true (Cat Bol r) (Some c) 0 y
            end).
    rewrite bol_pattern_needs_bol by assumption.
    apply IH; [congruence | assumption].
Qed.

(** After a newline the search goes on as from the start of a text. *)
Lemma unix_findall_after_newline s :
  findall_from true unix_iface_pattern (Some LF) 0 s
  = re_findall true unix_iface_pattern s.
Proof. destruct s; reflexivity. Qed.

Lemma findall_step ml r p c t :
  findall_from ml r p 0 (c :: t) =
    match rmatch ml r (start_at p (c :: t)) Some with
    | Some st =>
        found_text (c :: t) st :: findall_from ml r (Some c) (consumed st - 1) t
    | None => findall_from ml r (Some c) 0 t
    end.
Proof. reflexivity. Qed.

Lemma prev_after_cons p c x : prev_after p (c :: x) = prev_after (Some c) x.
Proof.
  unfold prev_after. destruct x as [| d x]; [reflexivity |].
  change (last (c :: d :: x)) with (last (d :: x)).
  destruct (last (d :: x)) eqn:E; [reflexivity |].
  now apply last_None in E.
Qed.

Lemma prev_after_word c x :
  forallb is_word (c :: x) = true ->
  exists q, prev_after (Some c) x = Some q /\ q <> LF.
Proof.
  cbn [forallb]. intros [Hc Hx]%andb_prop. unfold prev_after.
  destruct (last x) as [q |] eqn:E.
  - exists q. split; [reflexivity |].
    apply last_Some in E as [x' ->].
    rewrite forallb_app in Hx. apply andb_prop in Hx as [_ Hq].
    cbn in Hq. rewrite andb_true_r in Hq. now apply is_word_not_newline.
  - exists c. split; [reflexivity | now apply is_word_not_newline].
Qed.

Lemma unix_rest_of_line y q more :
  q <> LF -> LF ∉ y ->
  findall_from true unix_iface_pattern (Some q) 0 (y ++ LF :: more)
  = re_findall true unix_iface_pattern more.
Proof.
  intros Hq Hy. rewrite <- unix_findall_after_newline.
  now apply findall_rest_of_line.
Qed.

Lemma unix_rest_of_text y q :
  q <> LF -> LF ∉ y ->
  findall_from true unix_iface_pattern (Some q) 0 y = [].
Proof. apply findall_rest_of_text. Qed.

(** X12.
    The enumerator's parse of Unix tool output, line by line (1): a line
    that begins with a word contributes exactly that word, whatever follows
    it on the line, and the parse goes on with the next line.  Order and
    repetitions are kept: the result is built line after line. *)
Theorem unix_enumerator_word_line (x y more : pystr) :
  word_name x -> no_word_start y -> LF ∉ y ->
  re_findall true unix_iface_pattern (x ++ y ++ LF :: more)
    = x :: re_findall true unix_iface_pattern more
  /\ re_findall true unix_iface_pattern (x ++ y) = [x].
Proof.
  intros Hx Hy Hnl.
  assert (Hstart : forall tail, no_word_start (y ++ tail) \/ y = []).
  { intros tail. destruct y; [now right | now left]. }
  assert (Hgen : forall tail,
    no_word_start (y ++ tail) ->
    re_findall true unix_iface_pattern (x ++ y ++ tail)
    = x :: match prev_after None x with
           | Some q => findall_from true unix_iface_pattern (Some q) 0 (y ++ tail)
           | None => []
           end).
  { intros tail Htail.
    destruct (unix_match_at_bol None x (y ++ tail) (or_introl eq_refl) Hx Htail)
      as [q Hq].
    destruct Hx as [Hne Hx]. destruct x as [| c x]; [contradiction |].
    unfold re_findall. cbn [app]. rewrite findall_step.
    cbn [app] in Hq. rewrite Hq. cbn [consumed length].
    unfold found_text. cbn [group1 consumed].
    f_equal.
    - change (take (S (length x)) (c :: x ++ y ++ tail))
        with (c :: take (length x) (x ++ y ++ tail)).
      now rewrite take_app_length.
    - replace (S (length x) - 1) with (length x) by lia.
      rewrite findall_skip, prev_after_cons.
      now destruct (prev_after_word c x Hx) as (q' & -> & _). }
  assert (Hprev : exists q, prev_after None x = Some q /\ q <> LF).
  { destruct Hx as [Hne Hx]. destruct x as [| c x]; [contradiction |].
    destruct (prev_after_word c x Hx) as (q & Hq & Hne').
    exists q. now rewrite prev_after_cons. }
  destruct Hprev as (q & Hq & Hqnl).
  split.
  - rewrite Hgen, Hq.
    + now rewrite unix_rest_of_line.
    + destruct y; [vm_compute; reflexivity | exact Hy].
  - rewrite <- (app_nil_r y) at 1. rewrite Hgen, Hq.
    + rewrite app_nil_r. now rewrite unix_rest_of_text.
    + now rewrite app_nil_r.
Qed.

Lemma unix_enumerator_word_line_witness :
  re_findall true unix_iface_pattern
    (py "eth0" ++ py ": flags=4163" ++ LF :: py "lo: flags=73")
  = py "eth0" :: re_findall true unix_iface_pattern (py "lo: flags=73").
Proof.
  apply (unix_enumerator_word_line (py "eth0") (py ": flags=4163")
           (py "lo: flags=73")).
  - split; [discriminate | vm_compute; reflexivity].
  - vm_compute. reflexivity.
  - intros H. vm_compute in H. repeat (apply elem_of_cons in H as [H | H]; [discriminate |]).
    now apply elem_of_nil in H.
Defined.

(** X13.
    The enumerator's parse of Unix tool output, line by line (2): a line
    that does not begin with a word character (an indented or an empty
    line) contributes nothing. *)
Theorem unix_enumerator_other_line (y more : pystr) :
  no_word_start y -> LF ∉ y ->
  re_findall true unix_iface_pattern (y ++ LF :: more)
    = re_findall true unix_iface_pattern more
  /\ re_findall true unix_iface_pattern y = [].
Proof.
  intros Hy Hnl. unfold re_findall. destruct y as [| c y].
  - split; [| reflexivity]. cbn [app]. rewrite findall_step.
    rewrite unix_no_match_no_word by (vm_compute; reflexivity).
    apply unix_findall_after_newline.
  - apply not_elem_of_cons in Hnl as [Hc Hnl]. cbn [app].
    rewrite !findall_step.
    rewrite !unix_no_match_no_word by exact Hy.
    split.
    + apply unix_rest_of_line; [congruence | assumption].
    + apply unix_rest_of_text; [congruence | assumption].
Qed.

Lemma unix_enumerator_other_line_witness :
  re_findall true unix_iface_pattern
    (py "        inet 127.0.0.1" ++ LF :: py "lo: flags=73")
  = re_findall true unix_iface_pattern (py "lo: flags=73").
Proof.
  apply (unix_enumerator_other_line (py "        inet 127.0.0.1")
           (py "lo: flags=73")).
  - vm_compute. reflexivity.
  - intros H. vm_compute in H. repeat (apply elem_of_cons in H as [H | H]; [discriminate |]).
    now apply elem_of_nil in H.
Defined.

(** What [^\w+] has matched is a word. *)
Lemma unix_match_text p s st :
  rmatch true unix_iface_pattern (start_at p s) Some = Some st ->
  word_name (found_text s st).
Proof.
  unfold unix_iface_pattern. cbn [rmatch].
  destruct (at_bol true (start_at p s)); [| discriminate].
  destruct s as [| c t]; [discriminate |].
  cbn [start_at rest atom_ok]. destruct (is_word c) eqn:Hc; [| discriminate].
  intros H. apply many_read in H as (x & Hx & Hall & Hcons & Hgrp); [| reflexivity].
  unfold found_text. cbn in Hgrp, Hcons. rewrite Hgrp, Hcons.
  rewrite Hx at 1.
  change (take (S (length x)) (c :: x ++ rest st))
    with (c :: take (length x) (x ++ rest st)).
  rewrite take_app_length. split; [discriminate |].
  cbn [forallb]. now rewrite Hc.
Qed.

Lemma unix_findall_names : forall s p skip,
  Forall word_name (findall_from true unix_iface_pattern p skip s).
Proof.
  induction s as [| c t IH]; intros p [| n]; try (now constructor).
  - change (findall_from true unix_iface_pattern p 0 [])
      with (match rmatch true unix_iface_pattern (start_at p []) Some with
            | Some st => [found_text [] st]
            | None => []
            end).
    destruct (rmatch true unix_iface_pattern (start_at p []) Some) eqn:E;
      [| constructor].
    constructor; [now apply (unix_match_text p) | constructor].
  - rewrite findall_step.
    destruct (rmatch true unix_iface_pattern (start_at p (c :: t)) Some) eqn:E;
      [| apply IH].
    constructor; [now apply (unix_match_text p) | apply IH].
  - apply IH.
Qed.

Lemma get_os_unix w :
  startswith (sys_platform w) (py "linux")
    || startswith (sys_platform w) (py "darwin") = true ->
  exists name,
    get_os w = (Ret name, w) /\
    str_eqb name (py "linux") || str_eqb name (py "macos") = true.
Proof.
  intros H. destruct (startswith (sys_platform w) (py "linux")) eqn:Hl.
  - exists (py "linux"). split; [now apply get_os_linux | reflexivity].
  - exists (py "macos"). split; [now apply get_os_macos | reflexivity].
Qed.

(** X14.
    On Linux and macOS every interface name [get_interfaces] returns is a
    non-empty run of word characters (letters, digits, underscore): it holds
    no blank, no colon, no slash and no newline, so the backup file named
    after it lies in the working directory. *)
Theorem get_interfaces_unix_names (w w' : world) (interfaces : list pystr) :
  startswith (sys_platform w) (py "linux")
    || startswith (sys_platform w) (py "darwin") = true ->
  get_interfaces w = (Ret interfaces, w') ->
  Forall word_name interfaces.
Proof.
  intros Hunix H. destruct (get_os_unix w Hunix) as (name & Hos & Hname).
  unfold get_interfaces in H. rewrite (bind_ret_l _ _ _ _ _ Hos), Hname in H.
  apply bind_ret_inv in H as (l & w1 & Hl & H).
  apply try_except_ret_inv in Hl as [Hl | (e & w2 & _ & Hl)]; [| discriminate].
  apply bind_ret_inv in Hl as (out & w2 & _ & Hl).
  apply bind_ret_inv in Hl as (output & w3 & _ & Hl).
  injection Hl as <- _.
  destruct (re_findall true unix_iface_pattern output) as [| i l] eqn:E;
    [discriminate |].
  injection H as <- _. rewrite <- E. apply unix_findall_names.
Qed.

Lemma get_interfaces_unix_names_witness :
  Forall word_name [eth0].
Proof.
  apply (get_interfaces_unix_names session_fresh
           (snd (get_interfaces session_fresh)) [eth0]);
    vm_compute; reflexivity.
Defined.

(** X15.
    [get_interfaces] has two ways to end: it returns a list that is not
    empty, or it logs an error and exits with status 1.  No failure of the
    listing command reaches the caller as an exception, and at most one
    command is run. *)
Theorem get_interfaces_contract (w : world) :
  match fst (get_interfaces w) with
  | Ret interfaces => interfaces <> []
  | Raise _ => False
  | Exit c =>
      c = 1%Z /\
      exists msg, last (log (snd (get_interfaces w))) = Some (ERROR, msg)
  end /\
  (history (snd (get_interfaces w)) = history w \/
   exists cmd, history (snd (get_interfaces w)) = history w ++ [cmd]).
Proof.
  split.
  - destruct (fst (get_interfaces w)) as [l | e | c] eqn:E.
    + destruct (get_interfaces w) as [o w'] eqn:E'. cbn in E. subst o.
      now apply get_interfaces_nonempty in E'.
    + now apply (get_interfaces_raises_nothing (fun _ => False)) in E.
    + now apply get_interfaces_exits in E.
  - unfold get_interfaces.
    destruct (get_os_cases w) as [(name & Hos & Hname) | Hos].
    2: { left. now rewrite (bind_exits _ _ _ _ _ Hos). }
    rewrite (bind_ret_l _ _ _ _ _ Hos). right.
    destruct (str_eqb name (py "linux") || str_eqb name (py "macos")) eqn:E1.
    + exists [py "ifconfig"].
      unfold bind at 1, try_except, bind at 1. rewrite check_output_eq.
      destruct (exec w (history w) [py "ifconfig"]) as [| c out];
        [reflexivity |].
      destruct (c =? 0)%Z; [| reflexivity].
      destruct out as [s |]; [| reflexivity].
      cbn. now destruct (re_findall true unix_iface_pattern s).
    + destruct (str_eqb name (py "windows")) eqn:E2.
      * exists [py "ipconfig"].
        unfold bind at 1, try_except, bind at 1. rewrite check_output_eq.
        destruct (exec w (history w) [py "ipconfig"]) as [| c out];
          [reflexivity |].
        destruct (c =? 0)%Z; [| reflexivity].
        destruct out as [s |]; [| reflexivity].
        cbn. now destruct (re_findall true windows_iface_pattern s).
      * destruct Hname as [-> | [-> | ->]]; vm_compute in E1, E2; discriminate.
Qed.

(** ** The interface enumerator on Windows *)

(** What a successful greedy [+] has read, for any continuation. *)
Lemma many_read_then a k : forall s st r,
  rest st = s ->
  many a s st k = Some r ->
  exists x st',
    s = x ++ rest st' /\ forallb (atom_ok a) x = true /\
    consumed st' = consumed st + length x /\ group1 st' = group1 st /\
    k st' = Some r.
Proof.
  assert (Hstop : forall s st r, rest st = s -> k st = Some r ->
    exists x st',
      s = x ++ rest st' /\ forallb (atom_ok a) x = true /\
      consumed st' = consumed st + length x /\ group1 st' = group1 st /\
      k st' = Some r).
  { intros s st r Hrest Hk. exists [], st. rewrite Hrest.
    repeat split; [cbn; lia | assumption]. }
  induction s as [| c t IH]; intros st r Hrest H; cbn in H; [eauto |].
  destruct (atom_ok a c) eqn:Hc; [| eauto].
  destruct (many a t (advance c t st) k) as [r' |] eqn:E; [| eauto].
  injection H as <-.
  apply IH in E as (x & st' & Hx & Hall & Hcons & Hgrp & Hk); [| reflexivity].
  exists (c :: x), st'. cbn in *. rewrite Hc, Hall, <- Hx, Hcons.
  repeat split; [lia | assumption ..].
Qed.

Lemma any_not_newline x : forallb (atom_ok Any) x = true -> LF ∉ x.
Proof.
  induction x as [| c x IH]; [intros _; apply not_elem_of_nil |].
  cbn [forallb atom_ok]. intros [Hc Hx]%andb_prop.
  apply not_elem_of_cons. split; [| now apply IH].
  intros <-. discriminate.
Qed.

Lemma not_newline_any x : LF ∉ x -> forallb (atom_ok Any) x = true.
Proof.
  induction x as [| c x IH]; [reflexivity |].
  intros [Hc Hx]%not_elem_of_cons. cbn [forallb atom_ok].
  rewrite (IH Hx), andb_true_r. apply negb_true_iff, N.eqb_neq. congruence.
Qed.

(** What [^Ethernet adapter (.+):] has captured is a non-empty piece of one
    line. *)
Lemma windows_match_text ml p s st :
  rmatch ml windows_iface_pattern (start_at p s) Some = Some st ->
  line_name (found_text s st).
Proof.
  unfold windows_iface_pattern. cbn [rmatch].
  destruct (at_bol ml (start_at p s)); [| discriminate].
  intros H. apply rmatch_lits in H as (st1 & H). cbn [rmatch] in H.
  destruct (rest st1) as [| c t] eqn:Hrest; [discriminate |].
  destruct (atom_ok Any c) eqn:Hc; [| discriminate].
  apply many_read_then in H as (x & st' & Hx & Hall & Hcons & _ & Hk);
    [| reflexivity].
  cbn [rest prev consumed group1] in Hk.
  destruct (rest st') as [| d t']; [discriminate |].
  destruct (atom_ok (Lit 58%N) d); [| discriminate].
  injection Hk as <-. unfold found_text. cbn [group1].
  cbn [consumed advance] in Hcons. rewrite Hcons.
  replace (S (consumed st1) + length x - consumed st1) with (S (length x)) by lia.
  rewrite Hx.
  change (take (S (length x)) (c :: x ++ d :: t'))
    with (c :: take (length x) (x ++ d :: t')).
  rewrite take_app_length. split; [discriminate |].
  apply (any_not_newline (c :: x)). cbn [forallb]. now rewrite Hc.
Qed.

Lemma windows_findall_names : forall s p skip,
  Forall line_name (findall_from true windows_iface_pattern p skip s).
Proof.
  induction s as [| c t IH]; intros p [| n]; try (now constructor).
  - change (findall_from true windows_iface_pattern p 0 [])
      with (match rmatch true windows_iface_pattern (start_at p []) Some with
            | Some st => [found_text [] st]
            | None => []
            end).
    destruct (rmatch true windows_iface_pattern (start_at p []) Some) eqn:E;
      [| constructor].
    constructor; [now apply (windows_match_text true p) | constructor].
  - rewrite findall_step.
    destruct (rmatch true windows_iface_pattern (start_at p (c :: t)) Some) eqn:E;
      [| apply IH].
    constructor; [now apply (windows_match_text true p) | apply IH].
  - apply IH.
Qed.

(** X16.
    On Windows every interface name [get_interfaces] returns is a non-empty
    piece of one line of the tool's output. *)
Theorem get_interfaces_windows_names (w w' : world) (interfaces : list pystr) :
  startswith (sys_platform w) (py "win") = true ->
  get_interfaces w = (Ret interfaces, w') ->
  Forall line_name interfaces.
Proof.
  intros Hwin H.
  unfold get_interfaces in H.
  rewrite (bind_ret_l _ _ _ _ _ (get_os_windows w Hwin)) in H.
  change (str_eqb (py "windows") (py "linux") || str_eqb (py "windows") (py "macos"))
    with false in H.
  change (str_eqb (py "windows") (py "windows")) with true in H. cbv iota in H.
  apply bind_ret_inv in H as (l & w1 & Hl & H).
  apply try_except_ret_inv in Hl as [Hl | (e & w2 & _ & Hl)]; [| discriminate].
  apply bind_ret_inv in Hl as (out & w2 & _ & Hl).
  apply bind_ret_inv in Hl as (output & w3 & _ & Hl).
  injection Hl as <- _.
  destruct (re_findall true windows_iface_pattern output) as [| i l] eqn:E;
    [discriminate |].
  injection H as <- _. rewrite <- E. apply windows_findall_names.
Qed.

Lemma get_interfaces_windows_names_witness :
  fst (get_interfaces session_windows_adapter) = Ret [ethernet_2] /\
  Forall line_name [ethernet_2].
Proof.
  split; [vm_compute; reflexivity |].
  apply (get_interfaces_windows_names session_windows_adapter
           (snd (get_interfaces session_windows_adapter)) [ethernet_2]);
    vm_compute; reflexivity.
Defined.


(** A literal prefix that is there is read, and the match goes on behind
    it. *)
Lemma rmatch_lits_read ml k : forall p st,
  startswith (rest st) p = true ->
  rmatch ml (lits p) st k = k (advance_by p st).
Proof.
  induction p as [| c p IH]; intros st Hp.
  - cbn. unfold advance_by, prev_after. cbn. rewrite Nat.add_0_r.
    now destruct st.
  - destruct st as [q r n g]. cbn [rest] in Hp.
    destruct r as [| d r]; [discriminate |].
    cbn [startswith] in Hp. apply andb_prop in Hp as [Hc Hp].
    apply N.eqb_eq in Hc. subst d.
    change (rmatch ml (lits (c :: p)) (MState q (c :: r) n g) k)
      with (if (c =? c)%N
            then rmatch ml (lits p) (advance c r (MState q (c :: r) n g)) k
            else None).
    rewrite N.eqb_refl, IH by exact Hp.
    f_equal. unfold advance_by, advance. cbn [prev rest consumed group1 length drop].
    rewrite prev_after_cons. f_equal. lia.
Qed.

(** Behind the last colon of a line the continuation of the group fails at
    every position, so the greedy [.+] gives back what it read there. *)
Lemma many_any_fails st0 tail : forall st,
  58%N ∉ tail -> LF ∉ tail ->
  (rest st = tail \/ exists more, rest st = tail ++ LF :: more) ->
  many Any (rest st) st (close_group_then_colon st0) = None.
Proof.
  induction tail as [| c tail IH]; intros st Hcolon Hnl Hrest.
  - destruct Hrest as [H | [more H]]; rewrite H; cbn [app many atom_ok];
      cbn [N.eqb Pos.eqb negb];
      unfold close_group_then_colon; cbn [rmatch rest]; now rewrite H.
  - apply not_elem_of_cons in Hcolon as [Hc Hcolon].
    apply not_elem_of_cons in Hnl as [Hc' Hnl].
    assert (Hr : exists t, rest st = c :: t /\
              (t = tail \/ exists more, t = tail ++ LF :: more)).
    { destruct Hrest as [-> | [more ->]]; eexists; eauto. }
    destruct Hr as (t & Ht & Htail). rewrite Ht. cbn [many atom_ok].
    replace (c =? LF)%N with false by (symmetry; apply N.eqb_neq; congruence).
    cbn [negb].
    assert (Hin : many Any t (advance c t st) (close_group_then_colon st0) = None).
    { apply (IH (advance c t st)); assumption. }
    rewrite Hin. unfold close_group_then_colon. cbn [rmatch rest]. rewrite Ht.
    cbn [atom_ok].
    now replace (c =? 58)%N with false by (symmetry; apply N.eqb_neq; congruence).
Qed.

(** The greedy [.+] in front of a colon stops at the last colon of the
    line. *)
Lemma many_any_to_last_colon st0 tail ending : forall x st,
  LF ∉ x -> 58%N ∉ tail -> LF ∉ tail ->
  (ending = [] \/ exists more, ending = LF :: more) ->
  rest st = x ++ 58%N :: tail ++ ending ->
  many Any (rest st) st (close_group_then_colon st0)
  = close_group_then_colon st0 (advance_by x st)
  /\ close_group_then_colon st0 (advance_by x st) <> None.
Proof.
  induction x as [| c x IH]; intros st Hx Hcolon Hnl Hend Hrest.
  - assert (Hst : advance_by [] st = st).
    { unfold advance_by, prev_after. cbn. rewrite Nat.add_0_r. now destruct st. }
    rewrite Hst.
    assert (Hk : close_group_then_colon st0 st <> None).
    { unfold close_group_then_colon. cbn [rmatch rest]. rewrite Hrest. discriminate. }
    split; [| exact Hk].
    rewrite Hrest at 1. cbn [app many atom_ok]. cbn [N.eqb Pos.eqb negb].
    pose proof (many_any_fails st0 tail (advance 58%N (tail ++ ending) st)
                  Hcolon Hnl) as Hfail.
    cbn [rest advance] in Hfail. rewrite Hfail; [reflexivity |].
    destruct Hend as [-> | [more ->]]; [left; apply app_nil_r | eauto].
  - apply not_elem_of_cons in Hx as [Hc Hx].
    rewrite Hrest at 1. cbn [app many atom_ok].
    replace (c =? LF)%N with false by (symmetry; apply N.eqb_neq; congruence).
    cbn [negb].
    destruct (IH (advance c (x ++ 58%N :: tail ++ ending) st) Hx Hcolon Hnl Hend
                eq_refl) as [Hin Hsome].
    cbn [rest advance] in Hin.
    assert (Hadv : advance_by x (advance c (x ++ 58%N :: tail ++ ending) st)
                   = advance_by (c :: x) st).
    { unfold advance_by, advance. cbn [prev rest consumed group1 length].
      rewrite Hrest, prev_after_cons. cbn [app drop]. f_equal. lia. }
    rewrite Hadv in Hin, Hsome. rewrite Hin.
    split; [| exact Hsome].
    now destruct (close_group_then_colon st0 (advance_by (c :: x) st)).
Qed.

Lemma startswith_app p s : startswith (p ++ s) p = true.
Proof.
  induction p as [| c p IH]; [now destruct s |].
  cbn. now rewrite N.eqb_refl.
Qed.

Lemma rmatch_many1_cons ml a c t st k :
  rest st = c :: t -> atom_ok a c = true ->
  rmatch ml (Many1 a) st k = many a t (advance c t st) k.
Proof. intros Hrest Hc. cbn [rmatch]. now rewrite Hrest, Hc. Qed.

(** At the start of a line, [^<prefix>(.+):] captures the text between the
    prefix and the last colon of the line. *)
Lemma prefixed_name_at_bol prefix p name tail ending :
  p = None \/ p = Some LF ->
  line_name name -> 58%N ∉ tail -> LF ∉ tail ->
  (ending = [] \/ exists more, ending = LF :: more) ->
  exists q,
    rmatch true
      (Cat Bol (Cat (lits prefix) (Cat (Grp (Many1 Any)) (One (Lit 58%N)))))
      (start_at p (prefix ++ name ++ 58%N :: tail ++ ending)) Some
    = Some (MState q (tail ++ ending)
              (length prefix + length name + 1) (Some name)).
Proof.
  intros Hp [Hne Hname] Hcolon Hnl Hend.
  destruct name as [| c x]; [contradiction |].
  apply not_elem_of_cons in Hname as [Hc Hx].
  set (s1 := (c :: x) ++ 58%N :: tail ++ ending).
  assert (Hbol : at_bol true (start_at p (prefix ++ s1)) = true)
    by (destruct Hp as [-> | ->]; reflexivity).
  cbn [rmatch]. rewrite Hbol.
  rewrite rmatch_lits_read by apply startswith_app.
  set (st1 := advance_by prefix (start_at p (prefix ++ s1))).
  assert (Hrest1 : rest st1 = s1) by (apply drop_app_length).
  assert (Hcons1 : consumed st1 = length prefix) by reflexivity.
  change (exists q,
            rmatch true (Many1 Any) st1 (close_group_then_colon st1)
            = Some (MState q (tail ++ ending)
                      (length prefix + length (c :: x) + 1) (Some (c :: x)))).
  rewrite (rmatch_many1_cons true Any c (x ++ 58%N :: tail ++ ending))
    by (try exact Hrest1; cbn [atom_ok]; apply negb_true_iff, N.eqb_neq; congruence).
  destruct (many_any_to_last_colon st1 tail ending x
              (advance c (x ++ 58%N :: tail ++ ending) st1)
              Hx Hcolon Hnl Hend eq_refl) as [E _].
  cbn [rest advance] in E. rewrite E. clear E.
  unfold close_group_then_colon, advance_by.
  cbn [rmatch rest prev consumed group1 advance].
  rewrite drop_app_length. cbn [atom_ok N.eqb Pos.eqb].
  eexists. unfold advance. cbn [prev rest consumed group1].
  rewrite Hcons1, Hrest1. unfold s1.
  replace (S (length prefix) + length x - length prefix) with (S (length x)) by lia.
  change (take (S (length x)) ((c :: x) ++ 58%N :: tail ++ ending))
    with (c :: take (length x) (x ++ 58%N :: tail ++ ending)).
  rewrite take_app_length. do 2 f_equal. cbn [length]. lia.
Qed.

(** At the start of a line that names an adapter, the pattern captures the
    text between [Ethernet adapter ] and the last colon of the line. *)
Lemma windows_match_at_bol p name tail ending :
  p = None \/ p = Some LF ->
  line_name name -> 58%N ∉ tail -> LF ∉ tail ->
  (ending = [] \/ exists more, ending = LF :: more) ->
  exists q,
    rmatch true windows_iface_pattern
      (start_at p (py "Ethernet adapter " ++ name ++ 58%N :: tail ++ ending)) Some
    = Some (MState q (tail ++ ending)
              (length (py "Ethernet adapter ") + length name + 1) (Some name)).
Proof. apply prefixed_name_at_bol. Qed.

Lemma windows_findall_after_newline s :
  findall_from true windows_iface_pattern (Some LF) 0 s
  = re_findall true windows_iface_pattern s.
Proof.
  destruct s as [| c t]; [reflexivity |].
  unfold re_findall. rewrite !findall_step.
  assert (E : rmatch true windows_iface_pattern (start_at (Some LF) (c :: t)) Some
            = rmatch true windows_iface_pattern (start_at None (c :: t)) Some)
    by reflexivity.
  now rewrite E.
Qed.

(** X17.
    The enumerator's parse of Windows tool output: a line
    [Ethernet adapter <name>:<tail>], where [tail] holds no further colon,
    contributes [name].  The name reaches to the last colon of the line, so
    it may itself hold colons; the parse goes on with the next line, which
    keeps order and repetitions. *)
Theorem windows_enumerator_adapter_line (name tail more : pystr) :
  line_name name -> 58%N ∉ tail -> LF ∉ tail ->
  re_findall true windows_iface_pattern
    (py "Ethernet adapter " ++ name ++ 58%N :: tail ++ LF :: more)
    = name :: re_findall true windows_iface_pattern more
  /\ re_findall true windows_iface_pattern
       (py "Ethernet adapter " ++ name ++ 58%N :: tail)
     = [name].
Proof.
  intros Hname Hcolon Hnl.
  assert (Hgen : forall ending,
    (ending = [] \/ exists more', ending = LF :: more') ->
    re_findall true windows_iface_pattern
      (py "Ethernet adapter " ++ name ++ 58%N :: tail ++ ending)
    = name :: findall_from true windows_iface_pattern (Some 58%N) 0 (tail ++ ending)).
  { intros ending Hend.
    destruct (windows_match_at_bol None name tail ending (or_introl eq_refl)
                Hname Hcolon Hnl Hend) as [q Hq].
    unfold re_findall.
    change (py "Ethernet adapter ") with (69%N :: py "thernet adapter ") in *.
    cbn [app] in *. rewrite findall_step, Hq.
    unfold found_text. cbn [group1 consumed length]. f_equal.
    replace (S (length (py "thernet adapter ")) + length name + 1 - 1)
      with (length (py "thernet adapter " ++ name ++ [58%N]))
      by (rewrite !length_app; cbn [length]; lia).
    replace (py "thernet adapter " ++ name ++ 58%N :: tail ++ ending)
      with ((py "thernet adapter " ++ name ++ [58%N]) ++ tail ++ ending)
      by (now rewrite <- !app_assoc).
    rewrite findall_skip. f_equal.
    unfold prev_after. now rewrite !app_assoc, last_snoc. }
  split.
  - rewrite Hgen by eauto.
    unfold windows_iface_pattern at 1.
    rewrite findall_rest_of_line by (try discriminate; assumption).
    now rewrite <- windows_findall_after_newline.
  - rewrite <- (app_nil_r tail) at 1. rewrite Hgen by auto.
    rewrite app_nil_r. unfold windows_iface_pattern.
    now rewrite findall_rest_of_text.
Qed.

Lemma windows_enumerator_adapter_line_witness :
  re_findall true windows_iface_pattern
    (py "Ethernet adapter " ++ py "vEthernet (WSL: lab)" ++ 58%N :: [CR])
  = [py "vEthernet (WSL: lab)"].
Proof.
  apply (windows_enumerator_adapter_line (py "vEthernet (WSL: lab)") [CR] []).
  - split; [discriminate |]. intros H. vm_compute in H.
    repeat (apply elem_of_cons in H as [H | H]; [discriminate |]).
    now apply elem_of_nil in H.
  - intros H. apply elem_of_cons in H as [H | H]; [discriminate |].
    now apply elem_of_nil in H.
  - intros H. apply elem_of_cons in H as [H | H]; [discriminate |].
    now apply elem_of_nil in H.
Defined.

(** ** The MAC Reader, in detail *)

Lemma check_output_decode_eq (cmd : argv) (w : world) :
  (out <- check_output cmd ;; decode out) w =
    (match output_of cmd (exec w (history w) cmd) with
     | inl e => Raise e
     | inr s => Ret s
     end,
     set_history (history w ++ [cmd]) w).
Proof.
  unfold bind. rewrite check_output_eq. unfold output_of.
  destruct (exec w (history w) cmd) as [| c out]; [reflexivity |].
  destruct (c =? 0)%Z; [| reflexivity]. now destruct out.
Qed.

Lemma bind_assoc {A B C} (m : M A) (f : A -> M B) (g : B -> M C) w :
  bind (bind m f) g w = bind m (fun a => bind (f a) g) w.
Proof.
  unfold bind. destruct (m w) as [[a | e | c] w']; reflexivity.
Qed.

(** The reader on Linux and macOS in one step. *)
Lemma get_current_mac_unix_eq interface w :
  startswith (sys_platform w) (py "linux")
    || startswith (sys_platform w) (py "darwin") = true ->
  get_current_mac interface w =
    let w' := set_history (history w ++ [cmd_ifconfig interface]) w in
    match output_of (cmd_ifconfig interface)
            (exec w (history w) (cmd_ifconfig interface)) with
    | inr output =>
        (Ret (match re_search false ether_pattern output with
              | Some st => group1 st
              | None => None
              end), w')
    | inl e =>
        (Ret None, logged ERROR (With_exn (py "Error getting MAC address: ") e) w')
    end.
Proof.
  intros Hunix. destruct (get_os_unix w Hunix) as (name & Hos & Hname).
  unfold get_current_mac. rewrite (bind_ret_l _ _ _ _ _ Hos), Hname.
  fold (cmd_ifconfig interface). unfold try_except.
  rewrite <- bind_assoc. unfold bind at 1. rewrite check_output_decode_eq.
  destruct (output_of (cmd_ifconfig interface)
              (exec w (history w) (cmd_ifconfig interface))) as [e | output];
    [reflexivity |].
  now destruct (re_search false ether_pattern output).
Qed.

(** The reader on Windows in one step. *)
Lemma get_current_mac_windows_eq interface w :
  startswith (sys_platform w) (py "win") = true ->
  get_current_mac interface w =
    let w' := set_history (history w ++ [cmd_getmac]) w in
    match output_of cmd_getmac (exec w (history w) cmd_getmac) with
    | inr output => (Ret (getmac_lines interface (splitlines output)), w')
    | inl e =>
        (Ret None, logged ERROR (With_exn (py "Error getting MAC address: ") e) w')
    end.
Proof.
  intros Hwin. unfold get_current_mac.
  rewrite (bind_ret_l _ _ _ _ _ (get_os_windows w Hwin)).
  change (str_eqb (py "windows") (py "linux") || str_eqb (py "windows") (py "macos"))
    with false.
  change (str_eqb (py "windows") (py "windows")) with true. cbv iota.
  fold cmd_getmac. unfold try_except.
  rewrite <- bind_assoc. unfold bind at 1. rewrite check_output_decode_eq.
  now destruct (output_of cmd_getmac (exec w (history w) cmd_getmac)).
Qed.

(** X18.
    On a platform the script knows, the MAC Reader always returns to its
    caller, after running exactly one command and without touching a file.
    When that command cannot be launched, exits with a status other than
    zero or prints bytes that cannot be decoded, the reader logs one error
    record and returns the absent value. *)
Theorem get_current_mac_failure_is_absent (interface : pystr) (w : world) :
  startswith (sys_platform w) (py "linux")
    || startswith (sys_platform w) (py "darwin")
    || startswith (sys_platform w) (py "win") = true ->
  exists cmd,
    (cmd = cmd_ifconfig interface \/ cmd = cmd_getmac) /\
    history (snd (get_current_mac interface w)) = history w ++ [cmd] /\
    fs (snd (get_current_mac interface w)) = fs w /\
    match output_of cmd (exec w (history w) cmd) with
    | inl e =>
        get_current_mac interface w =
          (Ret None,
           logged ERROR (With_exn (py "Error getting MAC address: ") e)
             (set_history (history w ++ [cmd]) w))
    | inr _ =>
        exists o, get_current_mac interface w
                  = (Ret o, set_history (history w ++ [cmd]) w)
    end.
Proof.
  intros Hsup.
  destruct (startswith (sys_platform w) (py "linux")
            || startswith (sys_platform w) (py "darwin")) eqn:Hunix.
  - exists (cmd_ifconfig interface). rewrite (get_current_mac_unix_eq _ _ Hunix).
    cbv zeta.
    destruct (output_of (cmd_ifconfig interface)
                (exec w (history w) (cmd_ifconfig interface))) as [e | output];
      cbn [snd]; repeat split; eauto.
  - cbn [orb] in Hsup. exists cmd_getmac.
    rewrite (get_current_mac_windows_eq _ _ Hsup). cbv zeta.
    destruct (output_of cmd_getmac (exec w (history w) cmd_getmac)) as [e | output];
      cbn [snd]; repeat split; eauto.
Qed.

Lemma get_current_mac_failure_is_absent_witness :
  exists cmd,
    (cmd = cmd_ifconfig eth0 \/ cmd = cmd_getmac) /\
    history (snd (get_current_mac eth0 session_fresh))
      = history session_fresh ++ [cmd].
Proof.
  destruct (get_current_mac_failure_is_absent eth0 session_fresh eq_refl)
    as (cmd & Hcmd & Hhist & _).
  exists cmd. split; assumption.
Defined.

Lemma search_from_suffix ml r : forall s p st,
  search_from ml r p s = Some st ->
  exists pre p' s',
    s = pre ++ s' /\ rmatch ml r (start_at p' s') Some = Some st.
Proof.
  induction s as [| c t IH]; intros p st H; cbn in H.
  - destruct (rmatch ml r (start_at p []) Some) eqn:E; [| discriminate].
    injection H as <-. now exists [], p, [].
  - destruct (rmatch ml r (start_at p (c :: t)) Some) eqn:E.
    + injection H as <-. now exists [], p, (c :: t).
    + apply IH in H as (pre & p' & s' & -> & H).
      now exists (c :: pre), p', s'.
Qed.

Lemma rmatch_lits_fail ml k : forall p st,
  startswith (rest st) p = false -> rmatch ml (lits p) st k = None.
Proof.
  induction p as [| c p IH]; intros st Hp.
  - now destruct (rest st).
  - destruct st as [q r n g]. cbn [rest] in Hp.
    destruct r as [| d r]; [reflexivity |].
    cbn [startswith] in Hp.
    change (rmatch ml (lits (c :: p)) (MState q (d :: r) n g) k)
      with (if (d =? c)%N
            then rmatch ml (lits p) (advance d r (MState q (d :: r) n g)) k
            else None).
    rewrite N.eqb_sym. destruct (c =? d)%N; [| reflexivity].
    now apply IH.
Qed.

Lemma startswith_split s : forall p,
  startswith s p = true -> s = p ++ drop (length p) s.
Proof.
  induction s as [| d s IH]; intros [| c p] H; try reflexivity; try discriminate.
  cbn [startswith] in H. apply andb_prop in H as [Hc H].
  apply N.eqb_eq in Hc. subst d. cbn. f_equal. now apply IH.
Qed.

Lemma startswith_app_long a b : forall p,
  length p <= length a -> startswith (a ++ b) p = startswith a p.
Proof.
  induction a as [| d a IH]; intros [| c p] H.
  - now destruct b.
  - cbn in H. lia.
  - reflexivity.
  - cbn [app startswith]. f_equal. apply IH. cbn in H. lia.
Qed.

(** A counted repetition over text that fits is read. *)
Lemma rmatch_rep_one_read ml a k : forall x n st y,
  length x = n -> forallb (atom_ok a) x = true ->
  rest st = x ++ y ->
  rmatch ml (Rep n (One a)) st k = k (advance_by x st).
Proof.
  induction x as [| c x IH]; intros n st y Hlen Hall Hrest.
  - subst n. cbn. unfold advance_by, prev_after. cbn. rewrite Nat.add_0_r.
    now destruct st.
  - destruct n as [| n]; [discriminate |]. injection Hlen as Hlen.
    cbn [forallb] in Hall. apply andb_prop in Hall as [Hc Hall].
    change (rmatch ml (Rep (S n) (One a)) st k)
      with (match rest st with
            | c0 :: t =>
                if atom_ok a c0
                then rmatch ml (Rep n (One a)) (advance c0 t st) k
                else None
            | [] => None
            end).
    rewrite Hrest. cbn [app]. rewrite Hc.
    rewrite (IH n (advance c (x ++ y) st) y Hlen Hall eq_refl).
    f_equal. unfold advance_by, advance. cbn [prev rest consumed group1 length].
    rewrite Hrest, prev_after_cons. cbn [app drop]. f_equal. lia.
Qed.

(** A group around seventeen characters of a set captures them, and they
    are the text at the position of the match. *)
Lemma rmatch_group17_at ml a st r :
  rmatch ml (Grp (Rep 17 (One a))) st Some = Some r ->
  exists x, group1 r = Some x /\ length x = 17 /\
            forallb (atom_ok a) x = true /\ rest st = x ++ rest r.
Proof.
  intros H. change (rmatch ml (Grp (Rep 17 (One a))) st Some) with
    (rmatch ml (Rep 17 (One a)) st (fun st' =>
       Some (MState (prev st') (rest st') (consumed st')
               (Some (take (consumed st' - consumed st) (rest st)))))) in H.
  apply rmatch_rep_one in H as (x & st' & Hlen & Hall & Hx & Hcons & _ & Hk).
  injection Hk as <-. exists x. cbn [group1 rest].
  rewrite Hcons. rewrite Hx at 1.
  replace (consumed st + 17 - consumed st) with (length x) by lia.
  now rewrite take_app_length.
Qed.

(** What the Unix reader's search returns stands in the text right after
    the word [ether] and a blank. *)
Lemma ether_search_occurs s st :
  re_search false ether_pattern s = Some st ->
  exists m pre post,
    group1 st = Some m /\ reader_token m /\
    s = pre ++ py "ether " ++ m ++ post.
Proof.
  intros H. apply search_from_suffix in H as (pre & p & s' & -> & H).
  unfold ether_pattern in H.
  change (rmatch false (Cat ?a ?b) ?st ?k)
    with (rmatch false a st (fun st' => rmatch false b st' k)) in H.
  destruct (startswith (rest (start_at p s')) (py "ether ")) eqn:Hsw.
  2: { now rewrite rmatch_lits_fail in H. }
  rewrite rmatch_lits_read in H by exact Hsw.
  apply rmatch_group17_at in H as (m & Hg & Hlen & Hall & Hrest).
  exists m, pre, (rest st). repeat split; try assumption.
  f_equal. cbn [rest start_at] in Hsw. apply startswith_split in Hsw.
  rewrite Hsw. f_equal. exact Hrest.
Qed.

(** X19.
    If the output of [ifconfig] can be read, whatever the Unix reader
    returns stands in that output right after the word [ether] and a blank:
    the reader never makes an address up. *)
Theorem reader_unix_token_occurs
    (interface output m : pystr) (w w' : world) :
  startswith (sys_platform w) (py "linux")
    || startswith (sys_platform w) (py "darwin") = true ->
  output_of (cmd_ifconfig interface)
    (exec w (history w) (cmd_ifconfig interface)) = inr output ->
  get_current_mac interface w = (Ret (Some m), w') ->
  reader_token m /\
  exists pre post, output = pre ++ py "ether " ++ m ++ post.
Proof.
  intros Hunix Hout H.
  rewrite (get_current_mac_unix_eq _ _ Hunix), Hout in H. cbv zeta in H.
  destruct (re_search false ether_pattern output) as [st |] eqn:E;
    [| discriminate].
  apply ether_search_occurs in E as (m' & pre & post & Hg & Htok & ->).
  injection H as H _. rewrite Hg in H. injection H as <-. eauto.
Qed.

Lemma reader_unix_token_occurs_witness :
  reader_token mac_1 /\
  exists pre post, ifconfig_text mac_1 = pre ++ py "ether " ++ mac_1 ++ post.
Proof.
  apply (reader_unix_token_occurs eth0 (ifconfig_text mac_1) mac_1 session_fresh
           (snd (get_current_mac eth0 session_fresh)));
    vm_compute; reflexivity.
Defined.

(** At a position where the word [ether], a blank and a token stand, the
    pattern matches and captures the token. *)
Lemma ether_match_here p m post :
  reader_token m ->
  exists st,
    rmatch false ether_pattern (start_at p (py "ether " ++ m ++ post)) Some
    = Some st /\ group1 st = Some m.
Proof.
  intros [Hlen Hall]. unfold ether_pattern.
  change (rmatch false (Cat ?a ?b) ?st ?k)
    with (rmatch false a st (fun st' => rmatch false b st' k)).
  rewrite rmatch_lits_read by apply startswith_app.
  change (rmatch false (Grp ?r) ?st Some) with
    (rmatch false r st (fun st' =>
       Some (MState (prev st') (rest st') (consumed st')
               (Some (take (consumed st' - consumed st) (rest st)))))).
  assert (Hrest : rest (advance_by (py "ether ")
                          (start_at p (py "ether " ++ m ++ post))) = m ++ post)
    by apply drop_app_length.
  rewrite (rmatch_rep_one_read false _ _ m 17 _ post Hlen Hall Hrest).
  eexists. split; [reflexivity |]. cbn [group1].
  rewrite Hrest. unfold advance_by at 1. cbn [consumed].
  replace (_ + length m - _) with (length m) by lia.
  now rewrite take_app_length.
Qed.

Lemma ether_search_first : forall pre p m post,
  reader_token m ->
  contains (pre ++ py "ether") (py "ether ") = false ->
  exists st,
    search_from false ether_pattern p (pre ++ py "ether " ++ m ++ post) = Some st
    /\ group1 st = Some m.
Proof.
  induction pre as [| c pre IH]; intros p m post Htok Hpre.
  - destruct (ether_match_here p m post Htok) as (st & Hst & Hg).
    exists st. split; [| exact Hg].
    cbn [app]. destruct (py "ether " ++ m ++ post) as [| d t] eqn:E;
      cbn [search_from]; now rewrite Hst.
  - cbn [app contains] in Hpre. apply orb_false_elim in Hpre as [Hsw Hpre].
    destruct (IH (Some c) m post Htok Hpre) as (st & Hst & Hg).
    exists st. split; [| exact Hg].
    cbn [app search_from].
    assert (Hnone : rmatch false ether_pattern
                      (start_at p (c :: pre ++ py "ether " ++ m ++ post)) Some = None).
    { unfold ether_pattern.
      change (rmatch false (Cat ?a ?b) ?st ?k)
        with (rmatch false a st (fun st' => rmatch false b st' k)).
      apply rmatch_lits_fail. cbn [rest start_at].
      change (py "ether " ++ m ++ post) with (py "ether" ++ 32%N :: m ++ post).
      change (c :: pre ++ py "ether" ++ 32%N :: m ++ post)
        with ((c :: pre) ++ py "ether" ++ 32%N :: m ++ post).
      rewrite app_assoc, startswith_app_long; [exact Hsw |].
      rewrite length_app.
      change (length (py "ether ")) with 6. change (length (py "ether")) with 5.
      cbn [length]. lia. }
    now rewrite Hnone.
Qed.

(** X20.
    If the output of [ifconfig] holds the word [ether], a blank and a token,
    and [ether ] does not occur before that place, the Unix reader returns
    exactly this token: what follows the token, and later tokens, play no
    part. *)
Theorem reader_unix_finds_first_token
    (interface pre m post : pystr) (w : world) :
  startswith (sys_platform w) (py "linux")
    || startswith (sys_platform w) (py "darwin") = true ->
  output_of (cmd_ifconfig interface)
    (exec w (history w) (cmd_ifconfig interface))
    = inr (pre ++ py "ether " ++ m ++ post) ->
  reader_token m ->
  contains (pre ++ py "ether") (py "ether ") = false ->
  get_current_mac interface w =
    (Ret (Some m), set_history (history w ++ [cmd_ifconfig interface]) w).
Proof.
  intros Hunix Hout Htok Hpre.
  rewrite (get_current_mac_unix_eq _ _ Hunix), Hout. cbv zeta.
  destruct (ether_search_first pre None m post Htok Hpre) as (st & Hst & Hg).
  unfold re_search. now rewrite Hst, Hg.
Qed.

Lemma reader_unix_finds_first_token_witness :
  get_current_mac eth0 session_fresh =
    (Ret (Some mac_1), set_history [cmd_ifconfig eth0] session_fresh).
Proof.
  apply (reader_unix_finds_first_token eth0
           (py "eth0: flags=4163  mtu 1500" ++ [LF] ++ py "        ")
           mac_1 (py "  txqueuelen 1000" ++ [LF]) session_fresh).
  - reflexivity.
  - vm_compute. reflexivity.
  - split; vm_compute; reflexivity.
  - vm_compute. reflexivity.
Defined.

Lemma replace_dash_leaves_none x : 45%N ∉ replace_char 45 58 x.
Proof.
  induction x as [| c x IH]; [apply not_elem_of_nil |].
  change (replace_char 45 58 (c :: x))
    with ((if (c =? 45)%N then 58%N else c) :: replace_char 45 58 x).
  apply not_elem_of_cons. split; [| exact IH].
  destruct (c =? 45)%N eqn:E; [discriminate |].
  apply N.eqb_neq in E. congruence.
Qed.

Lemma getmac_search_occurs s st :
  re_search false getmac_pattern s = Some st ->
  exists tok pre post,
    group1 st = Some tok /\ getmac_token tok /\ s = pre ++ tok ++ post.
Proof.
  intros H. apply search_from_suffix in H as (pre & p & s' & -> & H).
  apply rmatch_group17_at in H as (tok & Hg & Hlen & Hall & Hrest).
  exists tok, pre, (rest st). repeat split; try assumption.
  f_equal. exact Hrest.
Qed.

Lemma getmac_lines_occurs interface lines m :
  getmac_lines interface lines = Some m ->
  exists line pre tok post,
    line ∈ lines /\ contains line interface = true /\
    line = pre ++ tok ++ post /\ getmac_token tok /\
    m = replace_char 45 58 tok.
Proof.
  induction lines as [| line more IH]; cbn; [discriminate |].
  assert (Hmore : getmac_lines interface more = Some m ->
    exists line0 pre tok post,
      line0 ∈ line :: more /\ contains line0 interface = true /\
      line0 = pre ++ tok ++ post /\ getmac_token tok /\
      m = replace_char 45 58 tok).
  { intros H. apply IH in H as (l & pre & tok & post & Hin & H).
    exists l, pre, tok, post. split; [now apply list_elem_of_further | exact H]. }
  destruct (contains line interface) eqn:Hc; [| exact Hmore].
  destruct (re_search false getmac_pattern line) as [st |] eqn:E; [| exact Hmore].
  apply getmac_search_occurs in E as (tok & pre & post & -> & Htok & Hline).
  cbn. intros [= <-].
  exists line, pre, tok, post. repeat split; try assumption; try apply Htok.
  apply list_elem_of_here.
Qed.

(** X21.
    If the output of [getmac] can be read, whatever the Windows reader
    returns is a seventeen-character token of a line that mentions the
    interface name, with every dash turned into a colon: the result holds
    no dash and is a token of the form the Unix reader returns. *)
Theorem reader_windows_token
    (interface output m : pystr) (w w' : world) :
  startswith (sys_platform w) (py "win") = true ->
  output_of cmd_getmac (exec w (history w) cmd_getmac) = inr output ->
  get_current_mac interface w = (Ret (Some m), w') ->
  exists line pre tok post,
    line ∈ splitlines output /\ contains line interface = true /\
    line = pre ++ tok ++ post /\ getmac_token tok /\
    m = replace_char 45 58 tok /\ (45%N ∉ m) /\ reader_token m.
Proof.
  intros Hwin Hout H.
  rewrite (get_current_mac_windows_eq _ _ Hwin), Hout in H. cbv zeta in H.
  injection H as H _.
  apply getmac_lines_occurs in H as (line & pre & tok & post & Hin & Hc & Hl & Htok & ->).
  exists line, pre, tok, post. repeat split; try assumption; try apply Htok.
  - apply replace_dash_leaves_none.
  - unfold replace_char. rewrite length_map. apply Htok.
  - apply replace_dash_reader_char, Htok.
Qed.

Lemma reader_windows_token_witness :
  fst (get_current_mac ethernet_2 session_windows_adapter) = Ret (Some mac_1) /\
  exists line pre tok post,
    line ∈ splitlines getmac_text /\ contains line ethernet_2 = true /\
    line = pre ++ tok ++ post /\ getmac_token tok /\
    mac_1 = replace_char 45 58 tok /\ (45%N ∉ mac_1) /\ reader_token mac_1.
Proof.
  split; [vm_compute; reflexivity |].
  apply (reader_windows_token ethernet_2 getmac_text mac_1 session_windows_adapter
           (snd (get_current_mac ethernet_2 session_windows_adapter)));
    vm_compute; reflexivity.
Defined.

(** ** The prompt loop, in detail *)

Lemma ask_new_mac_step n w :
  ask_new_mac n w =
    (line <- input prompt_text ;;
     if validate_mac (strip line) then ret (strip line)
     else
       print refusal_text ;;
       match n with
       | S n' => ask_new_mac n'
       | O => raise EOFError
       end) w.
Proof. destruct n; reflexivity. Qed.

Lemma ask_new_mac_first_valid good more : forall bad w n,
  stdin w = bad ++ good :: more ->
  Forall (fun line => validate_mac (strip line) = false) bad ->
  validate_mac (strip good) = true ->
  length (stdin w) <= n ->
  ask_new_mac n w =
    (Ret (strip good),
     set_stdin more (set_stdout (stdout w ++ refusals bad ++ [prompt_text]) w)).
Proof.
  induction bad as [| b bad IH]; intros w n Hin Hbad Hgood Hn.
  - rewrite ask_new_mac_step. unfold bind, input. cbn [stdin set_stdout].
    rewrite Hin. cbn [app]. now rewrite Hgood.
  - apply Forall_cons in Hbad as [Hb Hbad].
    rewrite ask_new_mac_step. unfold bind at 1. unfold input.
    cbn [stdin set_stdout]. rewrite Hin. cbn [app]. rewrite Hb.
    unfold bind, print.
    destruct n as [| n]; [rewrite Hin in Hn; cbn in Hn; lia |].
    rewrite (IH _ n); [| reflexivity | assumption | assumption |].
    + unfold set_stdin, set_stdout, refusals.
      cbn [sys_platform geteuid exec history fs log stdin stdout map concat].
      now rewrite <- !app_assoc.
    + cbn [stdin set_stdin set_stdout]. rewrite Hin in Hn.
      cbn [app length] in Hn. lia.
Qed.

(** X22.
    The prompt loop returns the first line of standard input whose trimmed
    text [validate_mac] accepts, trimmed.  It has read the lines up to and
    including that one, and has printed, for every line before it, the
    prompt and the refusal, then the prompt once more.  There is no limit on
    the number of attempts. *)
Theorem prompt_returns_first_valid
    (w : world) (bad : list pystr) (good : pystr) (more : list pystr) :
  stdin w = bad ++ good :: more ->
  Forall (fun line => validate_mac (strip line) = false) bad ->
  validate_mac (strip good) = true ->
  prompt_new_mac w =
    (Ret (strip good),
     set_stdin more (set_stdout (stdout w ++ refusals bad ++ [prompt_text]) w)).
Proof.
  intros Hin Hbad Hgood. unfold prompt_new_mac.
  now apply ask_new_mac_first_valid.
Qed.

Lemma prompt_returns_first_valid_witness :
  fst (prompt_new_mac session_third_attempt) = Ret (py "AA:BB:CC:11:22:33") /\
  stdin (snd (prompt_new_mac session_third_attempt)) = [py "n"].
Proof.
  pose proof (prompt_returns_first_valid session_third_attempt
                [py "AA-BB-CC-11-22-33"; py ""] (py "  AA:BB:CC:11:22:33 ")
                [py "n"] eq_refl) as H.
  rewrite H.
  - split; vm_compute; reflexivity.
  - repeat constructor.
  - vm_compute. reflexivity.
Defined.

Lemma ask_new_mac_no_valid : forall lines w n,
  stdin w = lines ->
  Forall (fun line => validate_mac (strip line) = false) lines ->
  length lines <= n ->
  ask_new_mac n w =
    (Raise EOFError,
     set_stdout (stdout w ++ refusals lines ++ [prompt_text]) (set_stdin [] w)).
Proof.
  induction lines as [| b lines IH]; intros w n Hin Hbad Hn.
  - rewrite ask_new_mac_step. unfold bind, input. cbn [stdin set_stdout].
    rewrite Hin. unfold set_stdout, set_stdin.
    cbn [sys_platform geteuid exec history fs log stdin stdout refusals map concat app].
    now rewrite Hin.
  - apply Forall_cons in Hbad as [Hb Hbad].
    rewrite ask_new_mac_step. unfold bind at 1. unfold input.
    cbn [stdin set_stdout]. rewrite Hin. rewrite Hb.
    unfold bind, print.
    destruct n as [| n]; [cbn in Hn; lia |].
    rewrite (IH _ n); [| reflexivity | assumption | cbn in Hn; lia].
    unfold set_stdin, set_stdout, refusals.
    cbn [sys_platform geteuid exec history fs log stdin stdout map concat].
    now rewrite <- !app_assoc.
Qed.

(** X23.
    If no line waiting on standard input is a valid address, the prompt
    loop reads them all, refuses each, and ends in an uncaught [EOFError] at
    the prompt that follows the last one. *)
Theorem prompt_without_valid_line_ends_in_eof (w : world) :
  Forall (fun line => validate_mac (strip line) = false) (stdin w) ->
  prompt_new_mac w =
    (Raise EOFError,
     set_stdout (stdout w ++ refusals (stdin w) ++ [prompt_text]) (set_stdin [] w)).
Proof.
  intros Hbad. unfold prompt_new_mac.
  now apply ask_new_mac_no_valid.
Qed.

Lemma prompt_without_valid_line_ends_in_eof_witness :
  fst (prompt_new_mac session_no_valid_attempt) = Raise EOFError.
Proof.
  rewrite (prompt_without_valid_line_ends_in_eof session_no_valid_attempt).
  - reflexivity.
  - repeat constructor.
Defined.

(** ** Trimming and validation together *)

Lemma lstrip_head s :
  match lstrip s with
  | c :: _ => is_space c = false
  | [] => True
  end.
Proof.
  induction s as [| c s IH]; [exact I |].
  cbn [lstrip]. destruct (is_space c) eqn:E; [exact IH | exact E].
Qed.

(** A trimmed text does not end in white space. *)
Lemma strip_last s c : last (strip s) = Some c -> is_space c = false.
Proof.
  unfold strip, rstrip.
  pose proof (lstrip_head (rev (lstrip s))) as H.
  destruct (lstrip (rev (lstrip s))) as [| d t]; [discriminate |].
  cbn [rev]. rewrite last_snoc. now intros [= <-].
Qed.

Lemma lstrip_id s :
  match s with
  | c :: _ => is_space c = false
  | [] => True
  end ->
  lstrip s = s.
Proof. destruct s as [| c s]; [reflexivity |]. cbn. now intros ->. Qed.

Lemma is_space_bound c : is_space c = true -> (c < 12289)%N.
Proof.
  unfold is_space, in_ranges, space_ranges. cbn [existsb fst snd].
  intros H.
  repeat (apply orb_prop in H as [H | H];
          [apply andb_prop in H as [_ H]; apply N.leb_le in H; lia |]).
  discriminate.
Qed.

Lemma space_and_reader_char_apart :
  forallb (fun n => negb (is_space (N.of_nat n) && is_reader_char (N.of_nat n)))
    (seq 0 (N.to_nat 12289)) = true.
Proof. vm_compute. reflexivity. Qed.

(** No character of a reader token is white space. *)
Lemma reader_char_not_space c : is_reader_char c = true -> is_space c = false.
Proof.
  intros Hr. destruct (is_space c) eqn:Hs; [| reflexivity].
  pose proof (is_space_bound c Hs) as Hb.
  pose proof space_and_reader_char_apart as H.
  rewrite forallb_forall in H. specialize (H (N.to_nat c)).
  rewrite N2Nat.id, Hs, Hr in H.
  assert (Hin : In (N.to_nat c) (seq 0 (N.to_nat 12289))) by (apply in_seq; lia).
  discriminate (H Hin).
Qed.

(** Trimming leaves a reader token as it is. *)
Lemma strip_reader_token m : reader_token m -> strip m = m.
Proof.
  intros [Hlen Hall]. unfold strip, rstrip.
  assert (Hhead : forall t, forallb is_reader_char t = true ->
                            match t with
                            | c :: _ => is_space c = false
                            | [] => True
                            end).
  { intros [| c t] H; [exact I |]. cbn in H.
    apply andb_prop in H as [H _]. now apply reader_char_not_space. }
  rewrite (lstrip_id m) by now apply Hhead.
  rewrite lstrip_id, rev_involutive; [reflexivity |].
  apply Hhead. rewrite forallb_forall in *. intros c Hc.
  apply Hall. now apply in_rev.
Qed.

(** X24.
    As its callers use it, on trimmed text, [validate_mac] accepts exactly
    six colon-separated groups of two characters of [[\da-fA-F]]: the
    newline that [$] tolerates cannot be there after [strip]. *)
Theorem validate_mac_on_stripped (s : pystr) :
  validate_mac (strip s) = six_groups is_hex_or_decimal (strip s).
Proof.
  destruct (six_groups is_hex_or_decimal (strip s)) eqn:Hsix.
  { now apply six_groups_accepted. }
  destruct (validate_mac (strip s)) eqn:Hval; [| reflexivity].
  apply validate_mac_sound in Hval. unfold accepted_by_pattern in Hval.
  rewrite Hsix in Hval. cbn [orb] in Hval.
  destruct (drop 17 (strip s)) as [| c [| d t]] eqn:Hdrop; try discriminate.
  apply andb_prop in Hval as [Hc _]. apply N.eqb_eq in Hc. subst c.
  assert (Hlast : last (strip s) = Some LF).
  { rewrite <- (take_drop 17 (strip s)), Hdrop. apply last_snoc. }
  apply strip_last in Hlast. vm_compute in Hlast. discriminate.
Qed.

(** ** Backup, then restore *)

(** X25.
    What [backup_mac] has saved is what [restore_mac] hands to the mutator:
    if the reader returned an address that [validate_mac] accepts and the
    backup file could be written (it opens, and the locale's codec encodes
    the address), a restore from the world the backup left
    is exactly [change_mac] with that address, followed on success by one
    information record. *)
Theorem backup_then_restore_reapplies
    (interface backup_file m : pystr) (w w1 : world) :
  get_current_mac interface w = (Ret (Some m), w1) ->
  writable w backup_file ->
  encodable w m = true ->
  validate_mac m = true ->
  let saved := snd (backup_mac interface backup_file w) in
  fs saved !! backup_file = Some (Text m) /\
  restore_mac interface backup_file saved =
    (change_mac interface m ;;
     logging_info
       (Plain (py "Restored MAC address to " ++ m ++ py " on "
               ++ interface ++ py "."))) saved.
Proof.
  intros Hread Hopen Hcodec Hvalid saved.
  assert (Hfile : fs saved !! backup_file = Some (Text m)).
  { unfold saved. rewrite (backup_mac_present _ _ _ _ _ Hread Hopen Hcodec). cbn.
    apply lookup_insert_eq. }
  split; [exact Hfile |].
  rewrite restore_mac_eq, Hfile.
  rewrite (strip_reader_token m (get_current_mac_token _ _ _ _ Hread)).
  now rewrite Hvalid.
Qed.

Lemma backup_then_restore_reapplies_witness :
  let saved := snd (backup_mac eth0 eth0_backup session_fresh) in
  fs saved !! eth0_backup = Some (Text mac_1) /\
  restore_mac eth0 eth0_backup saved =
    (change_mac eth0 mac_1 ;;
     logging_info
       (Plain (py "Restored MAC address to " ++ mac_1 ++ py " on "
               ++ eth0 ++ py "."))) saved.
Proof.
  apply (backup_then_restore_reapplies eth0 eth0_backup mac_1 session_fresh
           (snd (get_current_mac eth0 session_fresh))).
  - vm_compute. reflexivity.
  - vm_compute. reflexivity.
  - vm_compute. reflexivity.
  - vm_compute. reflexivity.
Defined.

(** ** Edges of backup and reader *)

(** X27.
    If the reader returns an address but the backup file is closed to the
    user, [backup_mac] ends in [PermissionError]: it has no handler of its
    own, logs nothing, and leaves the files as they are.  In [main] this
    ends the run before the prompt and before any mutation. *)
Theorem backup_mac_unwritable_raises
    (interface backup_file m : pystr) (w w1 : world) :
  get_current_mac interface w = (Ret (Some m), w1) ->
  fs w !! backup_file = Some Locked ->
  backup_mac interface backup_file w = (Raise (PermissionError backup_file), w1).
Proof.
  intros Hread Hlocked.
  now rewrite (backup_mac_eq _ _ _ _ _ Hread), Hlocked.
Qed.

Lemma backup_mac_unwritable_raises_witness :
  backup_mac eth0 eth0_backup session_locked_backup =
    (Raise (PermissionError eth0_backup),
     snd (get_current_mac eth0 session_locked_backup)).
Proof.
  apply (backup_mac_unwritable_raises eth0 eth0_backup mac_1);
    vm_compute; reflexivity.
Defined.

Lemma ether_search_none : forall s p,
  contains s (py "ether ") = false ->
  search_from false ether_pattern p s = None.
Proof.
  assert (Hhere : forall p s, startswith s (py "ether ") = false ->
            rmatch false ether_pattern (start_at p s) Some = None).
  { intros p s H. unfold ether_pattern.
    change (rmatch false (Cat ?a ?b) ?st ?k)
      with (rmatch false a st (fun st' => rmatch false b st' k)).
    now apply rmatch_lits_fail. }
  induction s as [| c t IH]; intros p H.
  - cbn [search_from]. now rewrite Hhere.
  - cbn [contains] in H. apply orb_false_elim in H as [Hsw H].
    cbn [search_from]. rewrite Hhere by exact Hsw. now apply IH.
Qed.

(** X28.
    If the output of [ifconfig] can be read but nowhere holds the word
    [ether] followed by a blank, the Unix reader returns the absent value
    without logging anything: the log is as it was, only the command has
    joined the history. *)
Theorem reader_unix_no_token_is_silent
    (interface output : pystr) (w : world) :
  startswith (sys_platform w) (py "linux")
    || startswith (sys_platform w) (py "darwin") = true ->
  output_of (cmd_ifconfig interface)
    (exec w (history w) (cmd_ifconfig interface)) = inr output ->
  contains output (py "ether ") = false ->
  get_current_mac interface w =
    (Ret None, set_history (history w ++ [cmd_ifconfig interface]) w).
Proof.
  intros Hunix Hout Hno.
  rewrite (get_current_mac_unix_eq _ _ Hunix), Hout. cbv zeta.
  unfold re_search. now rewrite ether_search_none.
Qed.

Lemma reader_unix_no_token_is_silent_witness :
  get_current_mac eth0 session_silent =
    (Ret None, set_history [cmd_ifconfig eth0] session_silent).
Proof.
  apply (reader_unix_no_token_is_silent eth0 [] session_silent);
    reflexivity.
Defined.
